(* ===== verification/_CoqProject ===== *)
-Q . S2P
Prelude.v
Async.v
Domain.v
Json.v
JsonCodec.v
ApiClient.v
EventService.v
EventStore.v
EventStoreSpec.v
EventStoreProps.v
EventStoreLoop.v
AuthService.v
AuthStore.v
AuthProps.v
CommentService.v
CommentStore.v
CommentProps.v
