(* ===== verification/Prelude.v ===== *)
(** * A verification development for the functionfinder front end

    The program (src/src) is a Vue/Pinia front end that lists events by
    country and city.  Its parts, leaves first:
    - [api/apiClient.ts]: a singleton axios wrapper; [get/post/put/delete]
      resolve with [response.data] or reject after logging; a request
      interceptor adds [Authorization: Bearer <token>] read from
      [localStorage['user']] at call time.
    - [api/eventService.ts], [api/commentService.ts], [api/authService.ts]:
      stateless services that turn each [ApiClient]/axios outcome into a
      value and never reject (lists fall back to [[]], [getEventById] to
      [null], posts to [false], auth to a [success: false] record); the
      auth service also normalizes the shapes of [userId].
    - [stores/eventStore.ts]: the Pinia store of countries, cities, events
      and the selection cascade country -> city -> events, with a
      [loading] flag guarded by a 30 s [setTimeout].
    - [stores/authStore.ts], [stores/commentStore.ts]: the session (kept in
      [localStorage]) and the comments of an event; the comment store reads
      the user id from the auth store.
    - [types/index.ts]: the records exchanged with the backend.

    ** Files and what they model
    - [Prelude] (this file): JavaScript truthiness ([Truthy]) and strict
      equality ([StrictEq], notation [===] in [js_scope]) as classes with
      one instance per kind of value the code tests; the hint databases
      [js], [js_rw], [frontend]; shared lemmas on lists and the operators.
    - [Async]: an [async] Pinia action as a program of a free monad [prog]
      over the store (reads, writes, awaits on service calls, [setTimeout],
      [clearTimeout]), with two semantics: [run] (the action alone, awaits
      answered by a backend oracle [ans]) and the event loop [step]
      (actions started by components, responses in any order, timers
      firing; [star] its closure).  [run_refines]: a sequential run is an
      event-loop behaviour.  [safe I p] and [reach_safe]: the rule-induction
      principle for invariants of reachable configurations.  [run_sched]:
      an executable scheduler, sound for [star] ([run_sched_sound]).
    - [Domain]: every interface of types/index.ts as a record ([Country.t],
      [City.t], [Event.t] and the others, navigation fields left out), the
      shapes of an event's [city] field ([city_field]), and the outcome
      [http B] of a call.
    - [EventService]: eventService.ts ([getAllEvents], [getCountries],
      [getCities], ..., the requests [call] of the event store and their
      [reply] types).
    - [EventStore]: eventStore.ts: the [state] record, one setter per
      field, [startLoading]/[stopLoading]/[timeout_cb], each action
      ([initialize], [loadEvents], [loadCountries], [loadCities],
      [setCountryFilter], [setCityFilter], [resetFilters]) as a [prog], and
      the getters ([filteredEvents], [hasActiveFilters], [selectedCountry],
      [selectedCity]) as functions of the state.
    - [EventStoreSpec]: [Spec], the actions in direct style (store before
      -> store after and calls made), the guard discipline [tidy], [idle],
      and the refinement of every action into [Spec] ([behaves_denote],
      [run_seq_refines]).
    - [EventStoreProps]: the cascade of [setCountryFilter] and its invariant
      [cascade_ok] over sequences of actions; [initialize] (idempotence,
      the no-city path, and the stale city it keeps); the forced city of
      [setCityFilter]; the guard of [loadEvents]; transport failures
      surfacing as empty lists; soundness and completeness of
      [filteredEvents] and the events it misses.
    - [EventStoreLoop]: the event store under interleaving: the guard
      discipline is invariant ([guard_discipline]), stated once for any
      invariant that [startLoading]/[stopLoading] keep (Section [Guard]);
      liveness: the loop can always settle with no request, no timer and
      [loading] off ([loading_released], from the invariant [guarded] and
      [Async.drain]); two schedules reach states the sequential reading
      excludes (two country selections mixing their cascades, [loading]
      false with a request in flight).
    - [Json]: the JavaScript values the auth code handles ([json]: null,
      booleans, integers, strings, arrays, objects), property reads [get]
      ([None] is [undefined]), [typeof], truthiness, [Object.keys] and
      assignment [obj.k = v] ([set_prop]), template-literal conversion
      ([to_js_string]).  Objects keep their keys in [Object.keys] order
      (array-index keys ascending, then insertion order: [canonical]);
      [wf] says a value has that shape, and every operation keeps it.
    - [JsonCodec]: [JSON.stringify] ([stringify], with the ECMAScript
      escapes) and [JSON.parse] ([parse] on fuel, [JSON_parse] with fuel
      [length s + 1]); [JSON_parse_stringify]: parsing what [stringify]
      wrote gives the value back for every well-formed value,
      [JSON_parse_wf]: a parsed value is well formed, and
      [parse_fuel_stable]: every parse step consumes input, so the fuel
      [JSON_parse] gives is never the limit (termination).
    - [ApiClient]: [localStorage] ([LocalStorage], a [gmap] of strings) and
      apiClient.ts: the instance's configuration, the request config of
      [get]/[post]/[put]/[delete] ([build]), the two request interceptors
      run in axios's order ([dispatch]), the [Authorization] header they
      compute ([authHeader]); [dispatch_build]: what leaves the page
      carries exactly the header the model's calls carry.  [AuthProps]
      composes it with [setUser]: after [setUser(u)] every request carries
      [Bearer] and [u]'s token, after [logout] none.
    - [AuthService]: authService.ts: [login]/[register] as programs awaiting
      the direct axios post, the body decoded as axios does ([axios_data]),
      the [userId] normalization [extractUserId] and the records [respond]
      returns on success and [failed] on a rejection.
    - [AuthStore]: authStore.ts: [state] and [env] (the store with the
      browser's [localStorage]), [setUser] with its [userId] fix-up
      ([fix_userId]) and persistence, [initializeAuth], [login]/[register]
      (their common body [authenticate]), [logout], the getters; the
      session invariant [session_ok] and its event-loop form [auth_inv].
    - [AuthProps]: the [userId] shapes; [setUser]/[initializeAuth] round
      trip; the session invariant under any interleaving
      ([session_invariant]); login then page reload; the Bearer header
      agrees with the store; [logout]; the failure paths (no token, stored
      non-object session, failed login over a session).
    - [CommentService]: commentService.ts and [CommentDto] of
      types/index.ts.
    - [CommentStore]: commentStore.ts, written against the interface
      [AuthView] (the class of what it reads of the session: the user and
      [localStorage]), with [AuthStore.env] as the instance
      [authStore_view]: [getUserId] (its throw as a sum), [addComment],
      [getCommentsByEventId], [clearComments], the getters.
    - [CommentProps]: [addComment] fails fast without a user id, its
      [You must be logged in] branch is dead, a successful post reloads the
      list, a comment posted after [login] carries the session's token and
      id, which can be a number although [CommentDto] says string;
      [addComment] is equivalent to the action without its dead branch
      ([addComment_ref]); overlapping loads let a late response win.

    ** Modelling choices
    - Numbers are identifiers and are modelled as [Z]; NaN never arises.
      [T | null | undefined] is [option T].  Truthiness and [===] follow
      JavaScript: the id 0 is falsy, so a country or city with id 0 is
      treated as "no selection" by the code, and the model keeps that.
    - Services never reject, so the [catch] blocks of the stores are
      unreachable and the stores are modelled by their [try] and [finally]
      blocks.  Logging ([console.*]) is not modelled.
    - [run] needs no fuel: [prog] is an inductive type and every action is
      a finite term, so [run] is structural; the event loop [step] is a
      relation, and liveness is stated as reachability: a configuration
      where every action has completed can always be reached
      ([Async.drain]: answer the pending awaits one by one).
    - Timer handles are positive ([alloc_timer] returns [S n]) as in
      browsers; the 30 s delay is not modelled: a timer may fire at any
      point before it is cancelled, which covers every real timing.
    - [JSON.parse] is [parse] on fuel; one unit per character plus one is
      enough for every text: each step consumes a character, and any more
      fuel gives the same result ([parse_fuel_stable]), so the bound never
      decides a result; [None] is a [SyntaxError], which the code catches.
    - The auth service does not use [ApiClient]: its reply is the response
      text, which axios decodes as [JSON.parse], else keeps as a string.

    ** Not modelled
    - Logging ([console.*], [logRequest], [ApiClient.handleError]) and
      the singletons ([getInstance] of the client and the services): they
      neither read nor change state the code uses.  The response
      interceptor only logs and rethrows, so a rejection is the value
      [Fail] of [http]; the network and the backend are the oracle [ans].
    - JSON numbers with a fraction or exponent, non-finite numbers and
      string characters above [\u00ff]: [json] has integers ([Z], not
      doubles) and 8-bit strings.  [parse] rejects the texts that hold
      them, so the model's axios keeps such a reply as a string where
      JavaScript parses it.  The properties that decode a login reply
      ([login_without_token], [login_failure_keeps_session],
      [extractUserId_index_key_first]) assume the body is one the model
      parses, where the model and [JSON.parse] agree; the round trips
      ([setUser_hydrate], [login_reload_roundtrip]) are stated for the
      values of the model.
    - The 10 s timeout of the axios instance is data of the request, not
      a clock: a reply may arrive after any delay, and its rejection is
      one of the replies.  A property that needed the 30 s loading guard
      to fire before a reply would need a stalled page; none does.
    - [new Date().toISOString()] is an argument of [addComment].
    - UI components and their tests (src/tests) are out of scope: they
      exercise [.vue] components absent from the sources. *)


From stdpp Require Import base list strings.
From Stdlib Require Import ZArith.

(** ** JavaScript values and operators used by the sources

    The TypeScript sources test values for truthiness ([if (x)], [!x],
    [x && y], [x || d]) and compare them with strict equality [===].
    Both are overloaded in JavaScript; we give them one class each, with an
    instance per type of value the code tests: numbers (identifiers, modelled
    as [Z]; NaN does not occur), timer handles ([nat]), strings, booleans,
    arrays (always truthy) and [T | null | undefined] (modelled as
    [option T]). *)

Declare Scope js_scope.
Delimit Scope js_scope with js.

Class Truthy (A : Type) := truthy : A -> bool.
Class StrictEq (A : Type) := strict_eqb : A -> A -> bool.

Notation "x === y" := (strict_eqb x y) (at level 70, no associativity) : js_scope.
(** [x || d] on a value that may be falsy: the value when it is truthy,
    the default otherwise. *)
Notation "x '||d' d" := (if truthy x then x else d)
  (at level 50, left associativity) : js_scope.

#[export] Instance truthy_Z : Truthy Z := fun z => negb (Z.eqb z 0).
#[export] Instance truthy_nat : Truthy nat := fun n => negb (Nat.eqb n 0).
#[export] Instance truthy_bool : Truthy bool := fun b => b.
#[export] Instance truthy_string : Truthy string :=
  fun s => negb (String.eqb s EmptyString).
#[export] Instance truthy_list {A} : Truthy (list A) := fun _ => true.
#[export] Instance truthy_option {A} `{Truthy A} : Truthy (option A) :=
  fun o => match o with Some a => truthy a | None => false end.

#[export] Instance strict_eq_Z : StrictEq Z := Z.eqb.
#[export] Instance strict_eq_nat : StrictEq nat := Nat.eqb.
#[export] Instance strict_eq_string : StrictEq string := String.eqb.
(** [null === null] holds; a value is never [===] to [null]. *)
#[export] Instance strict_eq_option {A} `{StrictEq A} : StrictEq (option A) :=
  fun o1 o2 => match o1, o2 with
               | Some a, Some b => strict_eqb a b
               | None, None => true
               | _, _ => false
               end.

Open Scope js_scope.

(** ** Hint databases of the development *)

Create HintDb js discriminated.
Create HintDb frontend discriminated.
Create Rewrite HintDb js_rw.

(** ** Generic lemmas on the JavaScript operators *)

Lemma truthy_Z_iff (z : Z) : truthy z = true <-> z <> 0%Z.
Proof.
  unfold truthy, truthy_Z. destruct (Z.eqb_spec z 0); simpl; intuition congruence.
Qed.

Lemma truthy_Z_false (z : Z) : truthy z = false <-> z = 0%Z.
Proof.
  unfold truthy, truthy_Z. destruct (Z.eqb_spec z 0); simpl; intuition congruence.
Qed.

Lemma truthy_some_Z (z : Z) : truthy (Some z) = truthy z.
Proof. reflexivity. Qed.

Lemma truthy_none {A} `{Truthy A} : truthy (@None A) = false.
Proof. reflexivity. Qed.

Lemma truthy_nat_S (n : nat) : truthy (S n) = true.
Proof. reflexivity. Qed.

Lemma truthy_string_iff (s : string) : truthy s = true <-> s <> EmptyString.
Proof.
  unfold truthy, truthy_string. destruct (String.eqb_spec s EmptyString);
    simpl; intuition congruence.
Qed.

Lemma strict_eq_Z_iff (x y : Z) : (x === y) = true <-> x = y.
Proof. apply Z.eqb_eq. Qed.

Lemma strict_eq_string_iff (x y : string) : (x === y) = true <-> x = y.
Proof. apply String.eqb_eq. Qed.

Lemma strict_eq_Z_refl (x : Z) : (x === x) = true.
Proof. apply Z.eqb_refl. Qed.

(** Strict equality on [T | null] reflects equality when it does on [T]. *)
Lemma strict_eq_option_iff {A} `{StrictEq A} :
  (forall x y : A, (x === y) = true <-> x = y) ->
  forall o1 o2 : option A, (o1 === o2) = true <-> o1 = o2.
Proof.
  intros HA o1 o2. unfold strict_eqb at 1, strict_eq_option.
  destruct o1 as [a|], o2 as [b|]; try (split; congruence).
  rewrite HA. split; congruence.
Qed.

Lemma strict_eq_option_Z_iff (x y : option Z) : (x === y) = true <-> x = y.
Proof. apply strict_eq_option_iff, strict_eq_Z_iff. Qed.

Lemma strict_eq_option_string_iff (x y : option string) : (x === y) = true <-> x = y.
Proof. apply strict_eq_option_iff, strict_eq_string_iff. Qed.

#[export] Hint Rewrite truthy_some_Z truthy_nat_S strict_eq_Z_refl : js_rw.
#[export] Hint Resolve strict_eq_Z_refl truthy_nat_S : js.

(** ** Generic lemmas on lists *)

(** [Array.prototype.find] is [List.find]; the selected element comes from
    the list and satisfies the predicate. *)
Lemma find_In_pred {A} (f : A -> bool) (l : list A) (x : A) :
  List.find f l = Some x -> In x l /\ f x = true.
Proof. apply find_some. Qed.

Lemma find_app_l {A} (f : A -> bool) (l1 l2 : list A) (x : A) :
  List.find f l1 = Some x -> List.find f (l1 ++ l2) = Some x.
Proof.
  induction l1 as [|a l1 IH]; simpl; [discriminate|].
  destruct (f a); auto.
Qed.

Lemma filter_nil_iff {A} (f : A -> bool) (l : list A) :
  List.filter f l = [] <-> forall x, In x l -> f x = false.
Proof.
  induction l as [|a l IH]; simpl; [tauto|].
  destruct (f a) eqn:Ha; split.
  - discriminate.
  - intros H. rewrite (H a (or_introl eq_refl)) in Ha. discriminate.
  - intros Hl x [<-|Hx]; [exact Ha|]. apply IH; auto.
  - intros H. apply IH. intros x Hx. apply H. auto.
Qed.

#[export] Hint Resolve find_app_l : frontend.

(** ** Generic lemmas on strings *)

(** [String.append] does not unfold by [simpl]; these are its equations. *)
Lemma string_app_nil_l (a : string) : EmptyString +:+ a = a.
Proof. reflexivity. Qed.

Lemma string_app_cons (c : Ascii.ascii) (a b : string) :
  String c a +:+ b = String c (a +:+ b).
Proof. reflexivity. Qed.

Lemma string_app_assoc (a b c : string) : (a +:+ b) +:+ c = a +:+ (b +:+ c).
Proof. induction a as [|x a IH]; rewrite ?string_app_nil_l, ?string_app_cons; congruence. Qed.

Lemma string_app_nil_r (a : string) : a +:+ EmptyString = a.
Proof. induction a as [|x a IH]; rewrite ?string_app_nil_l, ?string_app_cons; congruence. Qed.

Lemma string_length_app a b : String.length (a +:+ b) = String.length a + String.length b.
Proof. induction a as [|c a IH]; [reflexivity|]. rewrite string_app_cons. simpl. lia. Qed.

#[export] Hint Rewrite string_app_nil_l string_app_cons string_app_assoc
  string_app_nil_r : js_rw.

(** ** Generic lemmas on sums over lists *)

Lemma sum_list_with_In {A} (g : A -> nat) x l : In x l -> g x <= sum_list_with g l.
Proof. induction l as [|y l IH]; simpl; [done|]. intros [->|H]; [lia|]. specialize (IH H); lia. Qed.

Lemma sum_list_with_S {A} (g : A -> nat) l :
  sum_list_with (fun x => S (g x)) l = sum_list_with g l + length l.
Proof. induction l as [|x l IH]; simpl; lia. Qed.

Lemma sum_list_with_mono {A} (g h : A -> nat) l :
  Forall (fun x => g x <= h x) l -> sum_list_with g l <= sum_list_with h l.
Proof. induction 1; simpl; lia. Qed.

(** ** Tactics *)

(** Case analysis on a JavaScript truthiness or strict-equality test on
    numbers, keeping the fact in the context as a proposition. *)
Ltac case_js_Z z :=
  let H := fresh "Hz" in
  destruct (Z.eqb_spec z 0%Z) as [H|H].

Ltac js_simpl := autorewrite with js_rw in *; simpl in *.
