(* ===== verification/Async.v ===== *)
(** * Async: Pinia actions as programs over a store, awaits and timers

    A Pinia action is an [async] method that reads and writes [this] (the
    store), awaits calls to a service, and arms or cancels JavaScript timers
    ([setTimeout]/[clearTimeout]).  Between two awaits an action runs to
    completion without interleaving (the JavaScript event loop is
    single-threaded).  We model an action as a term of a small free monad
    [prog] whose constructors are exactly these effects, and give it two
    semantics:
    - [run]: the action alone, every await answered at once by a backend
      oracle [ans], no timer firing (all responses arrive in time);
    - [step]: the event loop, where actions started by the UI, responses
      arriving in any order and timers firing interleave at await points.
    [run_refines] shows that a sequential run is one behaviour of the event
    loop; [reach_safe] is the rule-induction principle that proves an
    invariant of every reachable event-loop configuration from the
    [safe] judgement on each action. *)

From stdpp Require Import base list.
From S2P Require Import Prelude.

Section Async.
Context {St Req : Type} (reply : Req -> Type).

Inductive prog (A : Type) : Type :=
| Ret (a : A)
| Read (k : St -> prog A)
| Write (f : St -> St) (k : prog A)
| Await (r : Req) (k : reply r -> prog A)
| SetTimeout (cb : St -> St) (k : nat -> prog A)
| ClearTimeout (t : nat) (k : prog A).

Arguments Ret {A} a.
Arguments Read {A} k.
Arguments Write {A} f k.
Arguments Await {A} r k.
Arguments SetTimeout {A} cb k.
Arguments ClearTimeout {A} t k.

Fixpoint bind {A B} (p : prog A) (f : A -> prog B) : prog B :=
  match p with
  | Ret a => f a
  | Read k => Read (fun s => bind (k s) f)
  | Write g k => Write g (bind k f)
  | Await r k => Await r (fun v => bind (k v) f)
  | SetTimeout cb k => SetTimeout cb (fun t => bind (k t) f)
  | ClearTimeout t k => ClearTimeout t (bind k f)
  end.

(** [this] read, [this.x = e], [await svc(...)], [setTimeout], [clearTimeout]. *)
Definition get : prog St := Read Ret.
Definition modify (f : St -> St) : prog unit := Write f (Ret tt).
Definition await (r : Req) : prog (reply r) := Await r Ret.
Definition setTimeout (cb : St -> St) : prog nat := SetTimeout cb Ret.
Definition clearTimeout (t : nat) : prog unit := ClearTimeout t (Ret tt).

(** ** The world: the store and the pending timers of the page *)

Record world := mkWorld {
  w_st : St;
  w_timers : list (nat * (St -> St));
  w_next : nat
}.

Definition upd_st (f : St -> St) (w : world) : world :=
  mkWorld (f (w_st w)) (w_timers w) (w_next w).

(** Browsers hand out positive timer handles, never 0. *)
Definition alloc_timer (cb : St -> St) (w : world) : nat * world :=
  let t := S (w_next w) in
  (t, mkWorld (w_st w) (w_timers w ++ [(t, cb)]) t).

(** [clearTimeout] of an unknown or already fired handle does nothing. *)
Definition cancel_timer (t : nat) (w : world) : world :=
  mkWorld (w_st w) (List.filter (fun e => negb (Nat.eqb e.1 t)) (w_timers w))
    (w_next w).

(** A timer fires: it leaves the pending list and its callback runs. *)
Definition fire (t : nat) (cb : St -> St) (w : world) : world :=
  upd_st cb (cancel_timer t w).

(** ** Sequential semantics *)

Section Run.
Variable ans : forall r, reply r.

Fixpoint run {A} (p : prog A) (w : world) : A * world * list Req :=
  match p with
  | Ret a => (a, w, [])
  | Read k => run (k (w_st w)) w
  | Write f k => run k (upd_st f w)
  | Await r k => let '(a, w', c) := run (k (ans r)) w in (a, w', r :: c)
  | SetTimeout cb k => let '(t, w') := alloc_timer cb w in run (k t) w'
  | ClearTimeout t k => run k (cancel_timer t w)
  end.

Definition final {A} (p : prog A) (w : world) : world := (run p w).1.2.
Definition calls {A} (p : prog A) (w : world) : list Req := (run p w).2.
Definition result {A} (p : prog A) (w : world) : A := (run p w).1.1.

Lemma run_bind {A B} (p : prog A) (f : A -> prog B) w :
  run (bind p f) w =
  let '(a, w1, c1) := run p w in
  let '(b, w2, c2) := run (f a) w1 in (b, w2, c1 ++ c2).
Proof.
  revert w. induction p as [a|k IH|g k IH|r k IH|cb k IH|t k IH]; intros w;
    simpl; try apply IH.
  - destruct (run (f a) w) as [[b w2] c2]. reflexivity.
  - rewrite IH. destruct (run (k (ans r)) w) as [[a w1] c1].
    destruct (run (f a) w1) as [[b w2] c2]. reflexivity.
Qed.

Lemma final_bind {A B} (p : prog A) (f : A -> prog B) w :
  final (bind p f) w = final (f (result p w)) (final p w).
Proof.
  unfold final, result. rewrite run_bind.
  destruct (run p w) as [[a w1] c1]. simpl.
  destruct (run (f a) w1) as [[b w2] c2]. reflexivity.
Qed.

Lemma calls_bind {A B} (p : prog A) (f : A -> prog B) w :
  calls (bind p f) w = calls p w ++ calls (f (result p w)) (final p w).
Proof.
  unfold final, result, calls. rewrite run_bind.
  destruct (run p w) as [[a w1] c1]. simpl.
  destruct (run (f a) w1) as [[b w2] c2]. reflexivity.
Qed.

Lemma result_bind {A B} (p : prog A) (f : A -> prog B) w :
  result (bind p f) w = result (f (result p w)) (final p w).
Proof.
  unfold final, result. rewrite run_bind.
  destruct (run p w) as [[a w1] c1]. simpl.
  destruct (run (f a) w1) as [[b w2] c2]. reflexivity.
Qed.

Lemma run_get_bind {A} (k : St -> prog A) w :
  run (bind get k) w = run (k (w_st w)) w.
Proof. reflexivity. Qed.

Lemma run_modify_bind {A} f (k : unit -> prog A) w :
  run (bind (modify f) k) w = run (k tt) (upd_st f w).
Proof. reflexivity. Qed.

End Run.

(** ** Event-loop semantics *)

Record blocked (A : Type) := Blocked {
  b_req : Req;
  b_k : reply b_req -> prog A
}.
Arguments Blocked {A} b_req b_k.
Arguments b_req {A} b.
Arguments b_k {A} b _.

(** Run synchronously up to the first await (or to the end). *)
Fixpoint exec {A} (p : prog A) (w : world) : world * (A + blocked A) :=
  match p with
  | Ret a => (w, inl a)
  | Read k => exec (k (w_st w)) w
  | Write f k => exec k (upd_st f w)
  | Await r k => (w, inr (Blocked r k))
  | SetTimeout cb k => let '(t, w') := alloc_timer cb w in exec (k t) w'
  | ClearTimeout t k => exec k (cancel_timer t w)
  end.

Lemma exec_bind {A B} (p : prog A) (f : A -> prog B) w :
  exec (bind p f) w =
  match exec p w with
  | (w', inl a) => exec (f a) w'
  | (w', inr b) => (w', inr (Blocked (b_req b) (fun v => bind (b_k b v) f)))
  end.
Proof.
  revert w. induction p as [a|k IH|g k IH|r k IH|cb k IH|t k IH]; intros w;
    simpl; try apply IH; reflexivity.
Qed.

Section Loop.
Context {Act : Type} (action : Act -> prog unit).

Definition config : Type := world * list (blocked unit).

Definition tasks_of (res : unit + blocked unit) : list (blocked unit) :=
  match res with inl _ => [] | inr b => [b] end.

(** The UI starts an action; a pending await receives any response; a
    pending timer fires.  Responses may arrive in any order. *)
Inductive step : config -> config -> Prop :=
| step_spawn a w ts w' res :
    exec (action a) w = (w', res) ->
    step (w, ts) (w', ts ++ tasks_of res)
| step_resolve w ts1 b ts2 (v : reply (b_req b)) w' res :
    exec (b_k b v) w = (w', res) ->
    step (w, ts1 ++ b :: ts2) (w', ts1 ++ ts2 ++ tasks_of res)
| step_fire w ts t cb :
    In (t, cb) (w_timers w) ->
    step (w, ts) (fire t cb w, ts).

Inductive star : config -> config -> Prop :=
| star_refl c : star c c
| star_step c1 c2 c3 : step c1 c2 -> star c2 c3 -> star c1 c3.

Lemma star_trans c1 c2 c3 : star c1 c2 -> star c2 c3 -> star c1 c3.
Proof. induction 1; eauto using star. Qed.

(** A program run to completion, each await answered by [ans] as soon as
    it is issued, is a sequence of event-loop steps. *)
Lemma exec_run_star ans (q : prog unit) w ts :
  star ((exec q w).1, ts ++ tasks_of (exec q w).2) (final ans q w, ts).
Proof.
  revert w. induction q as [[]|k IH|g k IH|r k IH|cb k IH|t k IH]; intros w;
    unfold final in *; simpl.
  - rewrite app_nil_r. apply star_refl.
  - apply IH.
  - apply IH.
  - specialize (IH (ans r) w).
    destruct (exec (k (ans r)) w) as [w2 res2] eqn:E.
    eapply star_step; [exact (step_resolve w ts (Blocked r k) [] (ans r) w2 res2 E)|].
    destruct (run ans (k (ans r)) w) as [[a w'] c]. exact IH.
  - apply IH.
  - apply IH.
Qed.

Theorem run_refines ans a w ts :
  star (w, ts) (final ans (action a) w, ts).
Proof.
  eapply star_step; [|apply exec_run_star].
  apply (step_spawn a). destruct (exec (action a) w); reflexivity.
Qed.

(** Liveness of the event loop: answering the pending awaits one after
    the other (each action run to its end, its later awaits answered as
    they come) completes every pending action. *)
Lemma drain (ans : forall r, reply r) (c : config) : exists w, star c (w, []).

Proof.
  destruct c as [w ts]. revert w. induction ts as [|b ts IH]; intros w.
  - exists w. apply star_refl.
  - destruct (exec (b_k b (ans (b_req b))) w) as [w1 res] eqn:E.
    pose proof (exec_run_star ans (b_k b (ans (b_req b))) w ts) as Hrun.
    rewrite E in Hrun. destruct (IH (final ans (b_k b (ans (b_req b))) w)) as [w' Hw'].
    exists w'. eapply star_step; [exact (step_resolve w [] b ts _ w1 res E)|].
    eapply star_trans; [exact Hrun|exact Hw'].
Qed.

(** ** Invariants of the event loop *)

(** [safe I p]: started in a world satisfying [I], every synchronous
    segment of [p] ends in a world satisfying [I], whatever the responses. *)
Inductive safe (I : world -> Prop) {A} : prog A -> Prop :=
| safe_intro p :
    (forall w, I w -> I (exec p w).1) ->
    (forall w w' b, I w -> exec p w = (w', inr b) -> forall v, safe I (b_k b v)) ->
    safe I p.

Definition inv_cfg (I : world -> Prop) (c : config) : Prop :=
  I c.1 /\ Forall (fun b => forall v, safe I (b_k b v)) c.2.

Theorem reach_safe (I : world -> Prop) :
  (forall a, safe I (action a)) ->
  (forall w t cb, I w -> In (t, cb) (w_timers w) -> I (fire t cb w)) ->
  forall c c', star c c' -> inv_cfg I c -> inv_cfg I c'.
Proof.
  intros Hact Hfire c c' Hs. induction Hs as [c|c1 c2 c3 Hst _ IH]; [done|].
  intros [HI Hts]. apply IH. destruct Hst as [a w ts w' res E|w ts1 b ts2 v w' res E|w ts t cb Hin].
  - destruct (Hact a) as [p H1 H2]. split; simpl in *.
    + pose proof (H1 w HI) as Hw. rewrite E in Hw. exact Hw.
    + apply Forall_app; split; [done|]. destruct res as [[]|b]; simpl; [done|].
      constructor; [|done]. intros v. eapply H2; eauto.
  - simpl in *. apply Forall_app in Hts as [Hts1 Hts2]. inversion Hts2 as [|? ? Hb Hts3]; subst.
    destruct (Hb v) as [p H1 H2]. split; simpl.
    + pose proof (H1 w HI) as Hw. rewrite E in Hw. exact Hw.
    + apply Forall_app; split; [done|]. apply Forall_app; split; [done|].
      destruct res as [[]|b']; simpl; [done|].
      constructor; [|done]. intros v'. eapply H2; eauto.
  - split; simpl in *; auto.
Qed.

End Loop.

(** ** Proof rules for [safe] *)

Section SafeRules.
Variable I : world -> Prop.

Lemma safe_ret {A} (a : A) : safe I (Ret a).
Proof. constructor; simpl; [auto | discriminate]. Qed.

Lemma safe_await {A} r (k : reply r -> prog A) :
  (forall v, safe I (k v)) -> safe I (Await r k).
Proof. intros H. constructor; simpl; [auto|]. intros w w' b _ [= <- <-]. exact H. Qed.

Lemma safe_read {A} (k : St -> prog A) :
  (forall s, safe I (k s)) -> safe I (Read k).
Proof.
  intros H. constructor; simpl.
  - intros w Hw. destruct (H (w_st w)) as [p H1 _]. auto.
  - intros w w' b Hw E. destruct (H (w_st w)) as [p _ H2]. eauto.
Qed.

(** A program without awaits is safe when its one segment keeps [I]. *)
Lemma safe_sync {A} (p : prog A) :
  (forall w, I w -> I (exec p w).1) ->
  (forall w, exists a, (exec p w).2 = inl a) ->
  safe I p.
Proof.
  intros H1 H2. constructor; [done|].
  intros w w' b _ E. destruct (H2 w) as [a Ha]. rewrite E in Ha. discriminate.
Qed.

Lemma safe_bind {A B} (p : prog A) (f : A -> prog B) :
  safe I p -> (forall a, safe I (f a)) -> safe I (bind p f).
Proof.
  intros Hp Hf. induction Hp as [p H1 H2 IH].
  constructor.
  - intros w Hw. rewrite exec_bind.
    pose proof (H1 w Hw) as Hw'.
    destruct (exec p w) as [w' [a|b]] eqn:E; simpl in *; [|exact Hw'].
    destruct (Hf a) as [q Q1 _]. auto.
  - intros w w' b Hw E v. rewrite exec_bind in E.
    destruct (exec p w) as [w1 [a|b1]] eqn:E1.
    + pose proof (H1 w Hw) as Hw1. rewrite E1 in Hw1.
      destruct (Hf a) as [q _ Q2]. eapply Q2; [exact Hw1|exact E].
    + injection E as <- <-. simpl. eapply IH; eauto.
Qed.

End SafeRules.

End Async.

Arguments Ret {St Req reply A} a.
Arguments Read {St Req reply A} k.
Arguments Write {St Req reply A} f k.
Arguments Await {St Req reply A} r k.
Arguments SetTimeout {St Req reply A} cb k.
Arguments ClearTimeout {St Req reply A} t k.
Arguments get {St Req reply}.
Arguments modify {St Req reply} f.
Arguments await {St Req reply} r.
Arguments setTimeout {St Req reply} cb.
Arguments clearTimeout {St Req reply} t.
Arguments Blocked {St Req reply A} b_req b_k.
Arguments b_req {St Req reply A} b.
Arguments b_k {St Req reply A} b _.
Arguments world St : clear implicits.
Arguments mkWorld {St} w_st w_timers w_next.

(** stdpp's monad notation [x ← p; q] and [p ;; q] for programs. *)
#[export] Instance prog_mret {St Req reply} : MRet (@prog St Req reply) :=
  fun A a => Ret a.
#[export] Instance prog_mbind {St Req reply} : MBind (@prog St Req reply) :=
  fun A B f p => bind reply p f.

(** The [run] equations in the [≫=] form the models are written in. *)
Section RunMbind.
Context {St Req : Type} {reply : Req -> Type} (ans : forall r, reply r).

Lemma run_mbind {A B} (p : @prog St Req reply A) (f : A -> prog reply B) w :
  run reply ans (p ≫= f) w =
  let '(a, w1, c1) := run reply ans p w in
  let '(b, w2, c2) := run reply ans (f a) w1 in (b, w2, c1 ++ c2).
Proof. apply run_bind. Qed.

Lemma run_mbind_get {A} (k : St -> @prog St Req reply A) w :
  run reply ans (get ≫= k) w = run reply ans (k (w_st w)) w.
Proof. reflexivity. Qed.

Lemma run_mbind_modify {A} f (k : unit -> @prog St Req reply A) w :
  run reply ans (modify f ≫= k) w = run reply ans (k tt) (upd_st f w).
Proof. reflexivity. Qed.

Lemma run_mret {A} (a : A) w : run reply ans (mret a : @prog St Req reply A) w = (a, w, []).
Proof. reflexivity. Qed.
End RunMbind.

(** A sequence of actions, each run to completion before the next starts. *)
Fixpoint run_seq {St Req : Type} {reply : Req -> Type} {Act : Type}
    (action : Act -> @prog St Req reply unit) (ans : forall r, reply r)
    (l : list Act) (w : world St) : world St :=
  match l with
  | [] => w
  | a :: l' => run_seq action ans l' (final reply ans (action a) w)
  end.

Section LoopTools.
Context {St Req : Type} {reply : Req -> Type}.

(** A path without awaits runs the same way in both semantics. *)
Lemma exec_of_run ans {A} (p : @prog St Req reply A) w a w' :
  run reply ans p w = (a, w', []) -> exec reply p w = (w', inl a).
Proof.
  revert w. induction p as [b|k IH|g k IH|r k IH|cb k IH|t k IH]; intros w; simpl.
  - congruence.
  - apply IH.
  - apply IH.
  - destruct (run reply ans (k (ans r)) w) as [[? ?] ?]. discriminate.
  - apply IH.
  - apply IH.
Qed.

Section SafeMbind.
Variable I : world St -> Prop.

Lemma safe_mbind {A B} (p : @prog St Req reply A) (f : A -> prog reply B) :
  safe reply I p -> (forall a, safe reply I (f a)) -> safe reply I (p ≫= f).
Proof. apply safe_bind. Qed.

Lemma safe_mret {A} (a : A) : safe reply I (mret a : @prog St Req reply A).
Proof. apply safe_ret. Qed.

Lemma safe_get : safe reply I (@get St Req reply).
Proof. apply safe_read. intros s. apply safe_ret. Qed.

Lemma safe_modify (f : St -> St) :
  (forall w, I w -> I (upd_st f w)) -> safe reply I (@modify St Req reply f).
Proof.
  intros Hf. constructor; simpl; [auto|discriminate].
Qed.

(** A call awaited and its reply transformed, then the rest: the rest
    runs on the transformed reply. *)
Lemma safe_mbind_await_mret {A B} r (g : reply r -> A) (f : A -> prog reply B) :
  (forall v, safe reply I (f (g v))) ->
  safe reply I ((await r ≫= (fun v => mret (g v))) ≫= f).
Proof. intros H. apply safe_await. exact H. Qed.

(** The same after a read of the store (a service that reads the
    store, e.g. for a request header, then awaits). *)
Lemma safe_mbind_get_await_mret {A B} (r : St -> Req) (g : forall s, reply (r s) -> A)
    (f : A -> prog reply B) :
  (forall s v, safe reply I (f (g s v))) ->
  safe reply I ((get ≫= (fun s => await (r s) ≫= (fun v => mret (g s v)))) ≫= f).
Proof. intros H. apply safe_read. intros s. apply safe_await. exact (H s). Qed.

(** A program that always finishes its first segment without awaiting. *)
Lemma safe_of_run ans {A} (p : @prog St Req reply A) :
  (forall w, I w -> exists a w', run reply ans p w = (a, w', []) /\ I w') ->
  safe reply I p.
Proof.
  intros H. constructor.
  - intros w Hw. destruct (H w Hw) as (a & w' & E & Hw').
    rewrite (exec_of_run ans p w a w' E). exact Hw'.
  - intros w w' b Hw E. destruct (H w Hw) as (a & w'' & E' & _).
    rewrite (exec_of_run ans p w a w'' E') in E. discriminate.
Qed.
End SafeMbind.

(** ** An executable scheduler *)

Section Sched.
Context {Act : Type} (action : Act -> @prog St Req reply unit).
Variable ans : forall r, reply r.

(** What the event loop does next: start an action, deliver the backend's
    answer to the [i]-th pending await, or fire the timer with handle [t]. *)
Inductive sched_event :=
| Spawn (a : Act)
| Resolve (i : nat)
| Fire (t : nat).

Definition sched_step (e : sched_event) (c : config reply) : option (config reply) :=
  match e with
  | Spawn a => let '(w', res) := exec reply (action a) c.1 in Some (w', c.2 ++ tasks_of reply res)
  | Resolve i =>
      match nth_error c.2 i with
      | Some b =>
          let '(w', res) := exec reply (b_k b (ans (b_req b))) c.1 in
          Some (w', firstn i c.2 ++ skipn (S i) c.2 ++ tasks_of reply res)
      | None => None
      end
  | Fire t =>
      match List.find (fun e => Nat.eqb e.1 t) (w_timers c.1) with
      | Some (t', cb) => Some (fire t' cb c.1, c.2)
      | None => None
      end
  end.

Fixpoint run_sched (evs : list sched_event) (c : config reply) : option (config reply) :=
  match evs with
  | [] => Some c
  | e :: evs' => match sched_step e c with Some c' => run_sched evs' c' | None => None end
  end.

Lemma sched_step_sound e c c' : sched_step e c = Some c' -> step reply action c c'.
Proof.
  destruct c as [w ts]. destruct e as [a|i|t]; simpl.
  - destruct (exec reply (action a) w) as [w' res] eqn:E. intros [= <-].
    apply (step_spawn reply action a). exact E.
  - destruct (nth_error ts i) as [b|] eqn:Hn; [|discriminate].
    destruct (exec reply (b_k b (ans (b_req b))) w) as [w' res] eqn:E.
    intros [= <-].
    assert (Hts : ts = firstn i ts ++ b :: skipn (S i) ts).
    { revert i Hn. induction ts as [|x ts IH]; intros [|i] Hn; simpl in *;
        try discriminate; [injection Hn as ->; reflexivity|]. f_equal. apply IH, Hn. }
    rewrite Hts at 1. apply (step_resolve reply action w _ b _ (ans (b_req b))). exact E.
  - destruct (List.find _ (w_timers w)) as [[t' cb]|] eqn:Hf; [|discriminate].
    intros [= <-]. apply step_fire. apply find_some in Hf. apply Hf.
Qed.

Theorem run_sched_sound evs c c' :
  run_sched evs c = Some c' -> star reply action c c'.
Proof.
  revert c. induction evs as [|e evs IH]; intros c; simpl.
  - intros [= <-]. apply star_refl.
  - destruct (sched_step e c) as [c1|] eqn:E; [|discriminate].
    intros H. eapply star_step; [exact (sched_step_sound e c c1 E) | apply IH, H].
Qed.
End Sched.
End LoopTools.

(** Decompose [safe I p] along the structure of [p]; [modtac] proves
    that a write keeps the invariant (goal [I (upd_st f w)] with [I w] in
    the context). *)
Ltac safe_steps modtac :=
  repeat match goal with
  | |- safe _ _ ((await ?r ≫= _) ≫= _) =>
      first [apply (safe_mbind_await_mret _ r); intros ? | apply safe_mbind; [|intros ?]]
  | |- safe _ _ ((get ≫= _) ≫= _) =>
      first [apply safe_mbind_get_await_mret; intros ? ? | apply safe_mbind; [|intros ?]]
  | |- safe _ _ (_ ≫= _) => apply safe_mbind; [|intros ?]
  | |- safe _ _ get => apply safe_get
  | |- safe _ _ (modify _) => apply safe_modify; intros ? ?; modtac
  | |- safe _ _ (await _) => unfold await; apply safe_await; intros ?
  | |- safe _ _ (mret _) => apply safe_mret
  | |- safe _ _ (Ret _) => apply safe_ret
  | |- safe _ _ (let _ := _ in _) => cbv zeta
  | |- safe _ _ (if _ then _ else _) => case_match
  | |- safe _ _ (match _ with _ => _ end) => case_match
  end.

(** Prove [exists c, star (step action) c0 c /\ P c] by running the
    schedule [sched] with the answers [ans] and computing [P]. *)
Ltac by_schedule_from action ans sched c0 :=
  let c := fresh "c" in let E := fresh "E" in
  destruct (run_sched action ans sched c0) as [c|] eqn:E;
  [| vm_compute in E; discriminate];
  exists c; split; [exact (run_sched_sound action ans sched _ _ E)|];
  vm_compute in E; injection E as <-; vm_compute; repeat split.

(** Case analysis on every backend answer [ans r] a run depends on. *)
Ltac destruct_answers ans :=
  repeat match goal with |- context [ans ?r] => destruct (ans r); simpl end.
