(* ===== verification/Domain.v ===== *)
(** * Domain: the records of src/types/index.ts and the outcome of a call

    Each interface of [src/types/index.ts] is a record in a Module of its
    own ([Country.t], [City.t], [Event.t], ..., [EventState.t]); the
    navigation fields ([country], [events], [eventType], [dresscode],
    [comments], [event], [user]) are never read by the code and are left
    out.  [extends] is a field holding the extended record.  Identifiers
    are JavaScript numbers, modelled as [Z].

    [Event.t] follows the payloads the store actually filters (see the
    getter [filteredEvents] of [src/stores/eventStore.ts]): [cityId] may be
    absent, [city] may be absent, a string or an object, and an undeclared
    [cityName] field may be present.

    [http B] is what a call through [ApiClient] produces: the response body
    [response.data] of type [B], or a rejected promise (network error or
    non-2xx status, see [ApiClient.handleError]); a list endpoint's body is
    [body A], an array that [Array.isArray] accepts or anything else. *)

From stdpp Require Import base list strings.
From Stdlib Require Import ZArith.
From S2P Require Import Prelude.

Module Country.
Record t := mk { countryId : Z; name : string }.
End Country.

Module City.
Record t := mk { cityId : Z; name : string; flags : Z; countryId : Z }.
End City.

(** The [city] field of an event payload: absent, a plain string (some
    endpoints send the city name), or a nested [City] object. *)
Inductive city_field :=
| CityAbsent
| CityString (s : string)
| CityObject (name : option string) (cityId : option Z).

Module Event.
Record t := mk {
  eventId : Z;
  name : string;
  cityId : option Z;
  city : city_field;
  cityName : option string
}.
End Event.

(** An object is truthy; so is a non-empty string. *)
#[export] Instance truthy_city_field : Truthy city_field :=
  fun c => match c with
           | CityAbsent => false
           | CityString s => truthy s
           | CityObject _ _ => true
           end.

(** [event.city === name] with [name] a string: strict equality never
    holds between an object and a string. *)
Definition city_field_eqb_string (c : city_field) (s : string) : bool :=
  match c with
  | CityString s' => s' === s
  | _ => false
  end.

Module EventType.
Record t := mk { eventTypeId : Z; name : string; description : string }.
End EventType.

Module Dresscode.
Record t := mk { dresscodeId : Z; name : string; description : string;
                 iconUrl : string }.
End Dresscode.

(** ** The other interfaces of types/index.ts

    Declared for the backend's payloads and the components; no store or
    service of src/ reads their fields, so no property is stated about
    them.  The same navigation fields are left out ([event], [user],
    [comments]); optional fields are [option]s. *)

Module ApiResponse.
Record t (T : Type) := mk { data : T; success : bool; message : option string }.
End ApiResponse.

Module PaginatedResponse.
Record t (T : Type) := mk {
  base : ApiResponse.t T;
  totalCount : Z; pageSize : Z; currentPage : Z; totalPages : Z
}.
End PaginatedResponse.

Module Comment.
Record t := mk { commentId : Z; text : string; dateCreated : string; eventId : Z;
                 userId : string }.
End Comment.

Module User.
Record t := mk { id : string; userName : string; email : string }.
End User.

Module CreateEventDto.
Record t := mk { name : string; description : string; dateOfEvent : string;
                 eventTypeId : Z; cityId : Z; dresscodeId : Z }.
End CreateEventDto.

Module CreateCommentDto.
Record t := mk { text : string; eventId : Z }.
End CreateCommentDto.

Module LoginCredentials.
Record t := mk { email : string; password : string }.
End LoginCredentials.

Module RegisterCredentials.
Record t := mk { credentials : LoginCredentials.t; userName : string }.
End RegisterCredentials.

Module EventFilters.
Record t := mk {
  countryId : option Z; cityId : option Z; eventTypeId : option Z;
  dresscodeId : option Z; fromDate : option string; toDate : option string;
  searchTerm : option string; page : option Z; pageSize : option Z
}.
End EventFilters.

Module AuthState.
Record t := mk { user : option User.t; isAuthenticated : bool; token : option string }.
End AuthState.

Module EventState.
Record t := mk { events : list Event.t; loading : bool; error : option string;
                 filters : EventFilters.t; selectedEvent : option Event.t }.
End EventState.

(** ** Outcome of an HTTP call through ApiClient *)

(** A list endpoint's [response.data]: an array, or anything else. *)
Inductive body (A : Type) :=
| Arr (xs : list A)
| NotArr.
Arguments Arr {A} xs.
Arguments NotArr {A}.

(** [ApiClient.get/post] resolve with [response.data] or reject; the
    rejection carries [error.response?.status] and the server's
    [error.response?.data?.message] when there was a response. *)
Inductive http (B : Type) :=
| Ok (b : B)
| Fail (status : option Z) (message : option string).
Arguments Ok {B} b.
Arguments Fail {B} status message.
