(* ===== verification/Json.v ===== *)
(** * Json: the JavaScript values the auth code handles

    The auth service, the auth store and the [ApiClient] interceptor handle
    values that come out of [JSON.parse] (the backend's [response.data],
    the [localStorage] entry ['user']) and read them with JavaScript's
    operators.  [json] is the value, with integer numbers ([Z]) and strings
    of 8-bit code units ([string]); an object is the list of its own
    properties in the order [Object.keys] enumerates them, which is the
    order JavaScript keeps: array-index keys ascending first, then the
    other keys in insertion order ([obj_insert], [canonical]).

    Operators:
    - [get v k]: the property read [v[k]] / [v.k]; [None] is [undefined].
      Reading a property of [null] throws; the callers test for it.
    - [typeof], [Truthy json], [keys] ([Object.keys]), [set_prop]
      ([v.k = w] on an object);
    - [to_js_string]: the conversion of a template literal [`${v}`].

    Not modelled: fractional numbers and code units above 255 (the
    identifiers, tokens and names the code reads are strings or integers);
    property reads of the prototype chain other than [length]. *)

From stdpp Require Import base list strings pretty.
From Stdlib Require Import ZArith Ascii.
From S2P Require Import Prelude.

#[local] Set Warnings "-register-all".
Inductive json :=
| JNull
| JBool (b : bool)
| JNum (n : Z)
| JStr (s : string)
| JArr (xs : list json)
| JObj (fs : list (string * json)).

(** Induction through the nested lists. *)
Section json_rect.
Variable P : json -> Prop.
Hypothesis Hnull : P JNull.
Hypothesis Hbool : forall b, P (JBool b).
Hypothesis Hnum : forall n, P (JNum n).
Hypothesis Hstr : forall s, P (JStr s).
Hypothesis Harr : forall xs, Forall P xs -> P (JArr xs).
Hypothesis Hobj : forall fs, Forall (fun kv => P kv.2) fs -> P (JObj fs).

Fixpoint json_ind' (j : json) : P j :=
  match j with
  | JNull => Hnull
  | JBool b => Hbool b
  | JNum n => Hnum n
  | JStr s => Hstr s
  | JArr xs =>
      Harr xs ((fix go (xs : list json) : Forall P xs :=
                  match xs with
                  | [] => Forall_nil_2 _
                  | x :: xs => Forall_cons_2 _ _ _ (json_ind' x) (go xs)
                  end) xs)
  | JObj fs =>
      Hobj fs ((fix go (fs : list (string * json)) :
                   Forall (fun kv => P kv.2) fs :=
                  match fs with
                  | [] => Forall_nil_2 _
                  | kv :: fs => Forall_cons_2 _ _ _ (json_ind' kv.2) (go fs)
                  end) fs)
  end.
End json_rect.

(** ** Keys *)

Definition digit_of (c : ascii) : option N :=
  let n := N_of_ascii c in
  if (48 <=? n)%N && (n <=? 57)%N then Some (n - 48)%N else None.

(** The value of a string of decimal digits, read left to right onto
    [acc]; [None] when a character is not a digit. *)
Fixpoint digits_val (s : string) (acc : N) : option N :=
  match s with
  | EmptyString => Some acc
  | String c s' =>
      match digit_of c with
      | Some d => digits_val s' (acc * 10 + d)%N
      | None => None
      end
  end.

(** An array index: the canonical decimal form of an integer below
    [2^32 - 1] (no sign, no leading zero). *)
Definition array_index (k : string) : option N :=
  match k with
  | EmptyString => None
  | String "0" EmptyString => Some 0%N
  | String "0" _ => None
  | _ => match digits_val k 0 with
         | Some n => if (n <? 4294967295)%N then Some n else None
         | None => None
         end
  end.

(** A new key [k] goes before the existing key [k']: [k] is an index and
    [k'] is a larger index or not an index. *)
Definition key_before (k k' : string) : bool :=
  match array_index k, array_index k' with
  | Some n, Some n' => (n <? n')%N
  | Some _, None => true
  | None, _ => false
  end.

(** Property creation: the key is placed where [Object.keys] lists it. *)
Fixpoint obj_insert (k : string) (v : json) (fs : list (string * json))
    : list (string * json) :=
  match fs with
  | [] => [(k, v)]
  | (k', v') :: fs' =>
      if key_before k k' then (k, v) :: fs else (k', v') :: obj_insert k v fs'
  end.

(** [o[k] = v]: an existing property keeps its place. *)
Definition obj_set (k : string) (v : json) (fs : list (string * json))
    : list (string * json) :=
  if existsb (fun kv => String.eqb kv.1 k) fs
  then map (fun kv => if String.eqb kv.1 k then (k, v) else kv) fs
  else obj_insert k v fs.

Fixpoint obj_get (k : string) (fs : list (string * json)) : option json :=
  match fs with
  | [] => None
  | (k', v) :: fs' => if String.eqb k' k then Some v else obj_get k fs'
  end.

(** The keys of an object are distinct and in [Object.keys] order. *)
Fixpoint canonical (ks : list string) : bool :=
  match ks with
  | [] => true
  | k :: ks' =>
      forallb (fun k' => negb (String.eqb k k') && negb (key_before k' k)) ks'
      && canonical ks'
  end.

(** Every object inside the value is canonical: the values JavaScript
    can build. *)
Fixpoint wf (j : json) : bool :=
  match j with
  | JArr xs => forallb wf xs
  | JObj fs => canonical (map fst fs) && forallb (fun kv => wf kv.2) fs
  | _ => true
  end.

(** ** Operators *)

(** [v[k]]; [None] is [undefined].  Arrays and strings have their
    elements and [length]. *)
Definition get (j : json) (k : string) : option json :=
  match j with
  | JObj fs => obj_get k fs
  | JArr xs =>
      match array_index k with
      | Some n => nth_error xs (N.to_nat n)
      | None => if String.eqb k "length" then Some (JNum (Z.of_nat (length xs)))
                else None
      end
  | JStr s =>
      match array_index k with
      | Some n => option_map (fun c => JStr (String c EmptyString))
                    (String.get (N.to_nat n) s)
      | None => if String.eqb k "length" then Some (JNum (Z.of_nat (String.length s)))
                else None
      end
  | _ => None
  end.

(** [o.k = v] on an object; the code assigns properties of objects only. *)
Definition set_prop (j : json) (k : string) (v : json) : json :=
  match j with
  | JObj fs => JObj (obj_set k v fs)
  | _ => j
  end.

Definition typeof (j : json) : string :=
  match j with
  | JNull | JArr _ | JObj _ => "object"
  | JBool _ => "boolean"
  | JNum _ => "number"
  | JStr _ => "string"
  end.

#[export] Instance truthy_json : Truthy json :=
  fun j => match j with
           | JNull => false
           | JBool b => b
           | JNum n => truthy n
           | JStr s => truthy s
           | JArr _ | JObj _ => true
           end.

(** [Object.keys]. *)
Definition keys (j : json) : list string :=
  match j with
  | JObj fs => map fst fs
  | JArr xs => map (fun i => pretty (N.of_nat i)) (seq 0 (length xs))
  | _ => []
  end.

(** [x] when [x] is a truthy value, the filter of [if (x) ...]. *)
Definition truthy_val (o : option json) : option json :=
  match o with
  | Some v => if truthy v then Some v else None
  | None => None
  end.

(** [`${v}`]: strings as they are, numbers in decimal, arrays joined with
    commas (null elements print as nothing), objects as
    [[object Object]]. *)
Fixpoint to_js_string (j : json) : string :=
  match j with
  | JNull => "null"
  | JBool true => "true"
  | JBool false => "false"
  | JNum n => pretty n
  | JStr s => s
  | JArr xs =>
      (fix go (first : bool) (xs : list json) : string :=
         match xs with
         | [] => ""
         | x :: xs' =>
             (if first then "" else ",") +:+
             (match x with JNull => "" | _ => to_js_string x end) +:+ go false xs'
         end) true xs
  | JObj _ => "[object Object]"
  end.

(** * Lemmas: property creation keeps the [Object.keys] order *)

Lemma key_before_asym a b : key_before a b = true -> key_before b a = false.
Proof.
  unfold key_before. destruct (array_index a), (array_index b); try done.
  rewrite !N.ltb_lt, N.ltb_ge. lia.
Qed.

Lemma key_before_trans a b c :
  key_before a b = true -> key_before b c = true -> key_before a c = true.
Proof.
  unfold key_before. destruct (array_index a), (array_index b), (array_index c); try done.
  rewrite !N.ltb_lt. lia.
Qed.

Lemma obj_insert_keys k v fs x :
  In x (map fst (obj_insert k v fs)) <-> x = k \/ In x (map fst fs).
Proof.
  induction fs as [|[k' v'] fs IH]; simpl; [naive_solver|].
  destruct (key_before k k'); simpl; rewrite ?IH; naive_solver.
Qed.

Lemma obj_insert_values k v fs kv :
  In kv (obj_insert k v fs) -> kv = (k, v) \/ In kv fs.
Proof.
  induction fs as [|[k' v'] fs IH]; simpl; [naive_solver|].
  destruct (key_before k k'); simpl; [naive_solver|].
  intros [<-|H]; [tauto|]. destruct (IH H); tauto.
Qed.

Lemma canonical_cons k ks :
  canonical (k :: ks) = true <->
  (forall k', In k' ks -> k <> k' /\ key_before k' k = false) /\ canonical ks = true.
Proof.
  simpl. rewrite andb_true_iff, forallb_forall.
  split; intros [H1 H2]; split; auto; intros k' Hk'; specialize (H1 k' Hk').
  - apply andb_true_iff in H1 as [Ha Hb]. apply negb_true_iff in Ha, Hb.
    apply String.eqb_neq in Ha. auto.
  - destruct H1 as [Ha Hb]. apply String.eqb_neq in Ha. rewrite Ha, Hb. done.
Qed.

Lemma canonical_obj_insert k v fs :
  canonical (map fst fs) = true -> ~ In k (map fst fs) ->
  canonical (map fst (obj_insert k v fs)) = true.
Proof.
  induction fs as [|[k' v'] fs IH]; [done|]. cbn [map fst].
  intros [Hk' Hc]%canonical_cons Hfresh. cbn [obj_insert].
  destruct (key_before k k') eqn:Hb; cbn [map fst]; apply canonical_cons; split.
  - intros x [<-|Hx]; split; [intros ->; apply Hfresh; by left|by apply key_before_asym|
      intros ->; apply Hfresh; by right|].
    destruct (key_before x k) eqn:Hxk; [|done].
    destruct (Hk' x Hx) as [_ Hxk']. rewrite (key_before_trans _ _ _ Hxk Hb) in Hxk'.
    discriminate.
  - apply canonical_cons. auto.
  - intros x Hx%obj_insert_keys. destruct Hx as [->|Hx]; [|auto].
    split; [intros ->; apply Hfresh; by left|done].
  - apply IH; [done|]. intros H; apply Hfresh; by right.
Qed.

Lemma obj_set_keys k v (fs : list (string * json)) :
  map fst (map (fun kv => if String.eqb kv.1 k then (k, v) else kv) fs) = map fst fs.
Proof.
  induction fs as [|[k' v'] fs IH]; simpl; [done|].
  destruct (String.eqb_spec k' k); simpl; congruence.
Qed.

Lemma existsb_key_false k (fs : list (string * json)) :
  existsb (fun kv => String.eqb kv.1 k) fs = false -> ~ In k (map fst fs).
Proof.
  intros H Hin. apply in_map_iff in Hin as ([k' v'] & <- & Hin).
  assert (existsb (fun kv => String.eqb kv.1 k') fs = true) as Ht
    by (apply existsb_exists; exists (k', v'); simpl; rewrite String.eqb_refl; auto).
  simpl in *. congruence.
Qed.

Lemma canonical_obj_set k v fs :
  canonical (map fst fs) = true -> canonical (map fst (obj_set k v fs)) = true.
Proof.
  unfold obj_set. destruct (existsb _ fs) eqn:He.
  - rewrite obj_set_keys. done.
  - intros Hc. apply canonical_obj_insert; [done|]. by apply existsb_key_false.
Qed.

Lemma obj_set_values k v fs kv : In kv (obj_set k v fs) -> kv = (k, v) \/ In kv fs.
Proof.
  unfold obj_set. destruct (existsb _ fs).
  - intros ([k' v'] & Heq & Hin)%in_map_iff. simpl in Heq.
    destruct (String.eqb k' k); subst; auto.
  - apply obj_insert_values.
Qed.

(** Assigning a well-formed value keeps an object well-formed. *)
Lemma wf_obj_set k v fs :
  wf (JObj fs) = true -> wf v = true -> wf (JObj (obj_set k v fs)) = true.
Proof.
  simpl. intros [Hc Hw]%andb_true_iff Hv. apply andb_true_iff. split.
  - by apply canonical_obj_set.
  - apply forallb_forall. intros kv [->|Hin]%obj_set_values; [done|].
    rewrite forallb_forall in Hw. auto.
Qed.

Lemma wf_set_prop j k v : wf j = true -> wf v = true -> wf (set_prop j k v) = true.
Proof. destruct j as [| | | | |fs]; intros Hj Hv; [exact Hj..|exact (wf_obj_set k v fs Hj Hv)]. Qed.

(** ** Property reads *)

Lemma obj_get_In k fs v : obj_get k fs = Some v -> In (k, v) fs.
Proof.
  induction fs as [|[k' v'] fs IH]; simpl; [discriminate|].
  destruct (String.eqb_spec k' k); [intros [= ->]; subst; auto|auto].
Qed.

(** In a canonical key list, a property is found under its key. *)
Lemma obj_get_canonical k v fs :
  canonical (map fst fs) = true -> In (k, v) fs -> obj_get k fs = Some v.
Proof.
  induction fs as [|[k' v'] fs IH]; simpl; [done|].
  intros [Hks Hc]%canonical_cons [[= -> ->]|Hin]; [by rewrite String.eqb_refl|].
  destruct (String.eqb_spec k' k) as [->|]; [|by apply IH].
  exfalso. apply (proj1 (Hks k (in_map fst _ (k, v) Hin))). reflexivity.
Qed.

(** [Object.keys] lists first the array-index key with the least index. *)
Lemma head_canonical_index k n ks :
  canonical ks = true -> In k ks -> array_index k = Some n ->
  (forall k' n', In k' ks -> k' <> k -> array_index k' = Some n' -> (n < n')%N) ->
  head ks = Some k.
Proof.
  destruct ks as [|k0 ks]; [done|]. intros [Hks _]%canonical_cons Hin Hk Hmin. simpl.
  destruct (String.eqb_spec k0 k) as [->|Hne]; [done|].
  destruct Hin as [->|Hin]; [done|]. exfalso.
  pose proof (proj2 (Hks k Hin)) as Hb. unfold key_before in Hb. rewrite Hk in Hb.
  destruct (array_index k0) as [n0|] eqn:E0; [|discriminate].
  apply N.ltb_ge in Hb. specialize (Hmin k0 n0 (or_introl eq_refl) Hne E0). lia.
Qed.

(** A property of a well-formed value is well formed. *)
Lemma get_wf j k v : wf j = true -> get j k = Some v -> wf v = true.
Proof.
  destruct j as [| | | s | xs | fs]; simpl; try discriminate.
  - unfold option_map. repeat case_match; intros _ Hg; simplify_eq; done.
  - intros Hw. rewrite forallb_forall in Hw. repeat case_match; intros Hg; simplify_eq; [|done].
    apply Hw. eapply nth_error_In; eauto.
  - intros [_ Hw]%andb_true_iff Hg. rewrite forallb_forall in Hw.
    apply (Hw (k, v)), obj_get_In, Hg.
Qed.

Lemma obj_get_insert k v fs :
  ~ In k (map fst fs) -> obj_get k (obj_insert k v fs) = Some v.
Proof.
  induction fs as [|[k' v'] fs IH]; simpl; [rewrite String.eqb_refl; done|].
  intros Hk. destruct (key_before k k'); simpl; [rewrite String.eqb_refl; done|].
  destruct (String.eqb_spec k' k); [exfalso; auto|]. auto.
Qed.

Lemma obj_get_obj_set k v fs : obj_get k (obj_set k v fs) = Some v.
Proof.
  unfold obj_set. destruct (existsb _ fs) eqn:He.
  - induction fs as [|[k' v'] fs IH]; simpl in *; [discriminate|].
    destruct (String.eqb_spec k' k); simpl; rewrite ?String.eqb_refl; [done|].
    destruct (String.eqb_spec k' k); [congruence|auto].
  - apply obj_get_insert. by apply existsb_key_false.
Qed.

Lemma obj_get_insert_ne k k' v fs :
  k <> k' -> obj_get k' (obj_insert k v fs) = obj_get k' fs.
Proof.
  intros Hne. induction fs as [|[k0 v0] fs IH]; simpl.
  - destruct (String.eqb_spec k k'); congruence.
  - destruct (key_before k k0); simpl.
    + destruct (String.eqb_spec k k'); [congruence|reflexivity].
    + destruct (String.eqb k0 k'); auto.
Qed.

Lemma obj_get_obj_set_ne k k' v fs :
  k <> k' -> obj_get k' (obj_set k v fs) = obj_get k' fs.
Proof.
  intros Hne. unfold obj_set. destruct (existsb _ fs); [|by apply obj_get_insert_ne].
  induction fs as [|[k0 v0] fs IH]; simpl; [done|].
  destruct (String.eqb_spec k0 k) as [->|]; simpl.
  - destruct (String.eqb_spec k k'); [congruence|]. exact IH.
  - destruct (String.eqb k0 k'); auto.
Qed.

Lemma get_set_prop_ne j k k' v : k <> k' -> get (set_prop j k v) k' = get j k'.
Proof. intros Hne. destruct j; try reflexivity. apply obj_get_obj_set_ne, Hne. Qed.

(** ** Truthiness *)

Lemma truthy_val_Some o v : truthy_val o = Some v -> o = Some v /\ truthy v = true.
Proof. destruct o as [w|]; simpl; [destruct (truthy w) eqn:?|]; intros; simplify_eq; auto. Qed.

Lemma truthy_set_prop j k v : truthy (set_prop j k v) = truthy j.
Proof. destruct j; reflexivity. Qed.

(** Turn each [truthy_val o = Some v] of the context into [o = Some v]
    and [truthy v = true]. *)
Ltac truthy_vals :=
  repeat match goal with
  | H : truthy_val _ = Some _ |- _ => apply truthy_val_Some in H as [? ?]
  end.
