(* ===== verification/JsonCodec.v ===== *)
(** * JsonCodec: [JSON.stringify] and [JSON.parse] on [json]

    [localStorage] holds strings: the auth store writes
    [JSON.stringify(user)] and reads back [JSON.parse(userJson)], and the
    [ApiClient] interceptor parses the same entry.  [stringify] follows
    the serialization of ECMAScript's [JSON.stringify] (no whitespace,
    properties in [Object.keys] order, the escapes of [QuoteJSONString]:
    a backslash before a quote or a backslash, [\b], [\f], [\n], [\r],
    [\t], [\u00xx] for the other control characters, every other code
    unit as it is).  [parse] is the
    JSON grammar of [JSON.parse] (whitespace, literals, integers, strings
    with every escape, arrays, objects where a repeated key keeps its
    first place and its last value), run with fuel; [JSON_parse] gives it
    one unit of fuel per input character plus one, which is enough for
    every text: each step of the parser consumes input
    ([parse_length]), so more fuel changes no result
    ([parse_fuel_stable]).

    Inputs outside the values of [Json] are refused: numbers with a
    fraction or an exponent and [\u] escapes above [\u00ff]. *)

From stdpp Require Import base list strings pretty.
From Stdlib Require Import ZArith Ascii.
From S2P Require Import Prelude Json.

(** ** Printing *)

Definition quote_char : ascii := ascii_of_N 34.
Definition backslash : ascii := ascii_of_N 92.

Definition hex_digit (n : N) : ascii :=
  if (n <? 10)%N then ascii_of_N (48 + n) else ascii_of_N (87 + n).

(** The escape of one code unit. *)
Definition escape (c : ascii) : string :=
  let n := N_of_ascii c in
  if (n =? 34)%N then String backslash (String quote_char EmptyString)
  else if (n =? 92)%N then String backslash (String backslash EmptyString)
  else if (n =? 8)%N then String backslash "b"
  else if (n =? 9)%N then String backslash "t"
  else if (n =? 10)%N then String backslash "n"
  else if (n =? 12)%N then String backslash "f"
  else if (n =? 13)%N then String backslash "r"
  else if (n <? 32)%N then
    String backslash (String "u" (String "0" (String "0"
      (String (hex_digit (n / 16)) (String (hex_digit (n mod 16)) EmptyString)))))
  else String c EmptyString.

Fixpoint quote_body (s : string) : string :=
  match s with
  | EmptyString => EmptyString
  | String c s' => escape c +:+ quote_body s'
  end.

(** [QuoteJSONString]. *)
Definition quote (s : string) : string :=
  String quote_char (quote_body s +:+ String quote_char EmptyString).

(** The elements of an array or the members of an object after the
    first, each after a comma, then the closing bracket. *)
Section Join.
Context {A : Type} (pr : A -> string) (close : string).

Fixpoint join_rest (xs : list A) : string :=
  match xs with
  | [] => close
  | x :: xs' => String "," (pr x +:+ join_rest xs')
  end.

Definition join (xs : list A) : string :=
  match xs with
  | [] => close
  | x :: xs' => pr x +:+ join_rest xs'
  end.
End Join.

Fixpoint stringify (j : json) : string :=
  match j with
  | JNull => "null"
  | JBool true => "true"
  | JBool false => "false"
  | JNum n => pretty n
  | JStr s => quote s
  | JArr xs => String "[" (join stringify "]" xs)
  | JObj fs =>
      String "{" (join (fun kv => quote kv.1 +:+ String ":" (stringify kv.2)) "}" fs)
  end.

(** ** Parsing *)

Definition is_ws (c : ascii) : bool :=
  let n := N_of_ascii c in (n =? 32)%N || (n =? 9)%N || (n =? 10)%N || (n =? 13)%N.

Fixpoint skip_ws (s : string) : string :=
  match s with
  | String c s' => if is_ws c then skip_ws s' else s
  | EmptyString => s
  end.

Definition hex_val (c : ascii) : option N :=
  let n := N_of_ascii c in
  if (48 <=? n)%N && (n <=? 57)%N then Some (n - 48)%N
  else if (97 <=? n)%N && (n <=? 102)%N then Some (n - 87)%N
  else if (65 <=? n)%N && (n <=? 70)%N then Some (n - 55)%N
  else None.

(** [\uXXXX]; only code units up to [0xff] are values of [Json]. *)
Definition hex4 (a b c d : ascii) : option ascii :=
  match hex_val a, hex_val b, hex_val c, hex_val d with
  | Some a, Some b, Some c, Some d =>
      let n := (((a * 16 + b) * 16 + c) * 16 + d)%N in
      if (n <? 256)%N then Some (ascii_of_N n) else None
  | _, _, _, _ => None
  end.

(** The character after a backslash, other than [u]. *)
Definition simple_escape (e : ascii) : option ascii :=
  let n := N_of_ascii e in
  if (n =? 34)%N || (n =? 92)%N || (n =? 47)%N then Some e
  else if (n =? 98)%N then Some (ascii_of_N 8)
  else if (n =? 102)%N then Some (ascii_of_N 12)
  else if (n =? 110)%N then Some (ascii_of_N 10)
  else if (n =? 114)%N then Some (ascii_of_N 13)
  else if (n =? 116)%N then Some (ascii_of_N 9)
  else None.

Definition cons_char (c : ascii) (o : option (string * string))
    : option (string * string) :=
  match o with
  | Some (s, r) => Some (String c s, r)
  | None => None
  end.

(** The characters of a string literal after its opening quote, up to
    and including the closing quote. *)
Fixpoint parse_chars (s : string) : option (string * string) :=
  match s with
  | EmptyString => None
  | String c r =>
      if (N_of_ascii c =? 34)%N then Some (EmptyString, r)
      else if (N_of_ascii c =? 92)%N then
        match r with
        | String "u" (String h1 (String h2 (String h3 (String h4 r')))) =>
            match hex4 h1 h2 h3 h4 with
            | Some c' => cons_char c' (parse_chars r')
            | None => None
            end
        | String e r' =>
            match simple_escape e with
            | Some c' => cons_char c' (parse_chars r')
            | None => None
            end
        | EmptyString => None
        end
      else if (N_of_ascii c <? 32)%N then None
      else cons_char c (parse_chars r)
  end.

(** The digits that follow the first one, read onto [acc]. *)
Fixpoint take_digits (s : string) (acc : N) : N * string :=
  match s with
  | String c r =>
      match digit_of c with
      | Some d => take_digits r (acc * 10 + d)%N
      | None => (acc, s)
      end
  | EmptyString => (acc, s)
  end.

(** An integer: a leading [0] is the whole integer part. *)
Definition parse_uint (s : string) : option (N * string) :=
  match s with
  | String c r =>
      match digit_of c with
      | Some 0%N => Some (0%N, r)
      | Some d => Some (take_digits r d)
      | None => None
      end
  | EmptyString => None
  end.

Definition parse_number (s : string) : option (json * string) :=
  match s with
  | String c r =>
      if (N_of_ascii c =? 45)%N then
        match parse_uint r with
        | Some (n, r') => Some (JNum (- Z.of_N n), r')
        | None => None
        end
      else
        match parse_uint s with
        | Some (n, r') => Some (JNum (Z.of_N n), r')
        | None => None
        end
  | EmptyString => None
  end.

Definition starts_with (k : N) (s : string) : bool :=
  match s with
  | String c _ => (N_of_ascii c =? k)%N
  | EmptyString => false
  end.

Definition tail (s : string) : string :=
  match s with
  | String _ s' => s'
  | EmptyString => EmptyString
  end.

Section Compound.
(** The parser of the elements, one unit of fuel less than the parser
    of the array or object that holds them. *)
Variable pv : string -> option (json * string).

(** After [[] and at least one element to come. *)
Fixpoint parse_elems (fuel : nat) (acc : list json) (s : string)
    : option (list json * string) :=
  match fuel with
  | O => None
  | S f =>
      match pv s with
      | Some (v, r) =>
          match skip_ws r with
          | String "," r' => parse_elems f (acc ++ [v]) r'
          | String "]" r' => Some (acc ++ [v], r')
          | _ => None
          end
      | None => None
      end
  end.

(** After [{] and at least one member to come; members are added with
    [obj_set]. *)
Fixpoint parse_members (fuel : nat) (acc : list (string * json)) (s : string)
    : option (list (string * json) * string) :=
  match fuel with
  | O => None
  | S f =>
      match skip_ws s with
      | String q r =>
          if (N_of_ascii q =? 34)%N then
            match parse_chars r with
            | Some (k, r1) =>
                match skip_ws r1 with
                | String ":" r2 =>
                    match pv r2 with
                    | Some (v, r3) =>
                        match skip_ws r3 with
                        | String "," r4 => parse_members f (obj_set k v acc) r4
                        | String "}" r4 => Some (obj_set k v acc, r4)
                        | _ => None
                        end
                    | None => None
                    end
                | _ => None
                end
            | None => None
            end
          else None
      | EmptyString => None
      end
  end.
End Compound.

(** One value after optional whitespace, dispatched on its first
    character. *)
Fixpoint parse (fuel : nat) (s : string) : option (json * string) :=
  match fuel with
  | O => None
  | S f =>
      match skip_ws s with
      | String c r =>
          let n := N_of_ascii c in
          if (n =? 110)%N then
            match r with
            | String "u" (String "l" (String "l" r')) => Some (JNull, r')
            | _ => None
            end
          else if (n =? 116)%N then
            match r with
            | String "r" (String "u" (String "e" r')) => Some (JBool true, r')
            | _ => None
            end
          else if (n =? 102)%N then
            match r with
            | String "a" (String "l" (String "s" (String "e" r'))) => Some (JBool false, r')
            | _ => None
            end
          else if (n =? 91)%N then
            let r := skip_ws r in
            if starts_with 93 r then Some (JArr [], tail r) else
            match parse_elems (parse f) f [] r with
            | Some (xs, r') => Some (JArr xs, r')
            | None => None
            end
          else if (n =? 123)%N then
            let r := skip_ws r in
            if starts_with 125 r then Some (JObj [], tail r) else
            match parse_members (parse f) f [] r with
            | Some (fs, r') => Some (JObj fs, r')
            | None => None
            end
          else if (n =? 34)%N then
            match parse_chars r with
            | Some (str, r') => Some (JStr str, r')
            | None => None
            end
          else parse_number (String c r)
      | EmptyString => None
      end
  end.

(** [JSON.parse]: one value and nothing but whitespace after it; [None]
    is the [SyntaxError]. *)
Definition JSON_parse (s : string) : option json :=
  match parse (S (String.length s)) s with
  | Some (v, r) => if String.eqb (skip_ws r) "" then Some v else None
  | None => None
  end.

(** ** Measures of the round trip *)

(** What may follow a printed value: not a digit, which a number would
    swallow. *)
Definition stop (r : string) : Prop :=
  match r with String c _ => digit_of c = None | EmptyString => True end.

(** The fuel a value needs: one unit per nesting level and per element. *)
Fixpoint jsize (j : json) : nat :=
  match j with
  | JArr xs => S (sum_list_with jsize xs + length xs)
  | JObj fs => S (sum_list_with (fun kv => jsize kv.2) fs + length fs)
  | _ => 1
  end.

(** [parse f] reads the printed [j] back in front of any [stop] rest. *)
Definition parses (f : nat) (j : json) : Prop :=
  forall r, stop r -> parse f (stringify j +:+ r) = Some (j, r).

(** * Lemmas *)

(** Goals [(N_of_ascii c =? k)%N = false] and [is_ws c = false] from the
    bounds on the code of [c] in the context. *)
Ltac code_neq :=
  unfold is_ws;
  repeat match goal with
  | |- context [(?a =? ?b)%N] => destruct (N.eqb_spec a b); [lia|]
  end; reflexivity.

Lemma parse_chars_escape c r :
  parse_chars (escape c +:+ r) = cons_char c (parse_chars r).
Proof. destruct c as [[] [] [] [] [] [] [] []]; reflexivity. Qed.

Lemma parse_chars_quote_body s r :
  parse_chars (quote_body s +:+ String quote_char r) = Some (s, r).
Proof.
  induction s as [|c s IH]; [reflexivity|].
  cbn [quote_body]. rewrite string_app_assoc, parse_chars_escape, IH. reflexivity.
Qed.

Lemma quote_app s r :
  quote s +:+ r = String quote_char (quote_body s +:+ String quote_char r).
Proof. unfold quote. rewrite string_app_cons, string_app_assoc. reflexivity. Qed.

Lemma pretty_N_go_app x s : pretty_N_go x s = pretty_N_go x "" +:+ s.
Proof.
  revert s. induction (N.lt_wf_0 x) as [x _ IH]; intros s.
  destruct (decide (x = 0%N)) as [->|Hx]; [reflexivity|].
  rewrite !(pretty_N_go_step x) by lia.
  assert (Hd : (x `div` 10 < x)%N) by (apply N.div_lt; lia).
  rewrite (IH _ Hd (String _ s)), (IH _ Hd (String _ "")).
  rewrite string_app_assoc. reflexivity.
Qed.

Lemma digit_of_pretty_char x : (x < 10)%N -> digit_of (pretty_N_char x) = Some x.
Proof.
  intros Hx.
  assert (x = 0 ∨ x = 1 ∨ x = 2 ∨ x = 3 ∨ x = 4 ∨ x = 5 ∨ x = 6 ∨ x = 7
          ∨ x = 8 ∨ x = 9)%N as H by lia.
  repeat destruct H as [->|H]; [reflexivity..|subst; reflexivity].
Qed.

Lemma digit_of_code c d :
  digit_of c = Some d -> (48 <= N_of_ascii c <= 57)%N /\ d = (N_of_ascii c - 48)%N.
Proof.
  unfold digit_of. destruct (N.leb_spec 48 (N_of_ascii c)), (N.leb_spec (N_of_ascii c) 57);
    simpl; intros; simplify_eq; lia.
Qed.

Lemma digits_val_app a b acc :
  digits_val (a +:+ b) acc =
  match digits_val a acc with Some v => digits_val b v | None => None end.
Proof.
  revert acc; induction a as [|c a IH]; intros acc; [reflexivity|].
  rewrite string_app_cons; simpl. destruct (digit_of c); auto.
Qed.

Lemma digits_val_pretty x : digits_val (pretty_N_go x "") 0 = Some x.
Proof.
  induction (N.lt_wf_0 x) as [x _ IH].
  destruct (decide (x = 0%N)) as [->|Hx]; [reflexivity|].
  assert (Hd : (x `div` 10 < x)%N) by (apply N.div_lt; lia).
  rewrite pretty_N_go_step, pretty_N_go_app, digits_val_app, IH by (done || lia).
  simpl. rewrite digit_of_pretty_char by (apply N.mod_lt; lia).
  f_equal. pose proof (N.div_mod x 10). lia.
Qed.

Lemma take_digits_app d s acc v :
  digits_val d acc = Some v -> take_digits (d +:+ s) acc = take_digits s v.
Proof.
  revert acc; induction d as [|c d IH]; intros acc Hd;
    [rewrite string_app_nil_l; simpl in Hd; congruence|].
  rewrite string_app_cons; simpl in Hd |- *. destruct (digit_of c); [auto|discriminate].
Qed.

Lemma take_digits_stop s acc : stop s -> take_digits s acc = (acc, s).
Proof. destruct s as [|c s]; simpl; [done|]. intros ->. done. Qed.

Lemma pretty_N_go_lead x : (0 < x)%N ->
  exists c t d, pretty_N_go x "" = String c t /\ digit_of c = Some d /\ d <> 0%N.
Proof.
  induction (N.lt_wf_0 x) as [x _ IH]; intros Hx.
  rewrite pretty_N_go_step, pretty_N_go_app by done.
  destruct (decide (x < 10)%N) as [Hs|Hs].
  - rewrite N.div_small by done. rewrite N.mod_small by done.
    rewrite pretty_N_go_0, string_app_nil_l.
    exists (pretty_N_char x), "", x. rewrite digit_of_pretty_char by done. auto with lia.
  - destruct (IH (x `div` 10)%N) as (c & t & d & -> & ? & ?).
    + apply N.div_lt; lia.
    + apply N.div_str_pos; lia.
    + exists c, (t +:+ String (pretty_N_char (x `mod` 10)) ""), d. auto.
Qed.

Lemma parse_uint_pretty (x : N) s : stop s -> parse_uint (pretty x +:+ s) = Some (x, s).
Proof.
  intros Hs. unfold pretty, pretty_N.
  destruct (decide (x = 0%N)) as [->|Hx]; [reflexivity|].
  destruct (pretty_N_go_lead x) as (c & t & d & Hp & Hc & Hd); [lia|].
  pose proof (digits_val_pretty x) as Hv. rewrite Hp in Hv |- *.
  rewrite string_app_cons. simpl in Hv |- *. rewrite Hc in Hv |- *.
  destruct d as [|p]; [done|].
  rewrite (take_digits_app _ _ _ _ Hv), take_digits_stop by done. reflexivity.
Qed.

Lemma pretty_pos_head (p : positive) :
  exists c t d, pretty (N.pos p) = String c t /\ digit_of c = Some d.
Proof.
  unfold pretty at 1, pretty_N. destruct (decide (N.pos p = 0%N)); [done|].
  destruct (pretty_N_go_lead (N.pos p)) as (c & t & d & -> & Hc & _); [lia|].
  eauto.
Qed.

Lemma parse_number_pretty z s : stop s -> parse_number (pretty z +:+ s) = Some (JNum z, s).
Proof.
  intros Hs. destruct z as [|p|p].
  - reflexivity.
  - change (pretty (Z.pos p)) with (pretty (N.pos p)).
    destruct (pretty_pos_head p) as (c & t & d & Hp & Hc).
    pose proof (parse_uint_pretty (N.pos p) s Hs) as Hu.
    rewrite Hp, string_app_cons in Hu |- *. unfold parse_number.
    apply digit_of_code in Hc. destruct (N.eqb_spec (N_of_ascii c) 45); [lia|].
    rewrite Hu. reflexivity.
  - change (pretty (Z.neg p)) with ("-" +:+ pretty (N.pos p)).
    rewrite string_app_assoc, string_app_cons, string_app_nil_l. simpl.
    rewrite parse_uint_pretty by done. reflexivity.
Qed.

(** The first character of a printed value: not whitespace and not a
    closing bracket. *)
Lemma stringify_head j : exists c t, stringify j = String c t /\
  is_ws c = false /\ (N_of_ascii c =? 93)%N = false.
Proof.
  destruct j as [| [] | [|p|p] | s | xs | fs];
    try (eexists _, _; split; [reflexivity|]; split; reflexivity).
  destruct (pretty_pos_head p) as (c & t & d & Hp & Hc).
  exists c, t. split; [exact Hp|]. apply digit_of_code in Hc. split; code_neq.
Qed.

Lemma skip_ws_stringify j r : skip_ws (stringify j +:+ r) = stringify j +:+ r.
Proof.
  destruct (stringify_head j) as (c & t & -> & Hws & _).
  rewrite string_app_cons. simpl. rewrite Hws. reflexivity.
Qed.

Lemma parse_elems_join f xs : forall x acc g r,
  Forall (parses f) (x :: xs) -> length xs < g ->
  parse_elems (parse f) g acc (stringify x +:+ join_rest stringify "]" xs +:+ r)
  = Some (acc ++ x :: xs, r).
Proof.
  induction xs as [|y xs IH]; intros x acc [|g] r Hp Hg; simpl in Hg; try lia;
    apply Forall_cons in Hp as [Hx Hxs]; simpl.
  - rewrite Hx by reflexivity. reflexivity.
  - rewrite string_app_cons, string_app_assoc, Hx by reflexivity. simpl.
    rewrite IH by (done || lia). rewrite <- app_assoc. reflexivity.
Qed.

Lemma canonical_app_l l1 l2 : canonical (l1 ++ l2) = true -> canonical l1 = true.
Proof.
  induction l1 as [|k l1 IH]; simpl; [done|].
  rewrite forallb_app. intros [[? _]%andb_prop ?]%andb_prop. rewrite IH; [|done].
  rewrite andb_true_r. done.
Qed.

Lemma obj_set_snoc acc k v :
  canonical (map fst acc ++ [k]) = true -> obj_set k v acc = acc ++ [(k, v)].
Proof.
  intros H. unfold obj_set.
  assert (existsb (fun kv => String.eqb kv.1 k) acc = false
          /\ obj_insert k v acc = acc ++ [(k, v)]) as [-> ->]; [|done].
  induction acc as [|[k' v'] acc IH]; [done|].
  simpl in H |- *. apply andb_prop in H as [Hall Hc].
  rewrite forallb_app in Hall. simpl in Hall.
  apply andb_prop in Hall as [_ Hk]. destruct (IH Hc) as [-> ->].
  destruct (String.eqb k' k), (key_before k k'); simpl in Hk; try discriminate. auto.
Qed.

Lemma parse_members_join f fs : forall k v acc g r,
  Forall (fun kv => parses f kv.2) ((k, v) :: fs) -> length fs < g ->
  canonical (map fst (acc ++ (k, v) :: fs)) = true ->
  parse_members (parse f) g acc
    (quote k +:+ String ":" (stringify v) +:+
     join_rest (fun kv => quote kv.1 +:+ String ":" (stringify kv.2)) "}" fs +:+ r)
  = Some (acc ++ (k, v) :: fs, r).
Proof.
  induction fs as [|[k' v'] fs IH]; intros k v acc [|g] r Hp Hg Hc; simpl in Hg; try lia;
    apply Forall_cons in Hp as [Hv Hfs]; rewrite quote_app; simpl;
    rewrite parse_chars_quote_body; simpl.
  - rewrite Hv by reflexivity. simpl.
    rewrite obj_set_snoc; [done|]. rewrite map_app in Hc. exact Hc.
  - rewrite string_app_cons, string_app_assoc, Hv by reflexivity. simpl.
    rewrite obj_set_snoc.
    + rewrite string_app_assoc, IH; [rewrite <- app_assoc; reflexivity|done|lia|].
      rewrite <- app_assoc. exact Hc.
    + rewrite map_app in Hc. simpl in Hc.
      apply (canonical_app_l _ (k' :: map fst fs)). rewrite <- app_assoc. exact Hc.
Qed.

Lemma Forall_parses f xs :
  Forall (fun x => wf x = true -> forall f, jsize x < f -> parses f x) xs ->
  forallb wf xs = true -> sum_list_with jsize xs < f -> Forall (parses f) xs.
Proof.
  rewrite !Forall_forall, forallb_forall. intros IH Hwf Hf x Hx.
  pose proof Hx as Hin. apply list_elem_of_In in Hin.
  apply (IH x Hx (Hwf x Hin)). pose proof (sum_list_with_In jsize x xs Hin). lia.
Qed.

Lemma parse_stringify_fuel j : wf j = true -> forall f, jsize j < f -> parses f j.
Proof.
  induction j as [| b | n | s | xs IH | fs IH] using json_ind';
    intros Hwf [|f] Hf r Hr; simpl in Hf; try lia.
  - reflexivity.
  - destruct b; reflexivity.
  - rewrite <- (parse_number_pretty n r Hr). destruct n as [|p|p]; [reflexivity| |reflexivity].
    destruct (pretty_pos_head p) as (c & t & d & Hp & Hc).
    change (stringify (JNum (Z.pos p))) with (pretty (N.pos p)).
    change (pretty (Z.pos p)) with (pretty (N.pos p)).
    rewrite Hp, string_app_cons. apply digit_of_code in Hc.
    simpl. replace (is_ws c) with false by (symmetry; code_neq).
    repeat match goal with
    | |- context [(N_of_ascii c =? ?b)%N] => destruct (N.eqb_spec (N_of_ascii c) b); [lia|]
    end. reflexivity.
  - cbn [stringify]. rewrite quote_app. simpl. rewrite parse_chars_quote_body. reflexivity.
  - destruct xs as [|x xs]; [reflexivity|].
    cbn [stringify join]. rewrite string_app_cons, string_app_assoc. simpl.
    rewrite skip_ws_stringify.
    destruct (stringify_head x) as (c & t & Hx & _ & H93).
    replace (starts_with 93 (stringify x +:+ join_rest stringify "]" xs +:+ r)) with false
      by (rewrite Hx; simpl; rewrite H93; reflexivity).
    simpl in Hwf. cbn [length] in Hf. rewrite parse_elems_join; [reflexivity| |lia].
    apply (Forall_parses f (x :: xs)); [done|exact Hwf|lia].
  - destruct fs as [|[k v] fs]; [reflexivity|].
    cbn [stringify join fst snd]. rewrite string_app_cons, !string_app_assoc. simpl.
    rewrite string_app_assoc, string_app_cons, string_app_nil_l, <- quote_app.
    simpl in Hwf. apply andb_prop in Hwf as [Hc Hwf].
    cbn [length] in Hf. rewrite (parse_members_join f fs k v []); [reflexivity| |lia|exact Hc].
    rewrite Forall_forall in IH |- *. intros [k' v'] Hkv.
    pose proof Hkv as Hin. apply list_elem_of_In in Hin.
    apply (IH _ Hkv).
    + change (forallb (fun kv => wf kv.2) ((k, v) :: fs) = true) in Hwf.
      rewrite forallb_forall in Hwf. apply (Hwf _ Hin).
    + pose proof (sum_list_with_In (fun kv => jsize kv.2) _ _ Hin). simpl in *. lia.
Qed.

Lemma join_rest_length {A} (pr : A -> string) close xs :
  String.length (join_rest pr close xs)
  = sum_list_with (fun x => S (String.length (pr x))) xs + String.length close.
Proof. induction xs as [|x xs IH]; simpl; rewrite ?string_length_app; lia. Qed.

Lemma stringify_length_pos j : 1 <= String.length (stringify j).
Proof. destruct (stringify_head j) as (c & t & -> & _). simpl. lia. Qed.

Lemma jsize_length j : jsize j <= String.length (stringify j).
Proof.
  induction j as [| b | n | s | xs IH | fs IH] using json_ind';
    try apply (stringify_length_pos (JNum n)); try apply stringify_length_pos.
  - destruct xs as [|x xs]; [simpl; lia|]. apply Forall_cons in IH as [Hx Hxs].
    cbn [stringify join jsize String.length sum_list_with].
    rewrite string_length_app, join_rest_length, sum_list_with_S. simpl.
    pose proof (sum_list_with_mono jsize (fun x => String.length (stringify x)) xs Hxs).
    lia.
  - destruct fs as [|[k v] fs]; [simpl; lia|]. apply Forall_cons in IH as [Hv Hfs].
    cbn [stringify join jsize String.length sum_list_with fst snd].
    rewrite !string_length_app, join_rest_length, sum_list_with_S. cbv beta. cbn [String.length].
    assert (Hm : sum_list_with (fun kv => jsize kv.2) fs <=
      sum_list_with (fun kv => String.length (quote kv.1 +:+ String ":" (stringify kv.2))) fs).
    { apply sum_list_with_mono. eapply Forall_impl; [exact Hfs|]. intros [k' v'] H.
      simpl in *. rewrite string_length_app. simpl. lia. }
    simpl in Hv. cbn [length]. lia.
Qed.

(** [JSON.parse(JSON.stringify(v))] gives [v] back for every value
    JavaScript can build (objects with distinct keys in [Object.keys]
    order). *)
Theorem JSON_parse_stringify j : wf j = true -> JSON_parse (stringify j) = Some j.
Proof.
  intros Hwf. unfold JSON_parse.
  pose proof (jsize_length j).
  pose proof (parse_stringify_fuel j Hwf (S (String.length (stringify j))) ltac:(lia) ""
                I) as Hp.
  rewrite string_app_nil_r in Hp. rewrite Hp. reflexivity.
Qed.

(** ** Every parsed value is well formed *)

Section ParseWf.
Variable pv : string -> option (json * string).
Hypothesis Hpv : forall s v r, pv s = Some (v, r) -> wf v = true.

Lemma parse_elems_wf g : forall acc s xs r,
  forallb wf acc = true -> parse_elems pv g acc s = Some (xs, r) -> forallb wf xs = true.
Proof.
  induction g as [|g IH]; intros acc s xs r Hacc; simpl; [discriminate|].
  destruct (pv s) as [[v r']|] eqn:E; [|discriminate]. apply Hpv in E.
  assert (forallb wf (acc ++ [v]) = true)
    by (rewrite forallb_app; simpl; rewrite Hacc, E; done).
  repeat case_match; intros; simplify_eq; eauto.
Qed.

Lemma parse_members_wf g : forall acc s fs r,
  wf (JObj acc) = true -> parse_members pv g acc s = Some (fs, r) -> wf (JObj fs) = true.
Proof.
  induction g as [|g IH]; intros acc s fs r Hacc; simpl; [discriminate|].
  repeat case_match; intros; simplify_eq;
    eauto using wf_obj_set.
Qed.
End ParseWf.

(** Every value [JSON.parse] returns is well formed. *)
Lemma parse_wf f : forall s v r, parse f s = Some (v, r) -> wf v = true.
Proof.
  induction f as [|f IH]; intros s v r; simpl; [discriminate|].
  repeat case_match; intros; simplify_eq; try reflexivity;
    first [ by eapply (parse_elems_wf (parse f) IH _ [])
          | by eapply (parse_members_wf (parse f) IH _ []) ].
Qed.

Lemma JSON_parse_wf s v : JSON_parse s = Some v -> wf v = true.
Proof.
  unfold JSON_parse. destruct (parse _ s) as [[v' r]|] eqn:E; [|discriminate].
  destruct (String.eqb _ _); intros; simplify_eq. eauto using parse_wf.
Qed.

(** ** The parser consumes its input

    Every successful parse leaves a strictly shorter rest: the measure
    that bounds the fuel [JSON_parse] needs. *)

Lemma skip_ws_length s : String.length (skip_ws s) <= String.length s.
Proof. induction s as [|c s IH]; simpl; [lia|]. destruct (is_ws c); simpl; lia. Qed.

Lemma take_digits_length s acc : String.length (take_digits s acc).2 <= String.length s.
Proof.
  revert acc. induction s as [|c s IH]; intros acc; simpl; [lia|].
  destruct (digit_of c); simpl; [specialize (IH (acc * 10 + n)%N)|]; lia.
Qed.

Lemma parse_chars_length n : forall s v r,
  String.length s <= n -> parse_chars s = Some (v, r) -> String.length r < String.length s.
Proof.
  induction n as [|n IH]; intros [|c s] v r Hn; simpl in *; try lia; try discriminate.
  unfold cons_char. repeat case_match; intros; simplify_eq; simpl in *; try lia;
    match goal with
    | H : parse_chars ?t = Some _ |- _ => apply IH in H; simpl in *; lia
    end.
Qed.

Lemma parse_uint_length s n r : parse_uint s = Some (n, r) -> String.length r < String.length s.
Proof.
  destruct s as [|c s]; simpl; [discriminate|].
  destruct (digit_of c) as [[|p]|]; intros H; [injection H as <- <-; simpl; lia| |discriminate].
  pose proof (take_digits_length s (N.pos p)) as Hl.
  destruct (take_digits s (N.pos p)); injection H as <- <-; simpl in *; lia.
Qed.

Lemma parse_number_length s v r :
  parse_number s = Some (v, r) -> String.length r < String.length s.
Proof.
  destruct s as [|c s]; unfold parse_number; [discriminate|].
  destruct (N_of_ascii c =? 45)%N;
    [destruct (parse_uint s) as [[n r']|] eqn:E | destruct (parse_uint (String c s)) as [[n r']|] eqn:E];
    intros H; simplify_eq; apply parse_uint_length in E; simpl in *; lia.
Qed.

Lemma parse_chars_shorter s v r :
  parse_chars s = Some (v, r) -> String.length r < String.length s.
Proof. apply (parse_chars_length (String.length s)). lia. Qed.

Section ParseLength.
Variable pv : string -> option (json * string).
Hypothesis pv_len : forall s v r, pv s = Some (v, r) -> String.length r < String.length s.

Lemma parse_elems_length g : forall acc s xs r,
  parse_elems pv g acc s = Some (xs, r) -> String.length r < String.length s.
Proof.
  induction g as [|g IH]; intros acc s xs r; simpl; [discriminate|].
  destruct (pv s) as [[v r1]|] eqn:E; [|discriminate]. apply pv_len in E.
  pose proof (skip_ws_length r1) as L. destruct (skip_ws r1) as [|c r2]; [discriminate|].
  simpl in L. repeat case_match; intros; simplify_eq; try lia.
  match goal with H : parse_elems _ _ _ _ = _ |- _ => apply IH in H end. lia.
Qed.

Lemma parse_members_length g : forall acc s fs r,
  parse_members pv g acc s = Some (fs, r) -> String.length r < String.length s.
Proof.
  induction g as [|g IH]; intros acc s fs r; simpl; [discriminate|].
  pose proof (skip_ws_length s) as L0. destruct (skip_ws s) as [|q r0]; [discriminate|].
  simpl in L0. destruct (N_of_ascii q =? 34)%N; [|discriminate].
  destruct (parse_chars r0) as [[k r1]|] eqn:E1; [|discriminate]. apply parse_chars_shorter in E1.
  pose proof (skip_ws_length r1) as L1. destruct (skip_ws r1) as [|c r2]; [discriminate|].
  simpl in L1. repeat case_match; intros; simplify_eq; try discriminate;
    repeat match goal with
    | H : pv _ = Some _ |- _ => apply pv_len in H
    | H : skip_ws ?t = String _ _ |- _ =>
        let L := fresh in pose proof (skip_ws_length t) as L; rewrite H in L; simpl in L; clear H
    | H : parse_members _ _ _ _ = _ |- _ => apply IH in H
    end; lia.
Qed.
End ParseLength.

Lemma parse_length f : forall s v r,
  parse f s = Some (v, r) -> String.length r < String.length s.
Proof.
  induction f as [|f IH]; intros s v r; simpl; [discriminate|].
  pose proof (skip_ws_length s) as L0. destruct (skip_ws s) as [|c r0]; [discriminate|].
  simpl in L0. pose proof (skip_ws_length r0) as L1.
  repeat case_match; intros; simplify_eq; simpl in *; try lia;
    repeat match goal with
    | H : parse_elems _ _ _ _ = Some _ |- _ => apply (parse_elems_length _ IH) in H
    | H : parse_members _ _ _ _ = Some _ |- _ => apply (parse_members_length _ IH) in H
    | H : parse_chars _ = Some _ |- _ => apply parse_chars_shorter in H
    | H : parse_number _ = Some _ |- _ => apply parse_number_length in H
    | H : parse_uint _ = Some _ |- _ => apply parse_uint_length in H
    | H : take_digits ?t ?a = _ |- _ =>
        let L := fresh in pose proof (take_digits_length t a) as L; rewrite H in L; clear H
    | H : starts_with _ ?t = true |- _ => destruct t; simpl in *; [discriminate|clear H]
    end; simpl in *; lia.
Qed.

(** ** The fuel of [JSON_parse] is enough *)

(** Two element parsers that agree on every rest of [s] give the same
    result on [s], with any fuel above the length of [s]. *)
Lemma parse_elems_fuel pv pv' :
  (forall s v r, pv s = Some (v, r) -> String.length r < String.length s) ->
  forall F G acc s,
  (forall t, String.length t <= String.length s -> pv' t = pv t) ->
  String.length s < F -> F <= G -> parse_elems pv' G acc s = parse_elems pv F acc s.
Proof.
  intros Hlen. induction F as [|F IH]; intros G acc s Hag HF HG; [lia|].
  destruct G as [|G]; [lia|]. simpl. rewrite (Hag s) by lia.
  destruct (pv s) as [[v r]|] eqn:E; [|reflexivity]. apply Hlen in E.
  pose proof (skip_ws_length r) as L. destruct (skip_ws r) as [|c r']; [reflexivity|].
  simpl in L. rewrite (IH G) by first [lia | intros t Ht; apply Hag; lia]. reflexivity.
Qed.

Lemma parse_members_fuel pv pv' :
  (forall s v r, pv s = Some (v, r) -> String.length r < String.length s) ->
  forall F G acc s,
  (forall t, String.length t <= String.length s -> pv' t = pv t) ->
  String.length s < F -> F <= G -> parse_members pv' G acc s = parse_members pv F acc s.
Proof.
  intros Hlen. induction F as [|F IH]; intros G acc s Hag HF HG; [lia|].
  destruct G as [|G]; [lia|]. simpl.
  pose proof (skip_ws_length s) as L0. destruct (skip_ws s) as [|q r0]; [reflexivity|].
  simpl in L0. destruct (N_of_ascii q =? 34)%N; [|reflexivity].
  destruct (parse_chars r0) as [[k r1]|] eqn:E1; [|reflexivity]. apply parse_chars_shorter in E1.
  pose proof (skip_ws_length r1) as L1. destruct (skip_ws r1) as [|c r2]; [reflexivity|].
  simpl in L1. rewrite (Hag r2) by lia.
  destruct (pv r2) as [[v r3]|] eqn:E3; [|reflexivity]. apply Hlen in E3.
  pose proof (skip_ws_length r3) as L3. destruct (skip_ws r3) as [|d r4]; [reflexivity|].
  simpl in L3. rewrite (IH G) by first [lia | intros t Ht; apply Hag; lia]. reflexivity.
Qed.

(** The parser terminates within the fuel [JSON_parse] gives it: once
    the fuel exceeds the length of the text, more fuel changes nothing. *)
Lemma parse_fuel_stable n : forall s m,
  String.length s < n -> n <= m -> parse m s = parse n s.
Proof.
  induction n as [|f IH]; intros s m Hs Hm; [lia|]. destruct m as [|g]; [lia|].
  simpl. pose proof (skip_ws_length s) as L0.
  destruct (skip_ws s) as [|c r]; [reflexivity|]. simpl in L0.
  pose proof (skip_ws_length r) as L1.
  rewrite (parse_elems_fuel (parse f) (parse g) (parse_length f) f g [] (skip_ws r)),
    (parse_members_fuel (parse f) (parse g) (parse_length f) f g [] (skip_ws r))
    by first [lia | intros t Ht; apply IH; lia].
  reflexivity.
Qed.
