(* ===== verification/ApiClient.v ===== *)
(** * ApiClient: the request interceptor of src/api/apiClient.ts

    Every request through [ApiClient] runs the interceptor registered in
    its constructor, which reads [localStorage['user']] at call time,
    parses it, and adds [Authorization: Bearer <token>] when the stored
    value has a truthy [token] ([authHeader]).  A parse failure is caught
    and logged; the request goes out without the header.

    [localStorage] is the browser's string store, shared by this
    interceptor and the auth store: [LocalStorage.t] is a finite map from
    keys to strings with [getItem], [setItem] and [removeItem].

    The request pipeline of the instance is modelled too: the config
    [axios.create] gives every request, the config each method builds
    ([build], [get], [post], [put], [delete]), the request interceptors in
    the order axios runs them ([dispatch]); the logging interceptors return
    what they get.  [get/post/put/delete] resolve with [response.data] or
    reject, which is the outcome [http] of [Domain]. *)

From stdpp Require Import base list strings gmap.
From Stdlib Require Import ZArith.
From S2P Require Import Prelude Json JsonCodec.

Module LocalStorage.

Abbreviation t := (gmap string string).

Definition empty : t := ∅.
(** The key the session is stored under. *)
Definition user_key : string := "user".
Definition getItem (k : string) (ls : t) : option string := ls !! k.
Definition setItem (k v : string) (ls : t) : t := <[k := v]> ls.
Definition removeItem (k : string) (ls : t) : t := delete k ls.

End LocalStorage.

Module ApiClient.

(** The [Authorization] header the interceptor adds, if any. *)
Definition authHeader (ls : LocalStorage.t) : option string :=
  match LocalStorage.getItem LocalStorage.user_key ls with
  | Some userJson =>
      if truthy userJson then
        match JSON_parse userJson with
        | Some user =>
            if truthy user then
              match truthy_val (get user "token") with
              | Some token => Some ("Bearer " +:+ to_js_string token)
              | None => None
              end
            else None
        | None => None
        end
      else None
  | None => None
  end.

(** ** The request pipeline

    [axios.create] in the constructor gives every request the base URL,
    the header [Content-Type: application/json] and a 10 s timeout (data
    of the request: the event loop has no clock, see [Async]); the
    method ([get], [post], [put], [delete]) adds its verb, URL and
    parameters or body.  Before the request leaves, axios runs the request
    interceptors, the one registered last first: here the [Authorization]
    interceptor, then the logging one, which returns the config it got.
    The response interceptor only logs and passes the response or the
    rejection on, and so do the methods' [catch] blocks after
    [handleError] (which only logs): the outcome of a call is [http]. *)

Inductive method := GET | POST | PUT | DELETE.

(** [import.meta.env.VITE_API_BASE_URL || 'http://localhost:5151/api']. *)
Definition default_baseURL : string := "http://localhost:5151/api".
Definition baseURL (vite_api_base_url : option string) : string :=
  match vite_api_base_url with
  | Some u => if truthy u then u else default_baseURL
  | None => default_baseURL
  end.

(** The request config an interceptor receives, with a body of type [D]. *)
Record request (D : Type) := mkRequest {
  r_method : method;
  r_baseURL : string;
  r_url : string;
  r_params : list (string * Z);
  r_data : option D;
  r_headers : list (string * string);
  r_timeout : Z
}.
Arguments mkRequest {D}.
Arguments r_method {D}. Arguments r_baseURL {D}. Arguments r_url {D}.
Arguments r_params {D}. Arguments r_data {D}. Arguments r_headers {D}.
Arguments r_timeout {D}.

(** [headers[k]] and [headers[k] = v]: an existing header is replaced in
    place, a new one is added last. *)
Fixpoint header (k : string) (hs : list (string * string)) : option string :=
  match hs with
  | [] => None
  | (k', v) :: hs' => if String.eqb k k' then Some v else header k hs'
  end.

Fixpoint set_header (k v : string) (hs : list (string * string)) : list (string * string) :=
  match hs with
  | [] => [(k, v)]
  | (k', v') :: hs' => if String.eqb k k' then (k, v) :: hs' else (k', v') :: set_header k v hs'
  end.

Definition with_headers {D} (hs : list (string * string)) (r : request D) : request D :=
  mkRequest (r_method r) (r_baseURL r) (r_url r) (r_params r) (r_data r) hs (r_timeout r).

(** The config of [this.client.<method>(url, ...)] on the instance of
    [axios.create]. *)
Definition build {D} (env : option string) (m : method) (url : string)
    (params : list (string * Z)) (data : option D) : request D :=
  mkRequest m (baseURL env) url params data [("Content-Type", "application/json")] 10000.

Definition get {D} env url (params : list (string * Z)) : request D := build env GET url params None.
Definition post {D} env url (data : D) : request D := build env POST url [] (Some data).
Definition put {D} env url (data : D) : request D := build env PUT url [] (Some data).
Definition delete {D} env url : request D := build env DELETE url [] None.

(** The request interceptors, in the order the constructor registers
    them. *)
Definition log_request {D} (r : request D) : request D := r.

Definition auth_interceptor {D} (ls : LocalStorage.t) (r : request D) : request D :=
  match authHeader ls with
  | Some h => with_headers (set_header "Authorization" h (r_headers r)) r
  | None => r
  end.

Definition request_interceptors {D} (ls : LocalStorage.t) : list (request D -> request D) :=
  [log_request; auth_interceptor ls].

(** What leaves the page: axios runs the request interceptors the last
    registered first, reading [localStorage] when the request is sent. *)
Definition dispatch {D} (ls : LocalStorage.t) (r : request D) : request D :=
  fold_left (fun r f => f r) (rev (request_interceptors ls)) r.

End ApiClient.

(** * Lemmas *)

Import ApiClient.

Lemma header_set_header_eq k v hs : header k (set_header k v hs) = Some v.
Proof.
  induction hs as [|[k' v'] hs IH]; simpl; [by rewrite String.eqb_refl|].
  destruct (String.eqb k k') eqn:E; simpl; [by rewrite String.eqb_refl|by rewrite E].
Qed.

Lemma header_set_header_ne k k0 v hs :
  k0 <> k -> header k0 (set_header k v hs) = header k0 hs.
Proof.
  intros Hne. induction hs as [|[k' v'] hs IH]; simpl.
  - apply String.eqb_neq in Hne. by rewrite Hne.
  - destruct (String.eqb k k') eqn:E; simpl.
    + apply String.eqb_eq in E as ->. apply String.eqb_neq in Hne. by rewrite Hne.
    + by rewrite IH.
Qed.

(** What leaves [ApiClient] after its interceptors (in axios's order,
    reading [localStorage] at that moment): the method, URL, parameters,
    body and JSON content type of the request, and the [Authorization]
    header [authHeader] computes. *)
Lemma dispatch_build {D} env (ls : LocalStorage.t) m url params (data : option D) :
  header "Authorization" (r_headers (dispatch ls (build env m url params data))) = authHeader ls /\
  header "Content-Type" (r_headers (dispatch ls (build env m url params data)))
    = Some "application/json" /\
  r_method (dispatch ls (build env m url params data)) = m /\
  r_url (dispatch ls (build env m url params data)) = url /\
  r_params (dispatch ls (build env m url params data)) = params /\
  r_data (dispatch ls (build env m url params data)) = data.
Proof.
  unfold dispatch, request_interceptors, auth_interceptor, log_request; cbn [rev app fold_left].
  destruct (authHeader ls) as [h|]; cbn [r_headers with_headers build r_method r_url r_params r_data];
    [rewrite header_set_header_eq, header_set_header_ne by discriminate|]; split_and!; reflexivity.
Qed.
