(* ===== verification/EventService.v ===== *)
(** * EventService: src/api/eventService.ts

    The service is stateless: each method turns the outcome of one
    [ApiClient] call into a value and never rejects.  A list method returns
    [response] when [Array.isArray(response)] and [[]] otherwise, and its
    [catch] returns [[]] as well; [getEventById] returns [null] on failure;
    [addComment] returns whether the POST succeeded.  [call] names the
    requests the event store issues, with the endpoint and query
    parameters each one uses; [reply] is the outcome each one waits for.
    Logging ([logRequest], [console.error]) is not modelled. *)

From stdpp Require Import base list strings.
From Stdlib Require Import ZArith.
From S2P Require Import Prelude Domain.

Module EventService.

Definition EVENTS : string := "EventApi".
Definition COUNTRIES : string := "CountryApi".
Definition CITIES : string := "CityApi".
Definition EVENT_TYPES : string := "EventTypeApi".
Definition DRESSCODES : string := "DresscodeApi".

(** [Array.isArray(response) ? response : []] inside [try], [[]] in [catch]. *)
Definition array_or_empty {A} (r : http (body A)) : list A :=
  match r with
  | Ok (Arr xs) => xs
  | Ok NotArr => []
  | Fail _ _ => []
  end.

Definition getAllEvents (r : http (body Event.t)) : list Event.t := array_or_empty r.
Definition getCountries (r : http (body Country.t)) : list Country.t := array_or_empty r.
Definition getCities (r : http (body City.t)) : list City.t := array_or_empty r.
Definition getEventTypes (r : http (body EventType.t)) : list EventType.t :=
  array_or_empty r.
Definition getDresscodes (r : http (body Dresscode.t)) : list Dresscode.t :=
  array_or_empty r.

Definition getEventById (r : http Event.t) : option Event.t :=
  match r with Ok e => Some e | Fail _ _ => None end.

Definition addComment (r : http unit) : bool :=
  match r with Ok _ => true | Fail _ _ => false end.

(** The requests of the event store: [getCountries()], [getCities(id)] and
    [getAllEvents({})] (the store always passes empty filters). *)
Inductive call :=
| GetCountries
| GetCities (countryId : Z)
| GetAllEvents.

Definition endpoint (c : call) : string * list (string * Z) :=
  match c with
  | GetCountries => (COUNTRIES, [])
  | GetCities countryId => (CITIES, [("countryId"%string, countryId)])
  | GetAllEvents => (EVENTS, [])
  end.

Definition reply (c : call) : Type :=
  match c with
  | GetCountries => http (body Country.t)
  | GetCities _ => http (body City.t)
  | GetAllEvents => http (body Event.t)
  end.

End EventService.

(** ** Lemmas *)

Lemma array_or_empty_ok {A} (xs : list A) :
  EventService.array_or_empty (Ok (Arr xs)) = xs.
Proof. reflexivity. Qed.

(** A failed call yields the same value as an empty response: the service
    leaves its callers no way to tell the two apart. *)
Lemma array_or_empty_fail {A} st msg :
  EventService.array_or_empty (Fail st msg : http (body A)) =
  EventService.array_or_empty (Ok (Arr [])).
Proof. reflexivity. Qed.
