(* ===== verification/EventStore.v ===== *)
(** * EventStore: src/stores/eventStore.ts

    The Pinia store ['events'].  [state] is the record returned by
    [state: () => ({...})]; each action is a program of the [Async] monad
    over that state, issuing the [EventService.call]s the source awaits;
    each getter is a function of the state.  The helpers [startLoading] and
    [stopLoading] arm and cancel the 30-second loading guard with
    [setTimeout]/[clearTimeout]; the guard's callback is [timeout_cb].

    The [catch] blocks of the actions are not reachable: the service
    methods never reject (see [EventService]) and the other statements of
    the [try] blocks cannot throw, so each action is its [try] block
    followed by its [finally] block.  [console.*] logging and the unused
    [message] argument of [startLoading] are left out. *)

From stdpp Require Import base list strings.
From Stdlib Require Import ZArith.
From S2P Require Import Prelude Async Domain EventService.

Module EventStore.

Import EventService.

Record state := mkState {
  events : list Event.t;
  countries : list Country.t;
  cities : list City.t;
  selectedCountryId : option Z;
  selectedCityId : option Z;
  loading : bool;
  error : option string;
  initialized : bool;
  loadingTimeout : option nat
}.

Definition initial_state : state :=
  {| events := []; countries := []; cities := [];
     selectedCountryId := None; selectedCityId := None;
     loading := false; error := None; initialized := false;
     loadingTimeout := None |}.

(** [this.f = v], one setter per field. *)
Definition set_events v s :=
  {| events := v; countries := countries s; cities := cities s;
     selectedCountryId := selectedCountryId s; selectedCityId := selectedCityId s;
     loading := loading s; error := error s; initialized := initialized s;
     loadingTimeout := loadingTimeout s |}.
Definition set_countries v s :=
  {| events := events s; countries := v; cities := cities s;
     selectedCountryId := selectedCountryId s; selectedCityId := selectedCityId s;
     loading := loading s; error := error s; initialized := initialized s;
     loadingTimeout := loadingTimeout s |}.
Definition set_cities v s :=
  {| events := events s; countries := countries s; cities := v;
     selectedCountryId := selectedCountryId s; selectedCityId := selectedCityId s;
     loading := loading s; error := error s; initialized := initialized s;
     loadingTimeout := loadingTimeout s |}.
Definition set_selectedCountryId v s :=
  {| events := events s; countries := countries s; cities := cities s;
     selectedCountryId := v; selectedCityId := selectedCityId s;
     loading := loading s; error := error s; initialized := initialized s;
     loadingTimeout := loadingTimeout s |}.
Definition set_selectedCityId v s :=
  {| events := events s; countries := countries s; cities := cities s;
     selectedCountryId := selectedCountryId s; selectedCityId := v;
     loading := loading s; error := error s; initialized := initialized s;
     loadingTimeout := loadingTimeout s |}.
Definition set_loading v s :=
  {| events := events s; countries := countries s; cities := cities s;
     selectedCountryId := selectedCountryId s; selectedCityId := selectedCityId s;
     loading := v; error := error s; initialized := initialized s;
     loadingTimeout := loadingTimeout s |}.
Definition set_error v s :=
  {| events := events s; countries := countries s; cities := cities s;
     selectedCountryId := selectedCountryId s; selectedCityId := selectedCityId s;
     loading := loading s; error := v; initialized := initialized s;
     loadingTimeout := loadingTimeout s |}.
Definition set_initialized v s :=
  {| events := events s; countries := countries s; cities := cities s;
     selectedCountryId := selectedCountryId s; selectedCityId := selectedCityId s;
     loading := loading s; error := error s; initialized := v;
     loadingTimeout := loadingTimeout s |}.
Definition set_loadingTimeout v s :=
  {| events := events s; countries := countries s; cities := cities s;
     selectedCountryId := selectedCountryId s; selectedCityId := selectedCityId s;
     loading := loading s; error := error s; initialized := initialized s;
     loadingTimeout := v |}.

(** The error messages of the store. *)
Definition msg_no_countries : string := "No countries available".
Definition msg_no_cities : string := "No cities available for the selected country".
Definition msg_select_city : string := "Please select a city to view events".
Definition msg_no_events : string := "No events found".
Definition msg_timeout : string := "Request timed out. Please try again.".

(** The programs of this store. *)
Abbreviation P := (@prog state call reply).

(** ** Loading guard *)

(** The callback given to [setTimeout] in [startLoading]. *)
Definition timeout_cb (s : state) : state :=
  if loading s then set_error (Some msg_timeout) (set_loading false s) else s.

Definition startLoading : P unit :=
  modify (set_loading true) ;;
  modify (set_error None) ;;
  s ← get;
  (match loadingTimeout s with
   | Some t => if truthy t then clearTimeout t else mret tt
   | None => mret tt
   end) ;;
  t ← setTimeout timeout_cb;
  modify (set_loadingTimeout (Some t)).

Definition stopLoading : P unit :=
  modify (set_loading false) ;;
  s ← get;
  match loadingTimeout s with
  | Some t =>
      if truthy t then clearTimeout t ;; modify (set_loadingTimeout None)
      else mret tt
  | None => mret tt
  end.

(** ** Actions *)

Definition loadEvents : P unit :=
  s ← get;
  if negb (truthy (selectedCityId s)) then
    modify (set_events []) ;;
    modify (set_error (Some msg_select_city))
  else
    startLoading ;;
    r ← await GetAllEvents;
    let evs := getAllEvents r in
    modify (set_events evs) ;;
    (match evs with
     | [] => modify (set_error (Some msg_no_events))
     | _ :: _ => modify (set_error None)
     end) ;;
    stopLoading.

(** The [try] block of [initialize]; each [return] ends it. *)
Definition initialize_body : P unit :=
  r ← await GetCountries;
  let cs := getCountries r in
  modify (set_countries cs) ;;
  match cs with
  | [] => modify (set_error (Some msg_no_countries))
  | c0 :: _ =>
      modify (set_selectedCountryId (Some (Country.countryId c0))) ;;
      r ← await (GetCities (Country.countryId c0));
      let ys := getCities r in
      modify (set_cities ys) ;;
      match ys with
      | [] => modify (set_error (Some msg_no_cities))
      | y0 :: _ =>
          modify (set_selectedCityId (Some (City.cityId y0))) ;;
          modify (set_initialized true) ;;
          loadEvents
      end
  end.

Definition initialize : P unit :=
  s ← get;
  if initialized s then mret tt
  else startLoading ;; initialize_body ;; stopLoading.

Definition loadCountries : P unit :=
  startLoading ;;
  r ← await GetCountries;
  let cs := getCountries r in
  modify (set_countries cs) ;;
  (match cs with
   | [] => modify (set_error (Some msg_no_countries))
   | _ :: _ => mret tt
   end) ;;
  stopLoading.

Definition loadCities (countryId : Z) : P unit :=
  startLoading ;;
  r ← await (GetCities countryId);
  let ys := getCities r in
  modify (set_cities ys) ;;
  (match ys with
   | [] => modify (set_error (Some msg_no_cities))
   | _ :: _ => mret tt
   end) ;;
  stopLoading.

(** [this.cities.find(city => city.countryId === countryId)], falling back
    to [this.cities[0]]. *)
Definition cityForCountry (countryId : Z) (y0 : City.t) (ys : list City.t) : Z :=
  match List.find (fun y => City.countryId y === countryId) ys with
  | Some y => City.cityId y
  | None => City.cityId y0
  end.

Definition setCountryFilter (countryId : option Z) : P unit :=
  match countryId with
  | Some id =>
      if negb (truthy id) then mret tt else
      modify (set_selectedCountryId (Some id)) ;;
      modify (set_events []) ;;
      loadCities id ;;
      s ← get;
      match cities s with
      | y0 :: _ =>
          modify (set_selectedCityId (Some (cityForCountry id y0 (cities s)))) ;;
          loadEvents
      | [] => modify (set_selectedCityId None)
      end
  | None => mret tt
  end.

Definition setCityFilter (cityId : option Z) : P unit :=
  s ← get;
  (if negb (truthy cityId) then
     match cities s with
     | y0 :: _ => modify (set_selectedCityId (Some (City.cityId y0)))
     | [] => mret tt
     end
   else modify (set_selectedCityId cityId)) ;;
  loadEvents.

Definition resetFilters : P unit :=
  s ← get;
  match countries s with
  | c0 :: _ => setCountryFilter (Some (Country.countryId c0))
  | [] =>
      loadCountries ;;
      s ← get;
      match countries s with
      | c0 :: _ => setCountryFilter (Some (Country.countryId c0))
      | [] => mret tt
      end
  end.

(** The actions a component may invoke (the helpers are internal). *)
Inductive action :=
| Initialize
| LoadEvents
| LoadCountries
| LoadCities (countryId : Z)
| SetCountryFilter (countryId : option Z)
| SetCityFilter (cityId : option Z)
| ResetFilters.

Definition denote (a : action) : P unit :=
  match a with
  | Initialize => initialize
  | LoadEvents => loadEvents
  | LoadCountries => loadCountries
  | LoadCities id => loadCities id
  | SetCountryFilter id => setCountryFilter id
  | SetCityFilter id => setCityFilter id
  | ResetFilters => resetFilters
  end.

(** ** Getters *)

(** The event matches the selected city by id, by its [city] field or by
    its [cityName] field.  The source's first guard ([!state.events ||
    !Array.isArray(state.events)]) cannot fire: [events] is always a list. *)
Definition event_matches (sel : option Z) (y : City.t) (e : Event.t) : bool :=
  (truthy (Event.cityId e) && (Event.cityId e === sel))
  || (truthy (Event.city e) && city_field_eqb_string (Event.city e) (City.name y))
  || (truthy (Event.cityName e) && (Event.cityName e === Some (City.name y))).

Definition filteredEvents (s : state) : list Event.t :=
  if negb (truthy (selectedCityId s)) then [] else
  match List.find (fun y => Some (City.cityId y) === selectedCityId s) (cities s) with
  | None => []
  | Some y => List.filter (event_matches (selectedCityId s) y) (events s)
  end.

Definition hasActiveFilters (s : state) : bool :=
  negb (selectedCountryId s === None) && negb (selectedCityId s === None).

Definition selectedCountry (s : state) : option Country.t :=
  if negb (truthy (selectedCountryId s)) then None else
  List.find (fun c => Some (Country.countryId c) === selectedCountryId s) (countries s).

Definition selectedCity (s : state) : option City.t :=
  if negb (truthy (selectedCityId s)) then None else
  List.find (fun y => Some (City.cityId y) === selectedCityId s) (cities s).

End EventStore.
