(* ===== verification/EventStoreSpec.v ===== *)
(** * EventStoreSpec: what each action of the event store does, and the
    refinement of the model into it

    [Spec] states each action of [EventStore] in direct style, as a
    function from the store before the action to the store after it and
    the list of service calls made, with the backend's answers given by
    [ans]; the loading guard appears only through its effect on [loading]
    and [error] ([begin] for [startLoading], [settle] for [stopLoading]).

    [tidy] is the discipline of the loading guard: the handle stored in
    [loadingTimeout] is never 0, and the only pending timer, if any, is the
    guard that [loadingTimeout] names.  [idle] is the state between two
    actions: no guard armed, none pending.

    [behaves ans p F]: run from a tidy world, [p] ends in a tidy world
    whose store is the one [F] computes, after the calls [F] lists; from an
    idle world it ends idle.  [refinement] proves it for every action. *)

From stdpp Require Import base list strings.
From Stdlib Require Import ZArith.
From S2P Require Import Prelude Async Domain EventService EventStore.

Import EventStore EventService.

Definition tidy (w : world state) : Prop :=
  (forall t, loadingTimeout (w_st w) = Some t -> t <> 0) /\
  (w_timers w = [] \/
   exists t, loadingTimeout (w_st w) = Some t /\ w_timers w = [(t, timeout_cb)]).

Definition idle (w : world state) : Prop :=
  loadingTimeout (w_st w) = None /\ w_timers w = [].

Module Spec.
Section Spec.
Variable ans : forall c, reply c.

Definition begin (s : state) : state := set_error None (set_loading true s).
Definition settle (s : state) : state := set_loadingTimeout None (set_loading false s).

Definition loadEvents (s : state) : state * list call :=
  if negb (truthy (selectedCityId s)) then
    (set_error (Some msg_select_city) (set_events [] s), [])
  else
    let evs := getAllEvents (ans GetAllEvents) in
    (settle (set_error (match evs with [] => Some msg_no_events | _ => None end)
                       (set_events evs (begin s))), [GetAllEvents]).

Definition loadCities (id : Z) (s : state) : state * list call :=
  let ys := getCities (ans (GetCities id)) in
  (settle (match ys with [] => set_error (Some msg_no_cities) | _ => fun s => s end
             (set_cities ys (begin s))), [GetCities id]).

Definition loadCountries (s : state) : state * list call :=
  let cs := getCountries (ans GetCountries) in
  (settle (match cs with [] => set_error (Some msg_no_countries) | _ => fun s => s end
             (set_countries cs (begin s))), [GetCountries]).

Definition setCountryFilter (o : option Z) (s : state) : state * list call :=
  match o with
  | Some id =>
      if truthy id then
        let r1 := loadCities id (set_events [] (set_selectedCountryId (Some id) s)) in
        match cities r1.1 with
        | y0 :: _ =>
            let r2 :=
              loadEvents (set_selectedCityId (Some (cityForCountry id y0 (cities r1.1))) r1.1) in
            (r2.1, r1.2 ++ r2.2)
        | [] => (set_selectedCityId None r1.1, r1.2)
        end
      else (s, [])
  | None => (s, [])
  end.

Definition setCityFilter (o : option Z) (s : state) : state * list call :=
  loadEvents
    (if truthy o then set_selectedCityId o s
     else match cities s with
          | y0 :: _ => set_selectedCityId (Some (City.cityId y0)) s
          | [] => s
          end).

Definition initialize (s : state) : state * list call :=
  if initialized s then (s, []) else
  let cs := getCountries (ans GetCountries) in
  let s1 := set_countries cs (begin s) in
  match cs with
  | [] => (settle (set_error (Some msg_no_countries) s1), [GetCountries])
  | c0 :: _ =>
      let id := Country.countryId c0 in
      let ys := getCities (ans (GetCities id)) in
      let s2 := set_cities ys (set_selectedCountryId (Some id) s1) in
      match ys with
      | [] => (settle (set_error (Some msg_no_cities) s2), [GetCountries; GetCities id])
      | y0 :: _ =>
          let r3 :=
            loadEvents (set_initialized true (set_selectedCityId (Some (City.cityId y0)) s2)) in
          (settle r3.1, GetCountries :: GetCities id :: r3.2)
      end
  end.

Definition resetFilters (s : state) : state * list call :=
  match countries s with
  | c0 :: _ => setCountryFilter (Some (Country.countryId c0)) s
  | [] =>
      let r1 := loadCountries s in
      match countries r1.1 with
      | c0 :: _ =>
          let r2 := setCountryFilter (Some (Country.countryId c0)) r1.1 in
          (r2.1, r1.2 ++ r2.2)
      | [] => r1
      end
  end.

Definition denote (a : action) : state -> state * list call :=
  match a with
  | Initialize => initialize
  | LoadEvents => loadEvents
  | LoadCountries => loadCountries
  | LoadCities id => loadCities id
  | SetCountryFilter id => setCountryFilter id
  | SetCityFilter id => setCityFilter id
  | ResetFilters => resetFilters
  end.

End Spec.
End Spec.

(** The specification of a sequence of actions, each run to completion. *)
Fixpoint spec_seq (ans : forall c, reply c) (l : list action) (s : state) : state :=
  match l with
  | [] => s
  | a :: l' => spec_seq ans l' (Spec.denote ans a s).1
  end.

Definition behaves (ans : forall c, reply c) (p : P unit)
    (F : state -> state * list call) : Prop :=
  forall w, tidy w ->
  exists w', run reply ans p w = (tt, w', (F (w_st w)).2) /\
             w_st w' = (F (w_st w)).1 /\ tidy w' /\ (idle w -> idle w').

(** ** The loading guard *)

Lemma idle_tidy w : idle w -> tidy w.
Proof. intros [Hl Ht]. split; [intros t; congruence | auto]. Qed.

Lemma run_startLoading ans w :
  tidy w ->
  run reply ans startLoading w =
  (tt, mkWorld (set_loadingTimeout (Some (S (w_next w))) (Spec.begin (w_st w)))
               [(S (w_next w), timeout_cb)] (S (w_next w)), []).
Proof.
  intros [Hnz [Ht|(t & Hl & Ht)]]; destruct w as [s ts n]; simpl in *; subst.
  - destruct (loadingTimeout s) as [[|t]|]; reflexivity.
  - rewrite Hl. specialize (Hnz t Hl). destruct t; [congruence|]. simpl.
    rewrite Nat.eqb_refl. reflexivity.
Qed.

Lemma run_stopLoading ans w :
  tidy w ->
  run reply ans stopLoading w =
  (tt, mkWorld (Spec.settle (w_st w)) [] (w_next w), []).
Proof.
  intros [Hnz [Ht|(t & Hl & Ht)]]; destruct w as [s ts n]; simpl in *; subst.
  - destruct (loadingTimeout s) as [t|] eqn:Hl.
    + specialize (Hnz t eq_refl). destruct t; [congruence|]. reflexivity.
    + destruct s; simpl in *; subst; reflexivity.
  - rewrite Hl. specialize (Hnz t Hl). destruct t; [congruence|]. simpl.
    unfold cancel_timer, upd_st; simpl. rewrite Nat.eqb_refl. reflexivity.
Qed.

(** Writes to fields other than [loadingTimeout] keep the guard discipline. *)
Lemma tidy_upd f w :
  (forall s, loadingTimeout (f s) = loadingTimeout s) -> tidy w -> tidy (upd_st f w).
Proof. intros Hf [H1 H2]. unfold tidy, upd_st; simpl. rewrite Hf. auto. Qed.

Lemma idle_upd f w :
  (forall s, loadingTimeout (f s) = loadingTimeout s) -> idle w -> idle (upd_st f w).
Proof. intros Hf [H1 H2]. unfold idle, upd_st; simpl. rewrite Hf. auto. Qed.

Lemma tidy_armed s n :
  tidy (mkWorld (set_loadingTimeout (Some (S n)) s) [(S n, timeout_cb)] (S n)).
Proof. split; simpl; [congruence | right; eauto]. Qed.

Lemma tidy_settled s n : tidy (mkWorld (Spec.settle s) [] n).
Proof. split; [simpl; congruence | left; reflexivity]. Qed.

Lemma idle_settled s n : idle (mkWorld (Spec.settle s) [] n).
Proof. split; reflexivity. Qed.

#[export] Hint Resolve idle_tidy tidy_armed tidy_settled idle_settled : frontend.

#[local] Opaque startLoading stopLoading.

Ltac solve_tidy :=
  repeat (apply tidy_upd; [intros; reflexivity|]);
  first [apply tidy_armed | apply tidy_settled | assumption].

Ltac solve_idle :=
  repeat (apply idle_upd; [intros; reflexivity|]);
  first [ apply idle_settled | assumption
        | match goal with H : idle _ -> idle ?w |- idle ?w => apply H; solve_idle end ].

(** Rewrite the runs of the loading guard, then compute. *)
Ltac run_guard :=
  repeat first
    [ rewrite run_startLoading by solve_tidy
    | rewrite run_stopLoading by solve_tidy
    | progress simpl ].

(** Case on a service result everywhere it occurs. *)
Ltac case_svc e :=
  let x := fresh "xs" in
  set (x := e) in *; clearbody x; destruct x; simpl in *.

(** Rewrite the store of a world by what is known of it. *)
Ltac rw_st :=
  repeat match goal with
         | H : w_st ?x = _ |- context [w_st ?x] => rewrite H
         end.

(** Close a [behaves] goal once the run is computed. *)
Ltac finish_behaves :=
  eexists; split; [simpl; rw_st; reflexivity|]; split; [simpl; rw_st; reflexivity|];
  split; [solve_tidy | intros ?; solve_idle].

Lemma behaves_loadEvents ans : behaves ans loadEvents (Spec.loadEvents ans).
Proof.
  intros w Hw. unfold loadEvents, Spec.loadEvents.
  rewrite run_mbind_get.
  destruct (truthy (selectedCityId (w_st w))); simpl negb; cbv iota.
  - rewrite run_mbind, (run_startLoading ans w Hw). simpl.
    destruct (ans GetAllEvents) as [[[|e evs]|]|st msg]; run_guard; finish_behaves.
  - simpl. finish_behaves.
Qed.

Lemma behaves_loadCities ans id : behaves ans (loadCities id) (Spec.loadCities ans id).
Proof.
  intros w Hw. unfold loadCities, Spec.loadCities.
  rewrite run_mbind, (run_startLoading ans w Hw). simpl.
  destruct (ans (GetCities id)) as [[[|y ys]|]|st msg]; run_guard; finish_behaves.
Qed.

Lemma behaves_loadCountries ans : behaves ans loadCountries (Spec.loadCountries ans).
Proof.
  intros w Hw. unfold loadCountries, Spec.loadCountries.
  rewrite run_mbind, (run_startLoading ans w Hw). simpl.
  destruct (ans GetCountries) as [[[|c cs]|]|st msg]; run_guard; finish_behaves.
Qed.

#[local] Opaque loadEvents loadCities loadCountries.

(** Replace the run of a sub-action by what its [behaves] lemma says. *)
Ltac use_behaves L :=
  lazymatch type of L with
  | behaves ?ans ?p _ =>
      match goal with
      | |- context [run reply ans p ?w] =>
          let w' := fresh "w" in
          let E := fresh "E" in let Hs := fresh "Hs" in
          let Ht := fresh "Ht" in let Hi := fresh "Hi" in
          destruct (L w ltac:(solve_tidy)) as (w' & E & Hs & Ht & Hi);
          rewrite E; simpl in Hs |- *; try rewrite Hs
      end
  end.

Lemma behaves_setCountryFilter ans o :
  behaves ans (setCountryFilter o) (Spec.setCountryFilter ans o).
Proof.
  intros w Hw. unfold setCountryFilter, Spec.setCountryFilter.
  destruct o as [id|]; [|finish_behaves].
  destruct (truthy id); simpl; [|finish_behaves].
  rewrite run_mbind. use_behaves (behaves_loadCities ans id).
  case_svc (getCities (ans (GetCities id))).
  - finish_behaves.
  - use_behaves (behaves_loadEvents ans). finish_behaves.
Qed.

Lemma behaves_setCityFilter ans o :
  behaves ans (setCityFilter o) (Spec.setCityFilter ans o).
Proof.
  intros w Hw. unfold setCityFilter, Spec.setCityFilter.
  rewrite run_mbind_get.
  destruct (truthy o); simpl.
  - use_behaves (behaves_loadEvents ans). finish_behaves.
  - case_svc (cities (w_st w)); use_behaves (behaves_loadEvents ans); finish_behaves.
Qed.

Lemma behaves_initialize ans : behaves ans initialize (Spec.initialize ans).
Proof.
  intros w Hw. unfold initialize, Spec.initialize.
  rewrite run_mbind_get.
  destruct (initialized (w_st w)); simpl; [finish_behaves|].
  rewrite run_mbind, (run_startLoading ans w Hw). simpl. unfold initialize_body. simpl.
  case_svc (getCountries (ans GetCountries)); [run_guard; finish_behaves|].
  case_svc (getCities (ans (GetCities (Country.countryId t)))); [run_guard; finish_behaves|].
  unfold prog_mbind. rewrite (run_bind reply ans loadEvents).
  use_behaves (behaves_loadEvents ans). unfold Spec.loadEvents in *. simpl in *.
  case_svc (truthy (Some (City.cityId t0)));
    [case_svc (getAllEvents (ans GetAllEvents))|]; run_guard; finish_behaves.
Qed.

#[local] Opaque setCountryFilter.

Lemma behaves_resetFilters ans : behaves ans resetFilters (Spec.resetFilters ans).
Proof.
  intros w Hw. unfold resetFilters, Spec.resetFilters.
  rewrite run_mbind_get.
  case_svc (countries (w_st w)).
  - rewrite run_mbind. use_behaves (behaves_loadCountries ans).
    unfold Spec.loadCountries in *. simpl in *. case_svc (getCountries (ans GetCountries)); [finish_behaves|].
    use_behaves (behaves_setCountryFilter ans (Some (Country.countryId t))). finish_behaves.
  - use_behaves (behaves_setCountryFilter ans (Some (Country.countryId t))). finish_behaves.
Qed.

#[local] Opaque initialize setCityFilter resetFilters.

Lemma behaves_denote ans a : behaves ans (denote a) (Spec.denote ans a).
Proof.
  destruct a; simpl.
  - apply behaves_initialize.
  - apply behaves_loadEvents.
  - apply behaves_loadCountries.
  - apply behaves_loadCities.
  - apply behaves_setCountryFilter.
  - apply behaves_setCityFilter.
  - apply behaves_resetFilters.
Qed.

(** Consequences for one action run from an idle world. *)
Lemma final_denote ans a w :
  idle w ->
  w_st (final reply ans (denote a) w) = (Spec.denote ans a (w_st w)).1 /\
  calls reply ans (denote a) w = (Spec.denote ans a (w_st w)).2 /\
  idle (final reply ans (denote a) w).
Proof.
  intros Hw. destruct (behaves_denote ans a w (idle_tidy w Hw)) as (w' & E & Hs & _ & Hi).
  unfold final, calls. rewrite E. simpl. auto.
Qed.

(** C3: a sequence of actions run one after the other from
    an idle world ends in an idle world (no guard armed, no timer pending)
    whose store is the one the specification computes. *)
Theorem run_seq_refines (ans : forall c, reply c) l w :
  idle w ->
  w_st (run_seq denote ans l w) = spec_seq ans l (w_st w) /\ idle (run_seq denote ans l w).
Proof.
  revert w. induction l as [|a l IH]; intros w Hw; simpl; [auto|].
  destruct (final_denote ans a w Hw) as (Hs & _ & Hi).
  rewrite <- Hs. apply IH, Hi.
Qed.

Lemma run_seq_refines_witness :
  idle (run_seq denote (fun c => match c as c0 return reply c0 with
                                 | GetCountries => Ok (Arr [])
                                 | GetCities _ => Ok (Arr [])
                                 | GetAllEvents => Ok (Arr [])
                                 end) [Initialize; ResetFilters]
          (mkWorld initial_state [] 0)).
Proof.
  exact (proj2 (run_seq_refines _ [Initialize; ResetFilters] (mkWorld initial_state [] 0)
                  (conj eq_refl eq_refl))).
Defined.
