(* ===== verification/EventStoreProps.v ===== *)
(** * EventStoreProps: properties of the event store run action by action

    Each property is stated of the model ([final], [calls] of an action of
    [EventStore] run from an idle world, backend answers [ans]) and proved
    through the refinement [final_denote] into [Spec]: the selection
    cascade of [setCountryFilter] and the invariant it maintains, the
    behaviour of [initialize] (idempotence, and the stale city it can leave
    behind), the forced city of [setCityFilter], the guard of
    [loadEvents], the way transport failures surface, and the getter
    [filteredEvents]. *)

From stdpp Require Import base list strings.
From Stdlib Require Import ZArith.
From S2P Require Import Prelude Async Domain EventService EventStore EventStoreSpec.

Import EventStore EventService.

(** The invariant the spec states for the selection cascade: once a
    country is selected, a city is selected exactly when the loaded city
    list is not empty. *)
Definition cascade_ok (s : state) : Prop :=
  selectedCountryId s <> None -> (selectedCityId s = None <-> cities s = []).

(** The actions that only move the selection through [setCountryFilter]. *)
Definition cascade_action (a : action) : bool :=
  match a with
  | SetCountryFilter _ | LoadEvents | LoadCountries | ResetFilters => true
  | _ => false
  end.

(** ** Example backends and worlds for the witnesses *)

Definition w_init : world state := mkWorld initial_state [] 0.

Definition country_A : Country.t := Country.mk 1 "A".
Definition country_B : Country.t := Country.mk 2 "B".
Definition city_5 : City.t := City.mk 5 "Paris" 0 1.
Definition city_7 : City.t := City.mk 7 "Rome" 0 2.

(** Country 1 has no city; country 2 has city 7. *)
Definition ans_stale (c : call) : reply c :=
  match c as c0 return reply c0 with
  | GetCountries => Ok (Arr [country_A; country_B])
  | GetCities id => if Z.eqb id 1 then Ok (Arr []) else Ok (Arr [city_7])
  | GetAllEvents => Ok (Arr [])
  end.

(** The scenario of the spec: one country, no city. *)
Definition ans_one_country (c : call) : reply c :=
  match c as c0 return reply c0 with
  | GetCountries => Ok (Arr [country_A])
  | GetCities _ => Ok (Arr [])
  | GetAllEvents => Ok (Arr [])
  end.

(** Country 1 has city 5, country 2 has city 7; one event in city 5. *)
Definition ans_two_countries (c : call) : reply c :=
  match c as c0 return reply c0 with
  | GetCountries => Ok (Arr [country_A; country_B])
  | GetCities id => if Z.eqb id 1 then Ok (Arr [city_5]) else Ok (Arr [city_7])
  | GetAllEvents => Ok (Arr [Event.mk 11 "Expo" (Some 5%Z) CityAbsent None])
  end.

(** Every call fails with status 500. *)
Definition ans_down (c : call) : reply c :=
  match c as c0 return reply c0 with
  | GetCountries => Fail (Some 500%Z) None
  | GetCities _ => Fail (Some 500%Z) None
  | GetAllEvents => Fail (Some 500%Z) None
  end.

(** A world whose city list is [[city 5]], nothing selected. *)
Definition w_city5 : world state := mkWorld (set_cities [city_5] initial_state) [] 0.

(** An event whose [city] is the object [{name: "Paris"}], without
    [cityId] or [cityName]. *)
Definition event_paris_object : Event.t :=
  Event.mk 10 "Concert" None (CityObject (Some "Paris") None) None.

(** An event that names city 5 by its [cityId]. *)
Definition event_by_id : Event.t := Event.mk 11 "Expo" (Some 5%Z) CityAbsent None.

(** City 5 (Paris) selected, both events loaded. *)
Definition state_paris : state :=
  set_events [event_paris_object; event_by_id]
    (set_selectedCityId (Some 5%Z) (set_cities [city_5] initial_state)).

(** ** Lemmas on the specification *)

Section SpecLemmas.
Variable ans : forall c, reply c.

Lemma spec_loadEvents_selection s :
  selectedCountryId (Spec.loadEvents ans s).1 = selectedCountryId s /\
  selectedCityId (Spec.loadEvents ans s).1 = selectedCityId s /\
  cities (Spec.loadEvents ans s).1 = cities s /\
  countries (Spec.loadEvents ans s).1 = countries s /\
  initialized (Spec.loadEvents ans s).1 = initialized s.
Proof.
  unfold Spec.loadEvents. destruct (negb _); simpl; [auto|].
  destruct (getAllEvents (ans GetAllEvents)); simpl; auto.
Qed.

Lemma spec_loadCountries_selection s :
  selectedCountryId (Spec.loadCountries ans s).1 = selectedCountryId s /\
  selectedCityId (Spec.loadCountries ans s).1 = selectedCityId s /\
  cities (Spec.loadCountries ans s).1 = cities s.
Proof. unfold Spec.loadCountries. destruct (getCountries (ans GetCountries)); simpl; auto. Qed.

(** The cascade of [setCountryFilter] for a truthy id. *)
Lemma spec_setCountryFilter_truthy id s :
  truthy id = true ->
  let ys := getCities (ans (GetCities id)) in
  let r := Spec.setCountryFilter ans (Some id) s in
  selectedCountryId r.1 = Some id /\ cities r.1 = ys /\
  selectedCityId r.1 = match ys with
                       | [] => None
                       | y0 :: _ => Some (cityForCountry id y0 ys)
                       end.
Proof.
  intros Hid. unfold Spec.setCountryFilter, Spec.loadCities. rewrite Hid. simpl.
  destruct (getCities (ans (GetCities id))) as [|y0 ys]; simpl; [auto|].
  destruct (spec_loadEvents_selection
              (set_selectedCityId (Some (cityForCountry id y0 (y0 :: ys)))
                 (Spec.settle (set_cities (y0 :: ys) (Spec.begin
                    (set_events [] (set_selectedCountryId (Some id) s)))))))
    as (-> & -> & -> & _ & _).
  auto.
Qed.

Lemma spec_setCountryFilter_cascade o s :
  cascade_ok s -> cascade_ok (Spec.setCountryFilter ans o s).1.
Proof.
  intros Hs. destruct o as [id|]; [|exact Hs].
  destruct (truthy id) eqn:Hid; [|unfold Spec.setCountryFilter; rewrite Hid; exact Hs].
  destruct (spec_setCountryFilter_truthy id s Hid) as (Hc & Hy & Hsel).
  intros _. rewrite Hsel, Hy.
  destruct (getCities (ans (GetCities id))); split; congruence.
Qed.

Lemma spec_cascade_action a s :
  cascade_action a = true -> cascade_ok s -> cascade_ok (Spec.denote ans a s).1.
Proof.
  intros Ha Hs. destruct a; try discriminate; cbn [Spec.denote]; unfold cascade_ok in *.
  - destruct (spec_loadEvents_selection s) as (-> & -> & -> & _ & _). exact Hs.
  - destruct (spec_loadCountries_selection s) as (-> & -> & ->). exact Hs.
  - apply spec_setCountryFilter_cascade; exact Hs.
  - unfold Spec.resetFilters. destruct (countries s) as [|c0 cs].
    + cbv zeta. destruct (countries (Spec.loadCountries ans s).1) as [|c1 cs1]; cbv iota beta.
      * destruct (spec_loadCountries_selection s) as (H1 & H2 & H3).
        rewrite H1, H2, H3. exact Hs.
      * apply spec_setCountryFilter_cascade. unfold cascade_ok.
        destruct (spec_loadCountries_selection s) as (H1 & H2 & H3).
        rewrite H1, H2, H3. exact Hs.
    + apply spec_setCountryFilter_cascade; exact Hs.
Qed.

Lemma spec_initialize_idem s :
  (Spec.initialize ans (Spec.initialize ans s).1).1 = (Spec.initialize ans s).1.
Proof.
  unfold Spec.initialize. destruct (initialized s) eqn:Hi; simpl; [rewrite Hi; reflexivity|].
  destruct (getCountries (ans GetCountries)) as [|c0 cs]; simpl; [rewrite Hi; reflexivity|].
  destruct (getCities (ans (GetCities (Country.countryId c0)))) as [|y0 ys]; simpl;
    [rewrite Hi; reflexivity|].
  match goal with |- context [Spec.loadEvents ans ?x] =>
    destruct (spec_loadEvents_selection x) as (_ & _ & _ & _ & ->) end.
  reflexivity.
Qed.

End SpecLemmas.

Lemma run_seq_idle (ans : forall c, reply c) l w :
  idle w -> idle (run_seq denote ans l w).
Proof.
  revert w. induction l as [|a l IH]; intros w Hw; simpl; [exact Hw|].
  apply IH. apply (final_denote ans a w Hw).
Qed.

(** Replace the run of action [a] from the idle world [w] by its
    specification; the final world becomes an opaque [w'] known to be idle. *)
Ltac spec_of ans a w Hw :=
  let w' := fresh "w'" in
  let Hs := fresh "Hs" in let Hc := fresh "Hc" in let Hi := fresh "Hi" in
  destruct (final_denote ans a w Hw) as (Hs & Hc & Hi); cbn [denote] in Hs, Hc, Hi;
  cbv zeta;
  match type of Hi with idle ?W => set (w' := W) in *; clearbody w' end;
  let Hl := fresh "Hl" in let Ht := fresh "Ht" in pose proof Hi as [Hl Ht];
  rewrite ?Hs, ?Hc.

(** ** Properties *)

(** C1: for a truthy country id, [setCountryFilter]
    selects the country, replaces the city list by the one the backend
    returns for it, selects the first city of that country (or the first
    city of the list, or none when the list is empty), loads the events
    only when a city was selected, and sets [error] accordingly; the
    loading guard is released and the two calls are made in order. *)
Theorem setCountryFilter_cascade (ans : forall c, reply c) w id :
  idle w -> truthy id = true ->
  let w' := final reply ans (setCountryFilter (Some id)) w in
  let ys := getCities (ans (GetCities id)) in
  let evs := getAllEvents (ans GetAllEvents) in
  let sel := match ys with [] => None | y0 :: _ => Some (cityForCountry id y0 ys) end in
  selectedCountryId (w_st w') = Some id /\
  cities (w_st w') = ys /\
  selectedCityId (w_st w') = sel /\
  events (w_st w') = (if truthy sel then evs else []) /\
  error (w_st w') = match ys with
                    | [] => Some msg_no_cities
                    | _ :: _ => if truthy sel
                                then match evs with [] => Some msg_no_events | _ => None end
                                else Some msg_select_city
                    end /\
  loading (w_st w') = false /\ idle w' /\
  calls reply ans (setCountryFilter (Some id)) w =
    GetCities id :: (if truthy sel then [GetAllEvents] else []).
Proof.
  intros Hw Hid. spec_of ans (SetCountryFilter (Some id)) w Hw.
  unfold Spec.denote, Spec.setCountryFilter, Spec.loadCities. rewrite Hid. simpl.
  destruct (getCities (ans (GetCities id))) as [|y0 ys]; simpl; [repeat split; auto|].
  unfold Spec.loadEvents. simpl.
  destruct (truthy (Some (cityForCountry id y0 (y0 :: ys)))); simpl;
    [destruct (getAllEvents (ans GetAllEvents))|]; repeat split; auto.
Qed.

Lemma setCountryFilter_cascade_witness :
  selectedCityId (w_st (final reply ans_two_countries (setCountryFilter (Some 2%Z)) w_init))
  = Some 7%Z.
Proof.
  destruct (setCountryFilter_cascade ans_two_countries w_init 2%Z (conj eq_refl eq_refl) eq_refl)
    as (_ & _ & H & _).
  exact H.
Defined.

(** C2: along any sequence of [setCountryFilter],
    [loadEvents], [loadCountries] and [resetFilters] actions, each run to
    completion, a selected country always comes with a selected city
    exactly when the loaded city list is not empty. *)
Theorem cascade_invariant (ans : forall c, reply c) l w :
  idle w ->
  Forall (fun a => cascade_action a = true) l ->
  cascade_ok (w_st w) -> cascade_ok (w_st (run_seq denote ans l w)).
Proof.
  revert w. induction l as [|a l IH]; intros w Hw Hl Hs; simpl; [exact Hs|].
  apply Forall_cons in Hl as [Ha Hl].
  destruct (final_denote ans a w Hw) as (Hst & _ & Hi).
  apply IH; [exact Hi | exact Hl |]. rewrite Hst. apply spec_cascade_action; assumption.
Qed.

Lemma cascade_invariant_witness :
  cascade_ok (w_st (run_seq denote ans_two_countries
                      [SetCountryFilter (Some 1%Z); ResetFilters] w_init)).
Proof.
  apply cascade_invariant.
  - split; reflexivity.
  - repeat constructor.
  - intros H. exfalso. apply H. reflexivity.
Defined.

(** C7: once [initialize] has completed its initialization (the
    backend's first country has a city), a later [initialize] is a no-op
    whatever the backend would answer then: it makes no request and leaves
    the store and the timers as they are, because of the guard
    [if (this.initialized) return]. *)
Theorem initialize_idempotent (ans1 ans2 : forall c, reply c) w c0 cs y0 ys :
  idle w ->
  getCountries (ans1 GetCountries) = c0 :: cs ->
  getCities (ans1 (GetCities (Country.countryId c0))) = y0 :: ys ->
  initialized (w_st (final reply ans1 initialize w)) = true /\
  calls reply ans2 initialize (final reply ans1 initialize w) = [] /\
  final reply ans2 initialize (final reply ans1 initialize w) = final reply ans1 initialize w.
Proof.
  intros Hw Hc Hy.
  destruct (final_denote ans1 Initialize w Hw) as (Hs & _ & _). cbn [denote Spec.denote] in Hs.
  assert (Hi : initialized (w_st (final reply ans1 initialize w)) = true).
  { rewrite Hs. unfold Spec.initialize. destruct (initialized (w_st w)) eqn:E; [exact E|].
    rewrite Hc, Hy. cbv zeta. cbn [fst]. unfold Spec.settle.
    cbn [initialized set_loadingTimeout set_loading].
    match goal with |- context [Spec.loadEvents ans1 ?x] =>
      destruct (spec_loadEvents_selection ans1 x) as (_ & _ & _ & _ & ->) end.
    reflexivity. }
  set (w1 := final reply ans1 initialize w) in *.
  assert (Hr : run reply ans2 initialize w1 = (tt, w1, [])).
  { unfold initialize. rewrite run_mbind_get. cbv beta. rewrite Hi. reflexivity. }
  unfold calls, final. rewrite Hr. split_and!; [exact Hi|reflexivity|reflexivity].
Qed.

Lemma initialize_idempotent_witness :
  initialized (w_st (final reply ans_two_countries initialize w_init)) = true /\
  calls reply ans_one_country initialize (final reply ans_two_countries initialize w_init) = [].
Proof.
  destruct (initialize_idempotent ans_two_countries ans_one_country w_init country_A [country_B]
              city_5 [] (conj eq_refl eq_refl) eq_refl eq_refl) as (H1 & H2 & _).
  split; [exact H1|exact H2].
Defined.

(** C5: [initialize] does not clear
    [selectedCityId] when the first country has no city: after
    [setCountryFilter(2)] selected city 7 of country 2, [initialize]
    selects country 1, loads its empty city list, and keeps city 7, which
    breaks [cascade_ok]. *)
Theorem initialize_keeps_stale_city :
  let w := run_seq denote ans_stale [SetCountryFilter (Some 2%Z); Initialize] w_init in
  selectedCountryId (w_st w) = Some 1%Z /\ cities (w_st w) = [] /\
  selectedCityId (w_st w) = Some 7%Z /\ ~ cascade_ok (w_st w).
Proof.
  cbv zeta. split; [vm_compute; reflexivity|]. split; [vm_compute; reflexivity|].
  split; [vm_compute; reflexivity|].
  intros H. destruct (H ltac:(vm_compute; discriminate)) as [_ H2].
  specialize (H2 ltac:(vm_compute; reflexivity)). vm_compute in H2. discriminate.
Qed.

(** C8: when the first country has no city,
    [initialize] selects that country, stores the empty city list and the
    error "No cities available for the selected country", leaves
    [selectedCityId] and [events] as they were, does not mark the store
    initialized, and never asks for events. *)
Theorem initialize_no_cities (ans : forall c, reply c) w c0 cs :
  idle w -> initialized (w_st w) = false ->
  getCountries (ans GetCountries) = c0 :: cs ->
  getCities (ans (GetCities (Country.countryId c0))) = [] ->
  let s := w_st (final reply ans initialize w) in
  error s = Some msg_no_cities /\ countries s = c0 :: cs /\
  selectedCountryId s = Some (Country.countryId c0) /\ cities s = [] /\
  selectedCityId s = selectedCityId (w_st w) /\ events s = events (w_st w) /\
  initialized s = false /\ loading s = false /\
  calls reply ans initialize w = [GetCountries; GetCities (Country.countryId c0)].
Proof.
  intros Hw Hi Hc Hy. spec_of ans Initialize w Hw.
  unfold Spec.denote, Spec.initialize. rewrite Hi, Hc. simpl. rewrite Hy.
  simpl. repeat split; auto.
Qed.

Lemma initialize_no_cities_witness :
  let s := w_st (final reply ans_one_country initialize w_init) in
  error s = Some msg_no_cities /\ selectedCityId s = None /\ events s = [].
Proof.
  destruct (initialize_no_cities ans_one_country w_init country_A []
              (conj eq_refl eq_refl) eq_refl eq_refl eq_refl)
    as (H1 & _ & _ & _ & H5 & H6 & _).
  split; [exact H1|]. split; [exact H5|exact H6].
Defined.

(** C9: [setCityFilter(id)] adopts a truthy id;
    with a null id it selects the first loaded city, and keeps the current
    selection only when no city is loaded; it then loads events exactly
    when the resulting selection is truthy. *)
Theorem setCityFilter_forces_city (ans : forall c, reply c) w o :
  idle w ->
  let sel := if truthy o then o
             else match cities (w_st w) with
                  | y0 :: _ => Some (City.cityId y0)
                  | [] => selectedCityId (w_st w)
                  end in
  let s := w_st (final reply ans (setCityFilter o) w) in
  selectedCityId s = sel /\
  events s = (if truthy sel then getAllEvents (ans GetAllEvents) else []) /\
  calls reply ans (setCityFilter o) w = (if truthy sel then [GetAllEvents] else []).
Proof.
  intros Hw. spec_of ans (SetCityFilter o) w Hw.
  unfold Spec.denote, Spec.setCityFilter, Spec.loadEvents.
  destruct (truthy o) eqn:Ho; simpl; [|destruct (cities (w_st w)); simpl];
    match goal with |- context [truthy ?x] => destruct (truthy x) end; simpl;
    try destruct (getAllEvents (ans GetAllEvents)); repeat split; auto.
Qed.

Lemma setCityFilter_forces_city_witness :
  selectedCityId (w_st (final reply ans_one_country (setCityFilter None) w_city5)) = Some 5%Z.
Proof.
  destruct (setCityFilter_forces_city ans_one_country w_city5 None (conj eq_refl eq_refl))
    as [H _].
  exact H.
Defined.

(** C10: without a truthy selected city,
    [loadEvents] clears the events, sets the error "Please select a city to
    view events", touches nothing else (not even the loading guard) and
    makes no call. *)
Theorem loadEvents_requires_city (ans : forall c, reply c) w :
  truthy (selectedCityId (w_st w)) = false ->
  final reply ans loadEvents w =
    upd_st (set_error (Some msg_select_city)) (upd_st (set_events []) w) /\
  calls reply ans loadEvents w = [].
Proof.
  intros H. unfold final, calls, loadEvents. rewrite run_mbind_get, H. split; reflexivity.
Qed.

Lemma loadEvents_requires_city_witness :
  calls reply ans_one_country loadEvents w_init = [].
Proof. exact (proj2 (loadEvents_requires_city ans_one_country w_init eq_refl)). Defined.

(** C14: when the city request fails, the
    store records an empty city list and the message "No cities available
    for the selected country": the [catch] message "Failed to load cities"
    is never produced, because the service already turned the failure into
    an empty list. *)
Theorem loadCities_failure_looks_empty (ans : forall c, reply c) w id st msg :
  idle w -> ans (GetCities id) = Fail st msg ->
  let s := w_st (final reply ans (loadCities id) w) in
  cities s = [] /\ error s = Some msg_no_cities /\ loading s = false.
Proof.
  intros Hw Hf. spec_of ans (LoadCities id) w Hw.
  unfold Spec.denote, Spec.loadCities. rewrite Hf. repeat split.
Qed.

Lemma loadCities_failure_looks_empty_witness :
  error (w_st (final reply ans_down (loadCities 1) w_init)) = Some msg_no_cities.
Proof.
  exact (proj1 (proj2 (loadCities_failure_looks_empty ans_down w_init 1 (Some 500%Z) None
                          (conj eq_refl eq_refl) eq_refl))).
Defined.

(** ** The getter [filteredEvents] *)

Lemma event_matches_true sel y e :
  event_matches sel y e = true ->
  Event.cityId e = sel /\ truthy (Event.cityId e) = true \/
  (Event.city e = CityString (City.name y) /\ City.name y <> EmptyString) \/
  (Event.cityName e = Some (City.name y) /\ City.name y <> EmptyString).
Proof.
  unfold event_matches. intros H.
  apply orb_true_iff in H as [H|H]; [apply orb_true_iff in H as [H|H]|].
  - apply andb_true_iff in H as [H1 H2]. apply strict_eq_option_Z_iff in H2. auto.
  - apply andb_true_iff in H as [H1 H2]. right; left.
    destruct (Event.city e) as [|c|n i]; try discriminate. simpl in H1, H2.
    apply strict_eq_string_iff in H2. subst c. apply truthy_string_iff in H1. auto.
  - apply andb_true_iff in H as [H1 H2]. right; right.
    apply strict_eq_option_string_iff in H2. rewrite H2 in H1. simpl in H1.
    apply truthy_string_iff in H1. auto.
Qed.

(** C11: every event [filteredEvents] shows is a loaded
    event that refers to the selected city, a loaded city with a non-zero
    id: by its [cityId], or by the city's (non-empty) name in a string
    [city] field or in [cityName]. *)
Theorem filteredEvents_sound s e :
  In e (filteredEvents s) ->
  In e (events s) /\
  exists y, In y (cities s) /\ selectedCityId s = Some (City.cityId y) /\
    City.cityId y <> 0%Z /\
    (Event.cityId e = Some (City.cityId y) \/
     (Event.city e = CityString (City.name y) /\ City.name y <> EmptyString) \/
     (Event.cityName e = Some (City.name y) /\ City.name y <> EmptyString)).
Proof.
  unfold filteredEvents. destruct (truthy (selectedCityId s)) eqn:Ht; simpl; [|contradiction].
  destruct (List.find _ (cities s)) as [y|] eqn:Hf; [|contradiction].
  intros Hin. apply filter_In in Hin as [Hin Hm].
  apply find_some in Hf as [Hy Hsel]. apply strict_eq_option_Z_iff in Hsel.
  split; [exact Hin|]. exists y. rewrite <- Hsel in Ht |- *. simpl in Ht.
  apply truthy_Z_iff in Ht. repeat split; auto.
  destruct (event_matches_true _ _ _ Hm) as [[H _]|[H|H]]; [left; congruence|auto|auto].
Qed.

Lemma filteredEvents_sound_witness :
  In event_by_id (events state_paris) /\
  exists y, In y (cities state_paris) /\ selectedCityId state_paris = Some (City.cityId y).
Proof.
  destruct (filteredEvents_sound state_paris event_by_id
              ltac:(vm_compute; left; reflexivity)) as (H1 & y & H2 & H3 & _).
  split; [exact H1|]. exists y. split; [exact H2 | exact H3].
Defined.

(** C13: an event whose [cityId] is the selected city's
    (non-zero) id is shown, when that city is in the loaded list. *)
Theorem filteredEvents_by_id s e y :
  In e (events s) -> In y (cities s) ->
  selectedCityId s = Some (City.cityId y) -> City.cityId y <> 0%Z ->
  Event.cityId e = Some (City.cityId y) ->
  In e (filteredEvents s).
Proof.
  intros He Hy Hsel Hnz Hid.
  assert (Ht : truthy (selectedCityId s) = true)
    by (rewrite Hsel; apply truthy_Z_iff; exact Hnz).
  assert (Hrefl : (selectedCityId s === selectedCityId s) = true)
    by (apply strict_eq_option_Z_iff; reflexivity).
  unfold filteredEvents. rewrite Ht. simpl.
  destruct (List.find _ (cities s)) as [y'|] eqn:Hf; simpl.
  - apply filter_In. split; [exact He|]. unfold event_matches.
    rewrite Hid, <- Hsel, Ht, Hrefl. reflexivity.
  - eapply find_none in Hf; [|exact Hy]. rewrite <- Hsel, Hrefl in Hf. discriminate.
Qed.

Lemma filteredEvents_by_id_witness : In event_by_id (filteredEvents state_paris).
Proof.
  apply (filteredEvents_by_id state_paris event_by_id city_5);
    [simpl; auto | simpl; auto | reflexivity | discriminate | reflexivity].
Defined.

(** C12: an event whose [city] field is an
    object (a nested [City]), with no [cityId] and no [cityName], is never
    shown: the getter compares the object itself to the selected city's
    name with [===]. *)
Theorem filteredEvents_object_city s e n i :
  Event.cityId e = None -> Event.cityName e = None -> Event.city e = CityObject n i ->
  ~ In e (filteredEvents s).
Proof.
  intros H1 H2 H3 Hin. apply filteredEvents_sound in Hin as (_ & y & _ & _ & _ & H).
  rewrite H1, H2, H3 in H. destruct H as [H|[[H _]|[H _]]]; discriminate.
Qed.

Lemma filteredEvents_object_city_witness :
  ~ In event_paris_object (filteredEvents state_paris).
Proof. exact (filteredEvents_object_city state_paris event_paris_object _ _ eq_refl eq_refl eq_refl). Defined.

(** C16: [setCountryFilter(0)] does nothing, like
    [setCountryFilter(null)]: the guard [if (!countryId) return] treats
    the id 0 as absent. *)
Theorem setCountryFilter_zero (ans : forall c, reply c) w :
  final reply ans (setCountryFilter (Some 0%Z)) w = w /\
  calls reply ans (setCountryFilter (Some 0%Z)) w = [].
Proof. split; reflexivity. Qed.
