(* ===== verification/AuthService.v ===== *)
(** * AuthService: src/api/authService.ts

    [login] and [register] post [{username, password}] with axios directly
    (not through [ApiClient], so without its interceptors) and turn the
    outcome into an [AuthResponse]: on a response, [success: true], the
    body's [token], and the user id extracted from the body's [userId]
    ([extractUserId]); on a rejection, or when reading the body throws
    (a [null] body), the [success: false] record of the [catch] block.
    The two methods differ only in their URL and messages; [respond] is
    their common body after the [await].

    [extractUserId] follows the three shapes the code accepts for
    [response.data.userId]: an object with a truthy [id], any other object
    (its first property in [Object.keys] order), a string or a number; it
    falls back to the username. *)

From stdpp Require Import base list strings.
From Stdlib Require Import ZArith.
From S2P Require Import Prelude Async Domain Json JsonCodec.

Module AuthService.

(** [AuthResponse] with the extra [userId] field the code returns; the
    [token] is [response.data.token], which may be [undefined]. *)
Record AuthResponse := mkAuthResponse {
  username : string;
  token : option json;
  success : bool;
  message : option string;
  userId : json
}.

(** The requests of this service: an axios [POST] of a JSON body.  The
    reply is the response text, or the rejection. *)
Inductive call := Post (url : string) (payload : json).

Definition reply (_ : call) : Type := http string.

(** [response.data]: axios's default [transformResponse] parses a text
    body as JSON and keeps the text when it is not JSON.  The model's
    [JSON_parse] has integers and 8-bit strings only: a JSON body with a
    fraction, an exponent or a [\u] escape above [\u00ff] is kept as text
    here, where axios would parse it; properties that decode a reply
    assume a body [JSON_parse] reads. *)
Definition axios_data (body : string) : json :=
  match JSON_parse body with
  | Some j => j
  | None => JStr body
  end.

Definition login_url : string := "http://backend:5151/api/Auth/login?api-version=1".
Definition register_url : string := "http://backend:5151/api/Auth/register?api-version=1".

(** [const payload = { username, password }]. *)
Definition payload (username password : string) : json :=
  JObj [("username", JStr username); ("password", JStr password)].

(** [actualUserId] after the [if (response.data.userId)] block. *)
Definition extractUserId (username : string) (data : json) : json :=
  match truthy_val (get data "userId") with
  | None => JStr username
  | Some uid =>
      if typeof uid === "object" then
        match truthy_val (get uid "id") with
        | Some id => id
        | None =>
            match head (keys uid) with
            | Some firstProp =>
                if truthy firstProp then
                  match truthy_val (get uid firstProp) with
                  | Some v => v
                  | None => JStr username
                  end
                else JStr username
            | None => JStr username
            end
        end
      else if (typeof uid === "string") || (typeof uid === "number") then uid
      else JStr username
  end.

(** The record of the [catch] block. *)
Definition failed (msg : string) : AuthResponse :=
  {| username := ""; token := Some (JStr ""); success := false;
     message := Some msg; userId := JStr "" |}.

(** The body of [login]/[register] after the [await]: [response.data.userId]
    on a [null] body throws a [TypeError], caught like a rejection. *)
Definition respond (ok_msg fail_msg : string) (username : string) (r : http string)
    : AuthResponse :=
  match r with
  | Fail _ _ => failed fail_msg
  | Ok body =>
      match axios_data body with
      | JNull => failed fail_msg
      | data =>
          {| username := username; token := get data "token"; success := true;
             message := Some ok_msg; userId := extractUserId username data |}
      end
  end.

Definition msg_login_ok : string := "Login successful".
Definition msg_login_failed : string := "Login failed. Please try again.".
Definition msg_register_ok : string := "Registration successful".
Definition msg_register_failed : string := "Registration failed. Please try again.".

Section Programs.
Context {St : Type}.

Definition login (username password : string) : @prog St call reply AuthResponse :=
  r ← await (Post login_url (payload username password));
  mret (respond msg_login_ok msg_login_failed username r).

Definition register (username password : string) : @prog St call reply AuthResponse :=
  r ← await (Post register_url (payload username password));
  mret (respond msg_register_ok msg_register_failed username r).
End Programs.


(** * Lemmas *)

Lemma axios_data_wf body : wf (axios_data body) = true.
Proof.
  unfold axios_data. destruct (JSON_parse body) eqn:E; [|done]. eapply JSON_parse_wf; eauto.
Qed.

Lemma extractUserId_wf u data : wf data = true -> wf (extractUserId u data) = true.
Proof.
  intros Hd. unfold extractUserId. repeat case_match; truthy_vals; try done;
    repeat (eapply get_wf; [|eassumption]); done.
Qed.

(** The extracted id is truthy when the username is not empty: the
    fallback is the username, every other branch a value tested truthy. *)
Lemma extractUserId_truthy u data : u <> "" -> truthy (extractUserId u data) = true.
Proof.
  intros Hu. apply truthy_string_iff in Hu.
  unfold extractUserId. repeat case_match; truthy_vals; done.
Qed.

(** The record of a response whose body is not [null]. *)
Lemma respond_ok ok fail u body :
  axios_data body <> JNull ->
  respond ok fail u (Ok body)
  = {| username := u; token := get (axios_data body) "token"; success := true;
       message := Some ok; userId := extractUserId u (axios_data body) |}.
Proof. unfold respond. destruct (axios_data body); congruence. Qed.

(** A successful response is one with a non-[null] body; it keeps the
    submitted username and the extracted id. *)
Lemma respond_success ok fail u r :
  success (respond ok fail u r) = true ->
  exists body, r = Ok body /\ axios_data body <> JNull /\
    username (respond ok fail u r) = u /\
    userId (respond ok fail u r) = extractUserId u (axios_data body).
Proof.
  unfold respond. destruct r as [body|]; [|discriminate].
  destruct (axios_data body) eqn:E; simpl; try discriminate; intros _;
    exists body; rewrite E; split_and!; congruence.
Qed.

Lemma respond_token_wf ok fail u r t :
  token (respond ok fail u r) = Some t -> wf t = true.
Proof.
  unfold respond. destruct r as [body|]; [|intros [= <-]; done].
  pose proof (axios_data_wf body) as Hd. revert Hd.
  destruct (axios_data body) as [| | | | |fs]; intros Hd Ht; cbn [token] in Ht;
    first [exact (get_wf _ _ _ Hd Ht) | simpl in Ht; simplify_eq; done].
Qed.

Lemma respond_userId_wf ok fail u r : wf (userId (respond ok fail u r)) = true.
Proof.
  unfold respond. destruct r as [body|]; [|done].
  pose proof (axios_data_wf body) as Hd. revert Hd.
  destruct (axios_data body); simpl; intros Hd; try done; by apply extractUserId_wf.
Qed.

End AuthService.
