(* ===== verification/AuthStore.v ===== *)
(** * AuthStore: src/stores/authStore.ts

    The Pinia store ['auth'] and the [localStorage] entry ['user'] it keeps
    the session in.  [state] is the record of [state: () => ({...})];
    [env] adds the browser's [localStorage], which the store shares with
    the [ApiClient] interceptor.  [this.user] holds whatever value the
    code assigned: the object built by [login]/[register], or the value
    [JSON.parse] returned in [initializeAuth] (typed [User], but any JSON
    value at run time), so it is a [json] with [JNull] for [null].

    [setUser] and [initializeAuth] are synchronous: functions [env -> env].
    [login] and [register] are programs of [Async] over [env] that await
    the [AuthService] call; [logout] is [setUser(null)].  The [catch]
    blocks of [login]/[register] are unreachable: the service never
    rejects and [setUser] does not throw.  The getters are functions of
    the state. *)

From stdpp Require Import base list strings gmap.
From Stdlib Require Import ZArith.
From S2P Require Import Prelude Async Domain Json JsonCodec ApiClient AuthService.

Module AuthStore.

Import AuthService.

Record state := mkState {
  user : json;
  loading : bool;
  error : option string;
  isAuthenticated : bool
}.

Definition initial_state : state :=
  {| user := JNull; loading := false; error := None; isAuthenticated := false |}.

Definition set_user v s :=
  {| user := v; loading := loading s; error := error s; isAuthenticated := isAuthenticated s |}.
Definition set_loading v s :=
  {| user := user s; loading := v; error := error s; isAuthenticated := isAuthenticated s |}.
Definition set_error v s :=
  {| user := user s; loading := loading s; error := v; isAuthenticated := isAuthenticated s |}.
Definition set_isAuthenticated v s :=
  {| user := user s; loading := loading s; error := error s; isAuthenticated := v |}.

(** The store and the browser's [localStorage]. *)
Record env := mkEnv { store : state; ls : LocalStorage.t }.

Definition upd_store (f : state -> state) (e : env) : env :=
  {| store := f (store e); ls := ls e |}.
Definition upd_ls (f : LocalStorage.t -> LocalStorage.t) (e : env) : env :=
  {| store := store e; ls := f (ls e) |}.

Abbreviation user_key := LocalStorage.user_key.

(** [if (user && !user.userId && user.username) user.userId = user.username]. *)
Definition fix_userId (user : json) : json :=
  if truthy user && negb (truthy (get user "userId")) then
    match truthy_val (get user "username") with
    | Some name => set_prop user "userId" name
    | None => user
    end
  else user.

Definition setUser (user : json) (e : env) : env :=
  let user := fix_userId user in
  {| store := set_isAuthenticated (truthy user) (set_user user (store e));
     ls := if truthy user
           then LocalStorage.setItem user_key (stringify user) (ls e)
           else LocalStorage.removeItem user_key (ls e) |}.

Definition initializeAuth (e : env) : env :=
  match LocalStorage.getItem user_key (ls e) with
  | Some userJson =>
      if truthy userJson then
        match JSON_parse userJson with
        | Some user => setUser user e
        | None => upd_ls (LocalStorage.removeItem user_key) e
        end
      else e
  | None => e
  end.

Abbreviation P := (@prog env call reply).

(** The user object [login]/[register] build from the response. *)
Definition mk_user (username : string) (token userId : json) : json :=
  JObj [("username", JStr username); ("token", token); ("userId", userId)].

(** The common body of [login] and [register]: the service to call and
    the default error message differ. *)
Definition authenticate (service : string -> string -> P AuthResponse)
    (fail_msg : string) (username password : string) : P bool :=
  modify (upd_store (set_loading true)) ;;
  modify (upd_store (set_error None)) ;;
  response ← service username password;
  b ← (match success response, truthy_val (token response) with
       | true, Some t =>
           modify (setUser (mk_user (AuthService.username response) t
                                    (AuthService.userId response))) ;;
           mret true
       | _, _ =>
           modify (upd_store (set_error (message response ||d Some fail_msg))) ;;
           mret false
       end);
  modify (upd_store (set_loading false)) ;;
  mret b.

Definition login (username password : string) : P bool :=
  authenticate AuthService.login msg_login_failed username password.

Definition register (username password : string) : P bool :=
  authenticate AuthService.register msg_register_failed username password.

Definition logout (e : env) : env := setUser JNull e.

(** The actions components invoke; [setUser] is called only by the
    store's own actions. *)
Inductive action :=
| InitializeAuth
| Login (username password : string)
| Register (username password : string)
| Logout.

Definition denote (a : action) : P unit :=
  match a with
  | InitializeAuth => modify initializeAuth
  | Login u p => login u p ;; mret tt
  | Register u p => register u p ;; mret tt
  | Logout => modify logout
  end.

(** ** Getters *)

Definition getIsAuthenticated (s : state) : bool := isAuthenticated s.
Definition getUser (s : state) : json := user s.
(** [this.user?.token || null]; [None] is [null]. *)
Definition getToken (s : state) : option json := truthy_val (get (user s) "token").
Definition getUsername (s : state) : option json := truthy_val (get (user s) "username").

(** ** [login] and [register] in direct style

    The store after the call, from the store before it and the reply of
    the one request; [run_login] and [run_register] show that the
    programs compute it. *)
Definition authenticate_spec (ok_msg fail_msg username : string) (r : http string)
    (e : env) : bool * env :=
  let response := respond ok_msg fail_msg username r in
  let e1 := upd_store (set_error None) (upd_store (set_loading true) e) in
  match success response, truthy_val (token response) with
  | true, Some t =>
      (true, upd_store (set_loading false)
               (setUser (mk_user (AuthService.username response) t
                                 (AuthService.userId response)) e1))
  | _, _ =>
      (false, upd_store (set_loading false)
                (upd_store (set_error (message response ||d Some fail_msg)) e1))
  end.

(** ** The session invariant *)

(** [isAuthenticated] is [!!user]; [user] is a well-formed value that
    [setUser] would not change; a truthy [user] is what [localStorage]
    holds. *)
Definition session_ok (e : env) : Prop :=
  isAuthenticated (store e) = truthy (user (store e)) /\
  wf (user (store e)) = true /\
  fix_userId (user (store e)) = user (store e) /\
  (truthy (user (store e)) = true -> ls e !! user_key = Some (stringify (user (store e)))).

(** The invariant of the event loop: the session, and no timer (the auth
    store sets none). *)
Definition auth_inv (w : world env) : Prop := session_ok (w_st w) /\ w_timers w = [].

(** * Lemmas *)

Lemma truthy_fix_userId u : truthy (fix_userId u) = truthy u.
Proof. unfold fix_userId. repeat case_match; auto using truthy_set_prop. Qed.

Lemma fix_userId_wf u : wf u = true -> wf (fix_userId u) = true.
Proof.
  intros Hu. unfold fix_userId. repeat case_match; truthy_vals; auto.
  apply wf_set_prop; eauto using get_wf.
Qed.

Lemma fix_userId_idem u : fix_userId (fix_userId u) = fix_userId u.
Proof.
  destruct u as [| | | | |fs];
    try (unfold fix_userId; simpl; repeat case_match; reflexivity).
  unfold fix_userId at 2. cbn [get truthy truthy_json andb].
  destruct (truthy (obj_get "userId" fs)) eqn:Hu; cbn [negb].
  - unfold fix_userId. cbn [get truthy truthy_json andb]. rewrite Hu. reflexivity.
  - destruct (truthy_val (obj_get "username" fs)) as [name|] eqn:Hn.
    + apply truthy_val_Some in Hn as [Hn Htn].
      unfold fix_userId. cbn [get set_prop truthy truthy_json andb].
      rewrite obj_get_obj_set, Hu, Hn. change (truthy (Some name)) with (truthy name).
      unfold truthy_val. rewrite Htn. reflexivity.
    + unfold fix_userId. cbn [get truthy truthy_json andb]. rewrite Hu, Hn. reflexivity.
Qed.

Lemma setUser_ok u e : wf u = true -> session_ok (setUser u e).
Proof.
  intros Hu. unfold session_ok, setUser; simpl.
  split_and!; [reflexivity|by apply fix_userId_wf|apply fix_userId_idem|].
  intros ->. apply lookup_insert_eq.
Qed.

Lemma setUser_store u e :
  store (setUser u e) = set_isAuthenticated (truthy (fix_userId u)) (set_user (fix_userId u) (store e)).
Proof. reflexivity. Qed.

Lemma upd_store_ok f e :
  (forall s, user (f s) = user s /\ isAuthenticated (f s) = isAuthenticated s) ->
  session_ok e -> session_ok (upd_store f e).
Proof.
  intros Hf. unfold session_ok, upd_store; simpl. destruct (Hf (store e)) as [-> ->]. done.
Qed.

Lemma initializeAuth_ok e : session_ok e -> session_ok (initializeAuth e).
Proof.
  intros He. unfold initializeAuth, LocalStorage.getItem.
  destruct (ls e !! user_key) as [userJson|] eqn:Hl; [|exact He].
  destruct (truthy userJson); [|exact He].
  destruct (JSON_parse userJson) as [u|] eqn:Hp; [eauto using setUser_ok, JSON_parse_wf|].
  destruct He as (Ha & Hw & Hf & Hs). unfold session_ok, upd_ls; simpl. split_and!; auto.
  intros Ht. exfalso. rewrite (Hs Ht) in Hl. injection Hl as <-.
  rewrite JSON_parse_stringify in Hp by exact Hw. discriminate.
Qed.

Lemma initializeAuth_idem e :
  session_ok e -> truthy (user (store e)) = true -> initializeAuth e = e.
Proof.
  intros (Ha & Hw & Hf & Hs) Ht. unfold initializeAuth, LocalStorage.getItem.
  rewrite (Hs Ht). destruct (stringify (user (store e))) as [|c t] eqn:Hstr.
  - destruct (stringify_head (user (store e))) as (c & t & Hh & _). congruence.
  - cbn [truthy truthy_string String.eqb negb]. rewrite <- Hstr, JSON_parse_stringify by exact Hw.
    unfold setUser. rewrite Hf, <- Ha. destruct e as [[u l er ia] ls0]; simpl in *.
    subst ia. rewrite Ht. unfold LocalStorage.setItem. rewrite <- Hstr in Hs.
    rewrite insert_id by exact (Hs Ht). reflexivity.
Qed.

Lemma auth_inv_upd f w :
  (forall e, session_ok e -> session_ok (f e)) -> auth_inv w -> auth_inv (upd_st f w).
Proof. intros Hf [He Ht]. split; [apply Hf, He|exact Ht]. Qed.

Lemma mk_user_wf name t uid : wf t = true -> wf uid = true -> wf (mk_user name t uid) = true.
Proof. intros Ht Hu. simpl. rewrite Ht, Hu. reflexivity. Qed.

Lemma run_login ans u p w :
  run reply ans (login u p) w =
  let r := authenticate_spec msg_login_ok msg_login_failed u
             (ans (Post login_url (payload u p))) (w_st w) in
  (r.1, upd_st (fun _ => r.2) w, [Post login_url (payload u p)]).
Proof.
  unfold login, authenticate, AuthService.login, authenticate_spec. simpl.
  destruct (success (respond msg_login_ok msg_login_failed u (ans (Post login_url (payload u p))))),
    (truthy_val (token (respond msg_login_ok msg_login_failed u (ans (Post login_url (payload u p))))));
    reflexivity.
Qed.

Lemma run_register ans u p w :
  run reply ans (register u p) w =
  let r := authenticate_spec msg_register_ok msg_register_failed u
             (ans (Post register_url (payload u p))) (w_st w) in
  (r.1, upd_st (fun _ => r.2) w, [Post register_url (payload u p)]).
Proof.
  unfold register, authenticate, AuthService.register, authenticate_spec. simpl.
  destruct (success (respond msg_register_ok msg_register_failed u (ans (Post register_url (payload u p))))),
    (truthy_val (token (respond msg_register_ok msg_register_failed u (ans (Post register_url (payload u p))))));
    reflexivity.
Qed.

Lemma auth_fire w t cb : auth_inv w -> In (t, cb) (w_timers w) -> auth_inv (fire t cb w).
Proof. intros [_ Ht] Hin. rewrite Ht in Hin. destruct Hin. Qed.

Lemma session_ok_initial l : session_ok {| store := initial_state; ls := l |}.
Proof. split_and!; try reflexivity. discriminate. Qed.

Lemma get_fix_userId u k : k <> "userId" -> get (fix_userId u) k = get u k.
Proof. intros Hk. unfold fix_userId. repeat case_match; auto using get_set_prop_ne. Qed.

(** A reload over the storage [setUser] wrote restores the store that
    [setUser] built from a fresh one. *)
Lemma initializeAuth_reload u e :
  wf u = true -> truthy u = true ->
  initializeAuth {| store := initial_state; ls := ls (setUser u e) |}
  = {| store := store (setUser u {| store := initial_state; ls := ls e |});
       ls := ls (setUser u e) |}.
Proof.
  intros Hw Ht. pose proof (fix_userId_wf u Hw) as Hfw.
  assert (Hft : truthy (fix_userId u) = true) by (rewrite truthy_fix_userId; exact Ht).
  unfold initializeAuth, LocalStorage.getItem, setUser; cbn [ls store].
  rewrite Hft. unfold LocalStorage.setItem. rewrite lookup_insert_eq.
  destruct (stringify_head (fix_userId u)) as (c & t & Hs & _).
  rewrite Hs; cbn [truthy truthy_string String.eqb negb]. rewrite <- Hs.
  rewrite JSON_parse_stringify by exact Hfw. unfold setUser; cbn [ls store].
  rewrite fix_userId_idem, Hft, insert_insert. reflexivity.
Qed.

(** What a successful [login] leaves: the session of the response. *)
Lemma login_success ans u p w :
  result reply ans (login u p) w = true ->
  let resp := respond msg_login_ok msg_login_failed u (ans (Post login_url (payload u p))) in
  exists t, success resp = true /\ truthy_val (token resp) = Some t /\
    w_st (final reply ans (login u p) w)
    = upd_store (set_loading false)
        (setUser (mk_user (AuthService.username resp) t (AuthService.userId resp))
           (upd_store (set_error None) (upd_store (set_loading true) (w_st w)))).
Proof.
  unfold result, final. rewrite run_login. cbn -[authenticate_spec].
  unfold authenticate_spec; cbv zeta.
  destruct (success _) eqn:Hs; [|discriminate].
  destruct (truthy_val (token _)) as [t|] eqn:Ht; [|discriminate].
  intros _. exists t. split_and!; reflexivity.
Qed.

(** A user object with a truthy [userId] is left as it is by [setUser]. *)
Lemma fix_userId_mk_user name t uid :
  truthy uid = true -> fix_userId (mk_user name t uid) = mk_user name t uid.
Proof.
  intros Hu. unfold fix_userId. change (get (mk_user name t uid) "userId") with (Some uid).
  change (truthy (Some uid)) with (truthy uid). rewrite Hu, andb_false_r. reflexivity.
Qed.

(** The stored session is the store's user: the interceptor's header is
    [Bearer] and the store's token. *)
Lemma session_authHeader e :
  session_ok e -> truthy (user (store e)) = true ->
  ApiClient.authHeader (ls e)
  = option_map (fun t => "Bearer " +:+ to_js_string t) (getToken (store e)).
Proof.
  intros (Ha & Hw & Hf & Hs) Ht. unfold ApiClient.authHeader, LocalStorage.getItem.
  rewrite (Hs Ht). destruct (stringify_head (user (store e))) as (c & t & Hst & _).
  rewrite Hst; cbn [truthy truthy_string String.eqb negb]. rewrite <- Hst.
  rewrite JSON_parse_stringify by exact Hw. rewrite Ht. unfold getToken.
  destruct (truthy_val _); reflexivity.
Qed.

End AuthStore.
