(* ===== verification/AuthProps.v ===== *)
(** * AuthProps: properties of the auth service, the auth store and the
    Bearer header

    The [userId] normalization of [AuthService.extractUserId] on each
    shape the code accepts, including the [Object.keys] order that picks
    the key of a multi-key object; the session invariant of the auth store under the
    event loop; the round trip of a session through [localStorage]
    ([login], reload, [initializeAuth]); the header the [ApiClient]
    interceptor derives from the stored session, and the headers of every
    request after [setUser] and [logout]; and the three behaviours where
    the code departs from the session state machine of the spec.  The
    properties that decode a login reply assume a body the model's
    [JSON.parse] reads (see [Json] for the values it has). *)

From stdpp Require Import base list strings gmap.
From Stdlib Require Import ZArith.
From S2P Require Import Prelude Async Domain Json JsonCodec ApiClient AuthService AuthStore.

Import AuthService AuthStore.

(** ** Example inputs *)

(** A backend answering every auth request with [body]. *)
Definition ans_body (body : string) : forall r : call, reply r := fun _ => Ok body.

Definition body_ok : string :=
  stringify (JObj [("token", JStr "t0k"); ("expiration", JStr "2030");
                   ("userId", JObj [("id", JStr "u-42")])]).
Definition body_no_token : string := stringify (JObj [("expiration", JStr "2030")]).

(** A [userId] object whose text lists [name] before the index key ["7"]. *)
Definition body_keys : string :=
  stringify (JObj [("token", JStr "t0k");
                   ("userId", JObj [("name", JStr "x"); ("7", JStr "y")])]).

Definition ans_reject : forall r : call, reply r := fun _ => Fail (Some 401%Z) None.

Definition w_fresh : world env := mkWorld {| store := initial_state; ls := ∅ |} [] 0.

(** The world after a successful login of [bob]. *)
Definition w_bob : world env := final reply (ans_body body_ok) (login "bob" "pw") w_fresh.

(** ** The [userId] normalization *)

(** C18: a truthy string or number in [response.data.userId] is the user id,
    as it is. *)
Theorem extractUserId_scalar u data v :
  get data "userId" = Some v -> truthy v = true ->
  typeof v = "string" \/ typeof v = "number" ->
  extractUserId u data = v.
Proof.
  intros Hg Ht Hty. unfold extractUserId. rewrite Hg. simpl. rewrite Ht.
  destruct v; destruct Hty as [Hty|Hty]; simpl in *; congruence.
Qed.

Lemma extractUserId_scalar_witness :
  get (JObj [("userId", JNum 7)]) "userId" = Some (JNum 7) /\ truthy (JNum 7) = true /\
  (typeof (JNum 7) = "string" \/ typeof (JNum 7) = "number") /\
  extractUserId "bob" (JObj [("userId", JNum 7)]) = JNum 7.
Proof.
  assert (H1 : get (JObj [("userId", JNum 7)]) "userId" = Some (JNum 7)) by reflexivity.
  assert (H2 : truthy (JNum 7) = true) by reflexivity.
  assert (H3 : typeof (JNum 7) = "string" \/ typeof (JNum 7) = "number") by (right; reflexivity).
  split; [exact H1|]. split; [exact H2|]. split; [exact H3|].
  exact (extractUserId_scalar "bob" _ _ H1 H2 H3).
Defined.

(** C19: an object [userId] with a truthy [id] gives that [id]. *)
Theorem extractUserId_object_id u data uid id :
  get data "userId" = Some uid -> truthy uid = true -> typeof uid = "object" ->
  get uid "id" = Some id -> truthy id = true ->
  extractUserId u data = id.
Proof.
  intros Hg Ht Hty Hid Hti. unfold extractUserId. rewrite Hg. simpl. rewrite Ht, Hty.
  simpl. rewrite Hid. simpl. rewrite Hti. reflexivity.
Qed.

Lemma extractUserId_object_id_witness :
  extractUserId "bob" (axios_data body_ok) = JStr "u-42".
Proof.
  exact (extractUserId_object_id "bob" (axios_data body_ok) (JObj [("id", JStr "u-42")])
           (JStr "u-42") eq_refl eq_refl eq_refl eq_refl eq_refl).
Defined.

(** C20: a successful [login] with a non-empty username leaves a session
    ready for the comment store: a token, and a truthy [userId] that is the
    id extracted from the response. *)
Theorem login_session_ready ans u p w :
  u <> "" -> result reply ans (login u p) w = true ->
  exists t uid body,
    ans (Post login_url (payload u p)) = Ok body /\
    uid = extractUserId u (axios_data body) /\ truthy uid = true /\
    getToken (store (w_st (final reply ans (login u p) w))) = Some t /\
    truthy_val (get (user (store (w_st (final reply ans (login u p) w)))) "userId") = Some uid.
Proof.
  intros Hu Hr. destruct (login_success ans u p w Hr) as (t & Hs & Ht & ->).
  destruct (respond_success _ _ _ _ Hs) as (body & Hb & Hn & Hun & Hid).
  pose proof (extractUserId_truthy u (axios_data body) Hu) as Huid.
  exists t, (extractUserId u (axios_data body)), body. split_and!; [exact Hb|reflexivity|exact Huid| |].
  - unfold setUser, getToken; cbn [store upd_store user]. rewrite Hid, fix_userId_mk_user by exact Huid.
    apply truthy_val_Some in Ht as [Ht Htt]. cbn. unfold truthy_val. rewrite Htt. reflexivity.
  - unfold setUser; cbn [store upd_store user]. rewrite Hid, fix_userId_mk_user by exact Huid.
    cbn. unfold truthy_val. rewrite Huid. reflexivity.
Qed.

Lemma login_session_ready_witness :
  "bob" <> "" /\ result reply (ans_body body_ok) (login "bob" "pw") w_fresh = true /\
  exists t uid body,
    ans_body body_ok (Post login_url (payload "bob" "pw")) = Ok body /\
    uid = extractUserId "bob" (axios_data body) /\ truthy uid = true /\
    getToken (store (w_st w_bob)) = Some t /\
    truthy_val (get (user (store (w_st w_bob))) "userId") = Some uid.
Proof.
  assert (H1 : "bob" <> "") by discriminate.
  assert (H2 : result reply (ans_body body_ok) (login "bob" "pw") w_fresh = true)
    by (vm_compute; reflexivity).
  split; [exact H1|]. split; [exact H2|].
  exact (login_session_ready _ _ _ _ H1 H2).
Defined.

(** C21: for an object [userId] without a truthy [id], the id is the
    value under the first key of [Object.keys]: whatever order the keys
    have in the response text, an array-index key (such as ["7"]) comes
    first, the least index first, so its value is taken when it is truthy. *)
Theorem extractUserId_index_key_first u body data fs k n v :
  JSON_parse body = Some data -> get data "userId" = Some (JObj fs) ->
  truthy (get (JObj fs) "id") = false ->
  In (k, v) fs -> array_index k = Some n ->
  (forall k' n', In k' (map fst fs) -> k' <> k -> array_index k' = Some n' -> (n < n')%N) ->
  truthy v = true ->
  extractUserId u (axios_data body) = v.
Proof.
  intros Hp Hu Hid Hin Hk Hmin Hv.
  assert (Hwf : wf (JObj fs) = true) by (eapply get_wf, Hu; eapply JSON_parse_wf, Hp).
  apply andb_true_iff in Hwf as [Hc _].
  assert (Hhead : head (keys (JObj fs)) = Some k)
    by (apply (head_canonical_index k n); [exact Hc|exact (in_map fst fs (k, v) Hin)|exact Hk|exact Hmin]).
  assert (Hidv : truthy_val (get (JObj fs) "id") = None)
    by (destruct (get (JObj fs) "id") as [j|]; [unfold truthy_val;
        change (truthy (Some j)) with (truthy j) in Hid; rewrite Hid|]; reflexivity).
  assert (Hkt : truthy k = true) by (destruct k; [discriminate|reflexivity]).
  assert (Hg : truthy_val (get (JObj fs) k) = Some v)
    by (cbn [get]; rewrite (obj_get_canonical k v fs Hc Hin); unfold truthy_val; rewrite Hv; reflexivity).
  unfold axios_data, extractUserId. rewrite Hp, Hu.
  change (truthy_val (Some (JObj fs))) with (Some (JObj fs)). cbv beta iota.
  replace (typeof (JObj fs) === "object") with true by reflexivity.
  rewrite Hidv, Hhead, Hkt, Hg. reflexivity.
Qed.

Lemma extractUserId_index_key_first_witness :
  extractUserId "bob" (axios_data body_keys) = JStr "y".
Proof.
  apply (extractUserId_index_key_first "bob" body_keys
           (JObj [("token", JStr "t0k"); ("userId", JObj [("7", JStr "y"); ("name", JStr "x")])])
           [("7", JStr "y"); ("name", JStr "x")] "7" 7%N (JStr "y"));
    [vm_compute; reflexivity|reflexivity|reflexivity|left; reflexivity|reflexivity| |reflexivity].
  intros k' n' Hin Hne Ha. simpl in Hin. destruct Hin as [<-|[<-|[]]]; [congruence|discriminate].
Defined.

(** ** The session *)



(** One write of an auth action keeps [auth_inv]. *)
Ltac auth_step :=
  apply auth_inv_upd; [|assumption]; intros ? ?;
  first [ apply upd_store_ok; [intros ?; split; reflexivity|assumption]
        | apply initializeAuth_ok; assumption
        | apply setUser_ok;
          first [ reflexivity
                | truthy_vals; apply mk_user_wf;
                  [eapply respond_token_wf; eassumption | apply respond_userId_wf] ] ].

(** C22: from a page load (fresh store, any [localStorage]), whatever
    actions run and in whatever order the responses arrive,
    [isAuthenticated] is [!!user], the user is a well-formed value, and a
    truthy user is exactly what [localStorage['user']] holds. *)
Theorem session_invariant (l : LocalStorage.t) n c :
  star reply denote (mkWorld {| store := initial_state; ls := l |} [] n, []) c ->
  session_ok (w_st c.1).
Proof.
  intros Hs.
  assert (Hd : forall a, safe reply auth_inv (denote a)).
  { intros []; cbn [denote];
      unfold login, register, authenticate, AuthService.login, AuthService.register, logout;
      safe_steps auth_step. }
  destruct (reach_safe reply denote auth_inv Hd auth_fire _ c Hs)
    as [[Hok _] _]; [|exact Hok].
  split; [split; [apply session_ok_initial|reflexivity]|constructor].
Qed.

Lemma session_invariant_witness :
  star reply denote (w_fresh, []) (w_fresh, []) /\ session_ok (w_st w_fresh).
Proof.
  assert (Hs : star reply denote (w_fresh, []) (w_fresh, [])) by apply star_refl.
  split; [exact Hs|]. exact (session_invariant ∅ 0 (w_fresh, []) Hs).
Defined.

(** C23: a session written by a successful [login] survives a reload: a
    fresh store over the same [localStorage], hydrated by
    [initializeAuth], is the store [login] left. *)
Theorem login_reload_roundtrip ans u p w :
  result reply ans (login u p) w = true ->
  initializeAuth {| store := initial_state; ls := ls (w_st (final reply ans (login u p) w)) |}
  = w_st (final reply ans (login u p) w).
Proof.
  unfold result, final. rewrite run_login. cbn -[authenticate_spec].
  unfold authenticate_spec.
  destruct (success _) eqn:Hs; [|discriminate].
  destruct (truthy_val (token _)) as [t|] eqn:Ht; [|discriminate]. intros _. cbn [fst snd].
  unfold upd_store at 1. cbn [ls store].
  rewrite initializeAuth_reload; [reflexivity| |reflexivity].
  apply mk_user_wf; [|apply respond_userId_wf].
  apply truthy_val_Some in Ht as [Ht _]. eapply respond_token_wf, Ht.
Qed.

Lemma login_reload_roundtrip_witness :
  result reply (ans_body body_ok) (login "bob" "pw") w_fresh = true /\
  initializeAuth {| store := initial_state; ls := ls (w_st w_bob) |} = w_st w_bob.
Proof.
  assert (H : result reply (ans_body body_ok) (login "bob" "pw") w_fresh = true)
    by (vm_compute; reflexivity).
  split; [exact H|]. exact (login_reload_roundtrip _ _ _ _ H).
Defined.

(** C24: a 2xx login answer whose JSON body (one the model's
    [JSON.parse] reads, as [JSON.parse] reads it) is not [null] and has no
    truthy [token] makes [login] return [false] with the error
    ["Login successful"]: the service reports success, the store rejects
    the missing token, and shows the service's success message as its
    error. *)
Theorem login_without_token ans u p w body data :
  ans (Post login_url (payload u p)) = Ok body ->
  JSON_parse body = Some data -> data <> JNull ->
  truthy (get data "token") = false ->
  result reply ans (login u p) w = false /\
  error (store (w_st (final reply ans (login u p) w))) = Some msg_login_ok.
Proof.
  intros Ha Hp Hn Ht.
  assert (Hd : axios_data body = data) by (unfold axios_data; rewrite Hp; reflexivity).
  rewrite <- Hd in Hn, Ht. unfold result, final. rewrite run_login. cbn -[authenticate_spec].
  unfold authenticate_spec. rewrite Ha, (respond_ok _ _ _ _ Hn). cbn [success token message].
  unfold truthy_val. destruct (get (axios_data body) "token") as [j|];
    [change (truthy (Some j)) with (truthy j) in Ht; rewrite Ht|]; split; reflexivity.
Qed.

Lemma login_without_token_witness :
  JSON_parse body_no_token = Some (JObj [("expiration", JStr "2030")]) /\
  error (store (w_st (final reply (ans_body body_no_token) (login "bob" "pw") w_fresh)))
  = Some msg_login_ok.
Proof.
  assert (H1 : ans_body body_no_token (Post login_url (payload "bob" "pw")) = Ok body_no_token)
    by reflexivity.
  assert (H2 : JSON_parse body_no_token = Some (JObj [("expiration", JStr "2030")]))
    by (vm_compute; reflexivity).
  split; [exact H2|].
  exact (proj2 (login_without_token _ "bob" "pw" w_fresh _ _ H1 H2 ltac:(discriminate)
                  eq_refl)).
Defined.

(** C25: stored data that parses to a truthy value without a truthy
    [token] (such as [[]] or [5]) is not discarded: hydration marks the
    store authenticated, while it has no token and requests carry no
    [Authorization] header. *)
Theorem hydrate_without_token l s v :
  l !! user_key = Some s -> JSON_parse s = Some v -> truthy v = true ->
  truthy (get v "token") = false ->
  getIsAuthenticated (store (initializeAuth {| store := initial_state; ls := l |})) = true /\
  getToken (store (initializeAuth {| store := initial_state; ls := l |})) = None /\
  ApiClient.authHeader (ls (initializeAuth {| store := initial_state; ls := l |})) = None.
Proof.
  intros Hl Hp Hv Ht.
  assert (Hfw : wf (fix_userId v) = true) by (apply fix_userId_wf; eapply JSON_parse_wf, Hp).
  assert (Hft : truthy (fix_userId v) = true) by (rewrite truthy_fix_userId; exact Hv).
  assert (Htok : truthy_val (get (fix_userId v) "token") = None)
    by (rewrite get_fix_userId by discriminate; unfold truthy_val;
        destruct (get v "token") as [j|];
        [change (truthy (Some j)) with (truthy j) in Ht; rewrite Ht|]; reflexivity).
  assert (Hs : truthy s = true) by (destruct s; [discriminate|reflexivity]).
  unfold initializeAuth, LocalStorage.getItem; cbn [ls]. rewrite Hl, Hs, Hp.
  unfold setUser; cbn [ls store]. rewrite Hft. split_and!; [reflexivity|exact Htok|].
  unfold ApiClient.authHeader, LocalStorage.getItem, LocalStorage.setItem.
  rewrite lookup_insert_eq.
  destruct (stringify_head (fix_userId v)) as (c & t & Hst & _).
  rewrite Hst; cbn [truthy truthy_string String.eqb negb]. rewrite <- Hst.
  rewrite JSON_parse_stringify by exact Hfw. rewrite Hft, Htok. reflexivity.
Qed.

Lemma hydrate_without_token_witness :
  getIsAuthenticated (store (initializeAuth {| store := initial_state;
                                               ls := {[user_key := "[]"]} |})) = true.
Proof.
  assert (Hl : ({[user_key := "[]"]} : LocalStorage.t) !! user_key = Some "[]")
    by reflexivity.
  exact (proj1 (hydrate_without_token {[user_key := "[]"]} "[]" (JArr []) Hl
                  eq_refl eq_refl eq_refl)).
Defined.

(** C26: on an authenticated store, the header the [ApiClient] interceptor
    reads from [localStorage] is [Bearer] followed by the store's token,
    and there is none when the store has no token. *)
Theorem authHeader_session e :
  session_ok e -> truthy (user (store e)) = true ->
  ApiClient.authHeader (ls e)
  = option_map (fun t => "Bearer " +:+ to_js_string t) (getToken (store e)).
Proof. apply session_authHeader. Qed.

Lemma authHeader_session_witness :
  session_ok (w_st w_bob) /\ truthy (user (store (w_st w_bob))) = true /\
  ApiClient.authHeader (ls (w_st w_bob)) = Some "Bearer t0k".
Proof.
  assert (H1 : session_ok (w_st w_bob))
    by (vm_compute; split_and!; try reflexivity; intros _; reflexivity).
  assert (H2 : truthy (user (store (w_st w_bob))) = true) by (vm_compute; reflexivity).
  split; [exact H1|]. split; [exact H2|].
  rewrite (authHeader_session _ H1 H2). vm_compute. reflexivity.
Defined.

(** C27: [logout] leaves an anonymous store, erases the stored session and
    stops the Bearer header. *)
Theorem logout_clears e :
  getIsAuthenticated (store (logout e)) = false /\ getUser (store (logout e)) = JNull /\
  ls (logout e) !! user_key = None /\ ApiClient.authHeader (ls (logout e)) = None.
Proof.
  unfold logout, setUser; cbv zeta; cbn [ls store].
  replace (truthy (fix_userId JNull)) with false by reflexivity. cbv beta iota.
  unfold ApiClient.authHeader, LocalStorage.getItem, LocalStorage.removeItem.
  rewrite lookup_delete_eq. split_and!; reflexivity.
Qed.

(** C35: what the page sends after [setUser(u)]: every request through
    [ApiClient], whatever its method, URL, parameters and body, keeps them
    and the JSON content type, and carries [Authorization: Bearer <token>]
    exactly when [u] is truthy with a truthy [token], [token] being the
    one [u] has; after [setUser] of a falsy value (as [logout] does) it
    carries none. *)
Theorem request_headers_after_setUser {D} env u e m url params (data : option D) :
  wf u = true ->
  let r := ApiClient.dispatch (ls (setUser u e)) (ApiClient.build env m url params data) in
  ApiClient.header "Authorization" (ApiClient.r_headers r)
  = (if truthy u then option_map (fun t => "Bearer " +:+ to_js_string t) (truthy_val (get u "token"))
     else None) /\
  ApiClient.header "Content-Type" (ApiClient.r_headers r) = Some "application/json" /\
  ApiClient.r_method r = m /\ ApiClient.r_url r = url /\
  ApiClient.r_params r = params /\ ApiClient.r_data r = data.
Proof.
  intros Hw r. destruct (dispatch_build env (ls (setUser u e)) m url params data)
    as (H1 & H2 & H3 & H4 & H5 & H6). subst r.
  split_and!; [rewrite H1|exact H2|exact H3|exact H4|exact H5|exact H6].
  destruct (truthy u) eqn:Hu.
  - rewrite session_authHeader by
      (apply setUser_ok, Hw || (unfold setUser; cbn; rewrite truthy_fix_userId; exact Hu)).
    unfold getToken, setUser; cbn. rewrite get_fix_userId by discriminate. reflexivity.
  - unfold setUser; cbn [ls]. rewrite truthy_fix_userId, Hu.
    unfold ApiClient.authHeader, LocalStorage.getItem, LocalStorage.removeItem.
    rewrite lookup_delete_eq. reflexivity.
Qed.

Lemma request_headers_after_setUser_witness :
  wf (JObj [("username", JStr "bob"); ("token", JStr "t0k")]) = true /\
  ApiClient.header "Authorization"
    (ApiClient.r_headers (ApiClient.dispatch
       (ls (setUser (JObj [("username", JStr "bob"); ("token", JStr "t0k")]) (w_st w_fresh)))
       (ApiClient.build (D:=unit) None ApiClient.GET "EventApi" [] None)))
  = Some "Bearer t0k".
Proof.
  assert (H : wf (JObj [("username", JStr "bob"); ("token", JStr "t0k")]) = true) by reflexivity.
  split; [exact H|].
  exact (proj1 (request_headers_after_setUser None _ (w_st w_fresh) ApiClient.GET "EventApi" []
                  None H)).
Defined.

(** C28: a failed [login] on an authenticated store leaves the previous
    session in place (user, [isAuthenticated] and [localStorage]); the
    spec's state machine returns to [anonymous] on failure.  The answer is
    a rejection or a body the model's [JSON.parse] reads, so the failure is
    the one JavaScript sees (a rejection, a [null] body or no truthy
    [token]). *)
Theorem login_failure_keeps_session ans u p w :
  session_ok (w_st w) -> truthy (user (store (w_st w))) = true ->
  (forall body, ans (Post login_url (payload u p)) = Ok body -> JSON_parse body <> None) ->
  result reply ans (login u p) w = false ->
  getIsAuthenticated (store (w_st (final reply ans (login u p) w))) = true /\
  user (store (w_st (final reply ans (login u p) w))) = user (store (w_st w)) /\
  ls (w_st (final reply ans (login u p) w)) = ls (w_st w).
Proof.
  intros [Ha _] Ht _. unfold result, final. rewrite run_login. cbn -[authenticate_spec].
  unfold authenticate_spec; cbv zeta.
  repeat case_match; cbn [fst snd]; try discriminate;
    intros _; unfold getIsAuthenticated; cbn; rewrite Ha, Ht; split_and!; reflexivity.
Qed.

Lemma login_failure_keeps_session_witness :
  session_ok (w_st w_bob) /\ truthy (user (store (w_st w_bob))) = true /\
  result reply ans_reject (login "bob" "wrong") w_bob = false /\
  getIsAuthenticated (store (w_st (final reply ans_reject (login "bob" "wrong") w_bob))) = true.
Proof.
  assert (H1 : session_ok (w_st w_bob))
    by (vm_compute; split_and!; try reflexivity; intros _; reflexivity).
  assert (H2 : truthy (user (store (w_st w_bob))) = true) by (vm_compute; reflexivity).
  assert (H3 : result reply ans_reject (login "bob" "wrong") w_bob = false)
    by (vm_compute; reflexivity).
  split; [exact H1|]. split; [exact H2|]. split; [exact H3|].
  assert (H4 : forall body, ans_reject (Post login_url (payload "bob" "wrong")) = Ok body ->
                            JSON_parse body <> None) by (intros body Hb; discriminate Hb).
  exact (proj1 (login_failure_keeps_session _ _ _ _ H1 H2 H4 H3)).
Defined.
