(* ===== verification/CommentService.v ===== *)
(** * CommentService: src/api/commentService.ts and [CommentDto]

    [createComment] posts a [CommentDto] to [CommentApi] and resolves with
    [true], or [false] when the post rejects; [getCommentsByEventId] gets
    [CommentApi] with the query [eventId] and resolves with the array, or
    [[]] when the body is not an array or the call rejects.  Both go
    through [ApiClient], whose interceptor reads the Bearer header from
    [localStorage] when the request is sent: the programs read the store
    for it ([storage] gives the [localStorage] of the store's world) and
    the request carries it.

    [CommentDto] is the record of src/types/index.ts; its [userId] and
    [userName] are typed [string] but hold whatever the auth store has
    ([json]). *)

From stdpp Require Import base list strings gmap.
From Stdlib Require Import ZArith.
From S2P Require Import Prelude Async Domain Json ApiClient.

Module CommentDto.
Record t := mk {
  commentId : Z;
  text : string;
  dateCreated : string;
  userId : json;
  userName : json;
  userEmail : string;
  eventId : Z;
  eventName : string;
  eventDescription : string
}.
End CommentDto.

Module CommentService.

Definition COMMENTS : string := "CommentApi".

(** The requests, with the [Authorization] header the interceptor adds. *)
Inductive call :=
| PostComment (authorization : option string) (comment : CommentDto.t)
| GetComments (authorization : option string) (eventId : Z).

Definition reply (c : call) : Type :=
  match c with
  | PostComment _ _ => http unit
  | GetComments _ _ => http (body CommentDto.t)
  end.

Section Programs.
Context {St : Type} (storage : St -> LocalStorage.t).

Definition createComment (comment : CommentDto.t) : @prog St call reply bool :=
  s ← Async.get;
  r ← await (PostComment (ApiClient.authHeader (storage s)) comment);
  mret (match r with Ok _ => true | Fail _ _ => false end).

Definition getCommentsByEventId (eventId : Z) : @prog St call reply (list CommentDto.t) :=
  s ← Async.get;
  r ← await (GetComments (ApiClient.authHeader (storage s)) eventId);
  mret (match r with Ok (Arr xs) => xs | Ok NotArr => [] | Fail _ _ => [] end).
End Programs.

End CommentService.
