(* ===== verification/CommentStore.v ===== *)
(** * CommentStore: src/stores/commentStore.ts

    The Pinia store ['comments'].  It reads the auth store (the user's
    [userId] and [username]) and, through the [ApiClient] interceptor,
    [localStorage]; it writes neither.  What it reads is the interface
    [AuthView]: [av_user] is [authStore.user], [av_storage] the
    [localStorage] the interceptor reads.  The store's programs run over
    [world A] for any [A] with an [AuthView], the comment state [cs]
    beside the auth side [auth]; [AuthStore.env] is an instance
    ([authStore_view]), which the integration properties use.

    [getUserId] throws when [authStore.user?.userId] is falsy: its result
    is the thrown message ([inl]) or the id ([inr]).  The [catch] of
    [addComment] turns the message into [error]; the other statements of
    its [try] cannot throw (the service never rejects), nor can those of
    [getCommentsByEventId], whose [catch] is unreachable.
    [new Date().toISOString()] is the argument [now] of [addComment]. *)

From stdpp Require Import base list strings gmap.
From Stdlib Require Import ZArith.
From S2P Require Import Prelude Async Domain Json ApiClient AuthStore CommentService.

(** What the comment store reads of the session. *)
Class AuthView (A : Type) := {
  av_user : A -> json;
  av_storage : A -> LocalStorage.t
}.

#[export] Instance authStore_view : AuthView AuthStore.env := {|
  av_user e := AuthStore.user (AuthStore.store e);
  av_storage e := AuthStore.ls e
|}.

Module CommentStore.

Import CommentService.

Record state := mkState {
  comments : list CommentDto.t;
  loading : bool;
  error : option string
}.

Definition initial_state : state := {| comments := []; loading := false; error := None |}.

Definition set_comments v s := {| comments := v; loading := loading s; error := error s |}.
Definition set_loading v s := {| comments := comments s; loading := v; error := error s |}.
Definition set_error v s := {| comments := comments s; loading := loading s; error := v |}.

Definition msg_no_userId : string := "User ID not available. Please log in again.".
Definition msg_not_logged_in : string := "You must be logged in to leave a comment".
Definition msg_add_failed : string := "Failed to add comment".

Section Store.
Context {A : Type} `{AuthView A}.

(** The auth side and the comment store. *)
Record world := mkWorld { auth : A; cs : state }.

Definition upd_cs (f : state -> state) (w : world) : world :=
  {| auth := auth w; cs := f (cs w) |}.

Abbreviation P := (@prog world call reply).

Definition storage (w : world) : LocalStorage.t := av_storage (auth w).

(** [authStore.user?.userId], or the message of the [Error] thrown. *)
Definition getUserId (a : A) : string + json :=
  match truthy_val (get (av_user a) "userId") with
  | Some userId => inr userId
  | None => inl msg_no_userId
  end.

Definition getCommentsByEventId (eventId : Z) : P (list CommentDto.t) :=
  modify (upd_cs (set_loading true)) ;;
  modify (upd_cs (set_error None)) ;;
  comments ← CommentService.getCommentsByEventId storage eventId;
  modify (upd_cs (set_comments comments)) ;;
  modify (upd_cs (set_loading false)) ;;
  mret comments.

(** The comment [addComment] posts. *)
Definition mk_comment (a : A) (userId : json) (eventId : Z)
    (text eventName eventDescription now : string) : CommentDto.t :=
  {| CommentDto.commentId := 0; CommentDto.text := text;
     CommentDto.dateCreated := now; CommentDto.userId := userId;
     CommentDto.userName :=
       match truthy_val (get (av_user a) "username") with
       | Some name => name
       | None => userId
       end;
     CommentDto.userEmail := ""; CommentDto.eventId := eventId;
     CommentDto.eventName := eventName;
     CommentDto.eventDescription := eventDescription |}.

Definition addComment (eventId : Z) (text eventName eventDescription now : string)
    : P bool :=
  modify (upd_cs (set_loading true)) ;;
  modify (upd_cs (set_error None)) ;;
  w ← Async.get;
  b ← (match getUserId (auth w) with
       | inl message =>
           modify (upd_cs (set_error (Some (message ||d msg_add_failed)))) ;;
           mret false
       | inr userId =>
           if negb (truthy userId) then
             modify (upd_cs (set_error (Some msg_not_logged_in))) ;;
             mret false
           else
             success ← createComment storage
                         (mk_comment (auth w) userId eventId text eventName
                            eventDescription now);
             (if (success : bool) then getCommentsByEventId eventId ;; mret tt else mret tt) ;;
             mret success
       end);
  modify (upd_cs (set_loading false)) ;;
  mret b.

Definition clearComments (s : state) : state := set_error None (set_comments [] s).

(** The actions components invoke. *)
Inductive action :=
| AddComment (eventId : Z) (text eventName eventDescription now : string)
| GetCommentsByEventId (eventId : Z)
| ClearComments.

Definition denote (a : action) : P unit :=
  match a with
  | AddComment id t n d now => addComment id t n d now ;; mret tt
  | GetCommentsByEventId id => getCommentsByEventId id ;; mret tt
  | ClearComments => modify (upd_cs clearComments)
  end.

(** ** Getters *)
Definition getComments (s : state) : list CommentDto.t := comments s.
Definition isLoading (s : state) : bool := loading s.
Definition getError (s : state) : option string := error s.
End Store.

Arguments world A : clear implicits.

(** * Lemmas *)

Section Lemmas.
Context {A : Type} `{AuthView A}.

(** With a truthy [userId], the first request of [addComment] is the post
    of the comment, with the header read from [localStorage]. *)
Lemma addComment_posts ans (w : Async.world (world A)) id t n d now uid :
  truthy_val (get (av_user (auth (w_st w))) "userId") = Some uid ->
  head (calls reply ans (addComment id t n d now) w)
  = Some (PostComment (ApiClient.authHeader (av_storage (auth (w_st w))))
                      (mk_comment (auth (w_st w)) uid id t n d now)).
Proof.
  intros Hu. pose proof Hu as [_ Ht]%truthy_val_Some.
  unfold calls, addComment, getUserId. simpl. rewrite Hu. simpl. rewrite Ht. simpl.
  destruct_answers ans; reflexivity.
Qed.

End Lemmas.

End CommentStore.
