(* ===== verification/CommentProps.v ===== *)
(** * CommentProps: properties of the comment store

    Proved against the interface [AuthView], for any auth side: the
    fail-fast of [addComment] without a user id (no request), the dead
    ["You must be logged in"] branch, the reload after a successful post.
    With the auth store as the auth side: a comment posted after a
    successful [login] carries the session's Bearer token and user id; and
    two overlapping [getCommentsByEventId] calls can leave the comments of
    the event requested first; the posted [userId] is the value the login
    response gave, a number when the backend sends one.  [addComment] is
    equivalent, in both semantics, to [addComment_ref], the same action
    without its dead branch. *)

From stdpp Require Import base list strings gmap.
From Stdlib Require Import ZArith.
From S2P Require Import Prelude Async Domain Json JsonCodec ApiClient AuthService AuthStore AuthProps CommentService CommentStore.

Import CommentService CommentStore.

(** ** Example inputs *)

Definition comment_of (eventId : Z) : CommentDto.t :=
  {| CommentDto.commentId := eventId; CommentDto.text := "hi"; CommentDto.dateCreated := "";
     CommentDto.userId := JStr "u"; CommentDto.userName := JStr "u";
     CommentDto.userEmail := ""; CommentDto.eventId := eventId;
     CommentDto.eventName := ""; CommentDto.eventDescription := "" |}.

(** A backend that accepts posts and lists one comment per event. *)
Definition ans_comments (c : call) : reply c :=
  match c as c0 return reply c0 with
  | PostComment _ _ => Ok tt
  | GetComments _ id => Ok (Arr [comment_of id])
  end.

Definition env_anon : AuthStore.env :=
  {| AuthStore.store := AuthStore.initial_state; AuthStore.ls := ∅ |}.

Definition w_anon : Async.world (world AuthStore.env) :=
  Async.mkWorld {| auth := env_anon; cs := initial_state |} [] 0.

(** The comment store beside the session [login] left. *)
Definition w_bob_cs : Async.world (world AuthStore.env) :=
  Async.mkWorld {| auth := w_st w_bob; cs := initial_state |} [] 0.

(** A login answer whose [userId] is a number, as a backend with integer
    user ids sends it. *)
Definition body_num : string :=
  stringify (JObj [("token", JStr "t0k"); ("userId", JNum 7)]).

(** [addComment] without the branch [if (!userId)] that follows
    [getUserId()]: the reference the code is equivalent to. *)
Definition addComment_ref {A} `{AuthView A} (eventId : Z)
    (text eventName eventDescription now : string) : @prog (world A) call reply bool :=
  modify (upd_cs (set_loading true)) ;;
  modify (upd_cs (set_error None)) ;;
  w ← Async.get;
  b ← (match getUserId (auth w) with
       | inl message =>
           modify (upd_cs (set_error (Some (message ||d msg_add_failed)))) ;;
           mret false
       | inr userId =>
           success ← createComment storage
                       (mk_comment (auth w) userId eventId text eventName
                          eventDescription now);
           (if (success : bool) then getCommentsByEventId eventId ;; mret tt else mret tt) ;;
           mret success
       end);
  modify (upd_cs (set_loading false)) ;;
  mret b.

(** Comments of event 1 requested, then of event 2; the answer for event
    2 arrives first. *)
Definition comments_race_schedule : list (@sched_event action) :=
  [Spawn (GetCommentsByEventId 1%Z); Spawn (GetCommentsByEventId 2%Z); Resolve 1; Resolve 0].

Definition cfg_anon : config (St:=world AuthStore.env) reply := (w_anon, []).

(** ** Fail-fast and the reload *)

Section Generic.
Context {A : Type} `{AuthView A}.

(** C29: without a truthy [userId] in the auth store, [addComment] returns
    [false] without contacting the backend, with the error "User ID not
    available. Please log in again." and [loading] reset. *)
Theorem addComment_requires_userId ans (w : Async.world (world A)) id t n d now :
  truthy (get (av_user (auth (w_st w))) "userId") = false ->
  result reply ans (addComment id t n d now) w = false /\
  calls reply ans (addComment id t n d now) w = [] /\
  error (cs (w_st (final reply ans (addComment id t n d now) w))) = Some msg_no_userId /\
  loading (cs (w_st (final reply ans (addComment id t n d now) w))) = false.
Proof.
  intros Hu. unfold result, calls, final, addComment, getUserId. simpl.
  unfold truthy_val. destruct (get (av_user (auth (w_st w))) "userId") as [j|];
    [change (truthy (Some j)) with (truthy j) in Hu; rewrite Hu|]; split_and!; reflexivity.
Qed.

End Generic.

Lemma addComment_requires_userId_witness :
  truthy (get (av_user (auth (w_st w_anon))) "userId") = false /\
  calls reply ans_comments (addComment 1 "hi" "" "" "") w_anon = [].
Proof.
  assert (H : truthy (get (av_user (auth (w_st w_anon))) "userId") = false) by reflexivity.
  split; [exact H|]. exact (proj1 (proj2 (addComment_requires_userId ans_comments w_anon 1 "hi" "" "" "" H))).
Defined.

Section Generic2.
Context {A : Type} `{AuthView A}.

(** C30: the branch of [addComment] that sets "You must be logged in to
    leave a comment" is dead: [getUserId] throws before it on every falsy
    id, so [addComment] never leaves that error. *)
Theorem addComment_not_logged_in_unreachable ans (w : Async.world (world A)) id t n d now :
  error (cs (w_st (final reply ans (addComment id t n d now) w))) <> Some msg_not_logged_in.
Proof.
  unfold final, addComment, getUserId. simpl.
  destruct (truthy_val (get (av_user (auth (w_st w))) "userId")) as [uid|] eqn:Hu;
    simpl; [|discriminate].
  apply truthy_val_Some in Hu as [_ Ht]. rewrite Ht. simpl.
  destruct_answers ans; discriminate.
Qed.

(** C31: when the post succeeds, [addComment] reloads the comments of the
    event: it sends the post and then the get, both with the session's
    header, returns [true], and the store holds the list the backend
    returned. *)
Theorem addComment_success_reloads (ans : forall r : call, reply r)
    (w : Async.world (world A)) id t n d now uid :
  truthy_val (get (av_user (auth (w_st w))) "userId") = Some uid ->
  ans (PostComment (ApiClient.authHeader (av_storage (auth (w_st w))))
                   (mk_comment (auth (w_st w)) uid id t n d now)) = Ok tt ->
  calls reply ans (addComment id t n d now) w
  = [PostComment (ApiClient.authHeader (av_storage (auth (w_st w))))
                 (mk_comment (auth (w_st w)) uid id t n d now);
     GetComments (ApiClient.authHeader (av_storage (auth (w_st w)))) id] /\
  result reply ans (addComment id t n d now) w = true /\
  comments (cs (w_st (final reply ans (addComment id t n d now) w)))
  = match ans (GetComments (ApiClient.authHeader (av_storage (auth (w_st w)))) id) with
    | Ok (Arr xs) => xs
    | _ => []
    end.
Proof.
  intros Hu Hp. pose proof Hu as [_ Ht]%truthy_val_Some.
  unfold calls, result, final, addComment, getUserId. simpl. rewrite Hu. simpl. rewrite Ht. simpl.
  unfold storage; cbn [upd_cs auth]. rewrite Hp. simpl. destruct_answers ans; split_and!; reflexivity.
Qed.

(** C37: the branch [if (!userId)] after [getUserId()] is dead code:
    [addComment] behaves exactly as the same action without it, both run
    alone (same result, store and requests, whatever the backend answers)
    and in the event loop (the same first segment and the same pending
    continuation, hence the same behaviour under any interleaving). *)
Theorem addComment_equiv_ref (ans : forall r : call, reply r)
    (w : Async.world (world A)) id t n d now :
  run reply ans (addComment id t n d now) w = run reply ans (addComment_ref id t n d now) w /\
  exec reply (addComment id t n d now) w = exec reply (addComment_ref id t n d now) w.
Proof.
  unfold addComment, addComment_ref, getUserId.
  split; simpl; destruct (truthy_val (get (av_user (auth (w_st w))) "userId")) as [uid|] eqn:E;
    try reflexivity; apply truthy_val_Some in E as [_ Ht]; rewrite Ht; reflexivity.
Qed.

End Generic2.

Lemma addComment_success_reloads_witness :
  truthy_val (get (av_user (auth (w_st w_bob_cs))) "userId") = Some (JStr "u-42") /\
  result reply ans_comments (addComment 1 "hi" "" "" "") w_bob_cs = true /\
  comments (cs (w_st (final reply ans_comments (addComment 1 "hi" "" "" "") w_bob_cs)))
  = [comment_of 1].
Proof.
  assert (H1 : truthy_val (get (av_user (auth (w_st w_bob_cs))) "userId") = Some (JStr "u-42"))
    by (vm_compute; reflexivity).
  split; [exact H1|].
  destruct (addComment_success_reloads ans_comments w_bob_cs 1 "hi" "" "" "" (JStr "u-42")
              H1 eq_refl) as (_ & H2 & H3).
  split; [exact H2|]. rewrite H3. reflexivity.
Defined.

(** ** With the auth store *)

(** After a successful [login] with a non-empty username, the first
    request of [addComment] posts the comment with the session's token
    in the header and the id extracted from the login response. *)
Lemma login_then_post ans_auth u p w_auth (ans : forall r : call, reply r) id t n d now c0 :
  u <> "" ->
  result AuthService.reply ans_auth (AuthStore.login u p) w_auth = true ->
  exists tok body,
    ans_auth (AuthService.Post AuthService.login_url (AuthService.payload u p)) = Ok body /\
    AuthStore.getToken
      (AuthStore.store (w_st (final AuthService.reply ans_auth (AuthStore.login u p) w_auth)))
    = Some tok /\
    head (calls reply ans (addComment id t n d now)
            (Async.mkWorld
               {| auth := w_st (final AuthService.reply ans_auth (AuthStore.login u p) w_auth);
                  cs := c0 |} [] 0))
    = Some (PostComment (Some ("Bearer " +:+ to_js_string tok))
              (mk_comment (w_st (final AuthService.reply ans_auth (AuthStore.login u p) w_auth))
                 (AuthService.extractUserId u (AuthService.axios_data body)) id t n d now)).
Proof.
  intros Hu Hr.
  destruct (AuthStore.login_success ans_auth u p w_auth Hr) as (tok & Hs & Ht & He).
  set (e := w_st (final AuthService.reply ans_auth (AuthStore.login u p) w_auth)) in *.
  destruct (AuthService.respond_success _ _ _ _ Hs) as (body & Hb & Hn & Hun & Hid).
  set (uid := AuthService.extractUserId u (AuthService.axios_data body)).
  assert (Huid : truthy uid = true) by (apply AuthService.extractUserId_truthy, Hu).
  pose proof Ht as [Ht' Htt]%truthy_val_Some.
  assert (Hwf : wf (AuthStore.mk_user u tok uid) = true).
  { apply AuthStore.mk_user_wf; [eapply AuthService.respond_token_wf, Ht'|].
    subst uid. apply AuthService.extractUserId_wf, AuthService.axios_data_wf. }
  assert (Huser : AuthStore.user (AuthStore.store e) = AuthStore.mk_user u tok uid).
  { rewrite He. unfold AuthStore.setUser. cbn. rewrite Hun, Hid.
    apply AuthStore.fix_userId_mk_user, Huid. }
  assert (Hok : AuthStore.session_ok e).
  { rewrite He. apply AuthStore.upd_store_ok; [intros; split; reflexivity|].
    rewrite Hun, Hid. apply AuthStore.setUser_ok, Hwf. }
  assert (Htok : AuthStore.getToken (AuthStore.store e) = Some tok).
  { unfold AuthStore.getToken. rewrite Huser. simpl. unfold truthy_val. rewrite Htt. reflexivity. }
  exists tok, body. split_and!; [exact Hb|exact Htok|].
  rewrite (addComment_posts ans _ id t n d now uid).
  - cbn [w_st auth av_storage authStore_view].
    rewrite AuthStore.session_authHeader by (exact Hok || (rewrite Huser; reflexivity)).
    rewrite Htok. reflexivity.
  - cbn [w_st auth av_user authStore_view]. rewrite Huser. simpl.
    unfold truthy_val. rewrite Huid. reflexivity.
Qed.

(** C32: after a successful [login] with a non-empty username, a comment
    goes out: the first request of [addComment] is the post of the
    comment, with the session's truthy user id and the header [Bearer]
    and the session's token. *)
Theorem comment_after_login ans_auth u p w_auth (ans : forall r : call, reply r)
    id t n d now c0 :
  u <> "" ->
  result AuthService.reply ans_auth (AuthStore.login u p) w_auth = true ->
  exists tok uid,
    AuthStore.getToken
      (AuthStore.store (w_st (final AuthService.reply ans_auth (AuthStore.login u p) w_auth)))
    = Some tok /\ truthy uid = true /\
    head (calls reply ans (addComment id t n d now)
            (Async.mkWorld
               {| auth := w_st (final AuthService.reply ans_auth (AuthStore.login u p) w_auth);
                  cs := c0 |} [] 0))
    = Some (PostComment (Some ("Bearer " +:+ to_js_string tok))
              (mk_comment (w_st (final AuthService.reply ans_auth (AuthStore.login u p) w_auth))
                 uid id t n d now)).
Proof.
  intros Hu Hr.
  destruct (login_then_post ans_auth u p w_auth ans id t n d now c0 Hu Hr)
    as (tok & body & _ & Htok & Hpost).
  exists tok, (AuthService.extractUserId u (AuthService.axios_data body)).
  split_and!; [exact Htok|apply AuthService.extractUserId_truthy, Hu|exact Hpost].
Qed.

Lemma comment_after_login_witness :
  "bob" <> "" /\ result AuthService.reply (ans_body body_ok) (AuthStore.login "bob" "pw") w_fresh = true /\
  exists tok uid,
    AuthStore.getToken (AuthStore.store (w_st w_bob)) = Some tok /\ truthy uid = true /\
    head (calls reply ans_comments (addComment 1 "hi" "" "" "")
            (Async.mkWorld {| auth := w_st w_bob; cs := initial_state |} [] 0))
    = Some (PostComment (Some ("Bearer " +:+ to_js_string tok))
              (mk_comment (w_st w_bob) uid 1 "hi" "" "" "")).
Proof.
  assert (H1 : "bob" <> "") by discriminate.
  assert (H2 : result AuthService.reply (ans_body body_ok) (AuthStore.login "bob" "pw") w_fresh = true)
    by (vm_compute; reflexivity).
  split; [exact H1|]. split; [exact H2|].
  exact (comment_after_login _ _ _ _ ans_comments 1 "hi" "" "" "" initial_state H1 H2).
Defined.

(** C36: the [userId] a comment is posted with need not be a string,
    although [CommentDto] declares [userId: string]: after a login whose
    response carries a numeric [userId], [addComment] posts the number
    itself ([typeof] is ["number"]), as the store keeps it. *)
Theorem comment_userId_number ans_auth u p w_auth (ans : forall r : call, reply r)
    id t n d now c0 body (k : Z) :
  u <> "" ->
  result AuthService.reply ans_auth (AuthStore.login u p) w_auth = true ->
  ans_auth (AuthService.Post AuthService.login_url (AuthService.payload u p)) = Ok body ->
  get (AuthService.axios_data body) "userId" = Some (JNum k) -> k <> 0%Z ->
  exists h c,
    head (calls reply ans (addComment id t n d now)
            (Async.mkWorld
               {| auth := w_st (final AuthService.reply ans_auth (AuthStore.login u p) w_auth);
                  cs := c0 |} [] 0))
    = Some (PostComment h c) /\
    CommentDto.userId c = JNum k /\ typeof (CommentDto.userId c) = "number".
Proof.
  intros Hu Hr Hb Hk Hk0.
  destruct (login_then_post ans_auth u p w_auth ans id t n d now c0 Hu Hr)
    as (tok & body' & Hb' & _ & Hpost).
  rewrite Hb in Hb'. injection Hb' as <-.
  eexists _, _. split; [exact Hpost|]. cbn [mk_comment CommentDto.userId].
  unfold AuthService.extractUserId. rewrite Hk. unfold truthy_val.
  change (truthy (JNum k)) with (negb (Z.eqb k 0)). rewrite (proj2 (Z.eqb_neq k 0) Hk0).
  split; reflexivity.
Qed.

Lemma comment_userId_number_witness :
  exists h c,
    head (calls reply ans_comments (addComment 1 "hi" "" "" "")
            (Async.mkWorld
               {| auth := w_st (final AuthService.reply (ans_body body_num)
                                  (AuthStore.login "bob" "pw") w_fresh);
                  cs := initial_state |} [] 0))
    = Some (PostComment h c) /\
    CommentDto.userId c = JNum 7 /\ typeof (CommentDto.userId c) = "number".
Proof.
  apply (comment_userId_number (ans_body body_num) "bob" "pw" w_fresh ans_comments 1 "hi" "" "" ""
           initial_state body_num 7); [discriminate|vm_compute; reflexivity|reflexivity|
                                        vm_compute; reflexivity|discriminate].
Defined.

(** ** Interleaving *)

(** C33: with the comments of event 1 and then of event 2 requested, and
    the answer for event 2 arriving first, the store ends with the
    comments of event 1 although event 2 was requested last: the last
    response wins, not the last request. *)
Theorem comments_race :
  exists c, star reply denote cfg_anon c /\ c.2 = [] /\
    comments (cs (w_st c.1)) = [comment_of 1].
Proof. by_schedule_from denote ans_comments comments_race_schedule cfg_anon. Qed.
